(** * affinity-sync: the reconciling write path

    A shallow embedding of [affinity_sync/writer.py] (class [Writer]) and of
    the search helpers of [affinity_sync/clients/affinity_v1.py]
    (class [AffinityClientV1]), followed by theorems about find-or-create,
    the field catalog and the field-value diff.

    Python values are an inductive type with Python's [==], [in] and
    truthiness written out; a [str] is its UTF-8 encoding; exceptions are an
    error type; the remote service
    and the mirror store are an oracle that answers each call from the
    history of calls, and every call is appended to a trace kept in the
    writer's state, next to the writer's caches. *)

From Stdlib Require Import ZArith Ascii String List Bool Lia.
From Stdlib Require Import Floats.SpecFloat.
From stdpp Require Import base option list gmap strings.

Local Open Scope string_scope.
Local Open Scope Z_scope.

(** ** What the interpreter decides

    Some builtins read tables that belong to the interpreter and to its
    platform, not to the program: [str.upper] and [str.lower] follow the
    Unicode case mappings of the interpreter's version, [int] reads the
    decimal digits and the white space of these tables and, in recent
    versions, refuses a text above a configured number of digits (never set
    below 640), and [%Y] prints a year below 1000 as the C library does
    (glibc does not pad it). On ASCII text, and on years of four digits,
    every interpreter agrees and the functions below are written out;
    elsewhere they are the fields of an [Interpreter], and a theorem holds
    for every interpreter. *)
Class Interpreter := {
  unicode_upper : string -> string;   (* [s.upper()], [s] not ASCII *)
  unicode_lower : string -> string;   (* [s.lower()], [s] not ASCII *)
  other_int : string -> option Z;     (* [int(s)], [s] not ASCII or long *)
  short_year : Z -> string            (* [%Y] of a year not of four digits *)
}.

(** ** Strings: the [str] methods the code calls *)

Module Str.

Definition is_ascii_char (c : ascii) : bool := (N_of_ascii c <? 128)%N.

Fixpoint is_ascii (s : string) : bool :=
  match s with
  | EmptyString => true
  | String c s' => is_ascii_char c && is_ascii s'
  end.

Definition is_upper (c : ascii) : bool :=
  let n := N_of_ascii c in (65 <=? n)%N && (n <=? 90)%N.

Definition is_lower (c : ascii) : bool :=
  let n := N_of_ascii c in (97 <=? n)%N && (n <=? 122)%N.

Definition upper_ascii (c : ascii) : ascii :=
  if is_lower c then ascii_of_N (N_of_ascii c - 32) else c.

Definition lower_ascii (c : ascii) : ascii :=
  if is_upper c then ascii_of_N (N_of_ascii c + 32) else c.

Fixpoint map_ascii (f : ascii -> ascii) (s : string) : string :=
  match s with
  | EmptyString => EmptyString
  | String c s' => String (f c) (map_ascii f s')
  end.

(** [s.upper()] and [s.lower()]. *)
Definition upper `{Interpreter} (s : string) : string :=
  if is_ascii s then map_ascii upper_ascii s else unicode_upper s.

Definition lower `{Interpreter} (s : string) : string :=
  if is_ascii s then map_ascii lower_ascii s else unicode_lower s.

(** [sep in s] for a one-character ASCII [sep]. *)
Fixpoint contains (sep : ascii) (s : string) : bool :=
  match s with
  | EmptyString => false
  | String c s' => Ascii.eqb c sep || contains sep s'
  end.

(** [s.split(sep)] for a one-character ASCII [sep]: never the empty list. *)
Fixpoint split (sep : ascii) (s : string) : list string :=
  match s with
  | EmptyString => [EmptyString]
  | String c s' =>
      if Ascii.eqb c sep then EmptyString :: split sep s'
      else match split sep s' with
           | [] => [String c EmptyString]
           | w :: ws => String c w :: ws
           end
  end.

(** The characters for which [str.isspace] holds, each by its UTF-8
    encoding: U+0009 to U+000D, U+001C to U+0020, U+0085, U+00A0, U+1680,
    U+2000 to U+200A, U+2028, U+2029, U+202F, U+205F and U+3000. *)
Definition whitespace : list (list ascii) :=
  List.map (List.map (fun n => ascii_of_N (Z.to_N n)))
    [ [9]; [10]; [11]; [12]; [13]; [28]; [29]; [30]; [31]; [32];
      [194; 133]; [194; 160]; [225; 154; 128];
      [226; 128; 128]; [226; 128; 129]; [226; 128; 130]; [226; 128; 131];
      [226; 128; 132]; [226; 128; 133]; [226; 128; 134]; [226; 128; 135];
      [226; 128; 136]; [226; 128; 137]; [226; 128; 138];
      [226; 128; 168]; [226; 128; 169]; [226; 128; 175];
      [226; 129; 159]; [227; 128; 128] ].

(** What follows [pre] in [cs], when [cs] starts with it. *)
Fixpoint starts_with (pre cs : list ascii) : option (list ascii) :=
  match pre, cs with
  | [], _ => Some cs
  | p :: pre', c :: cs' => if Ascii.eqb p c then starts_with pre' cs' else None
  | _ :: _, [] => None
  end.

(** [cs] without the first of [pres] it starts with. *)
Fixpoint drop_first (pres : list (list ascii)) (cs : list ascii)
  : option (list ascii) :=
  match pres with
  | [] => None
  | pre :: pres' =>
      match starts_with pre cs with
      | Some rest => Some rest
      | None => drop_first pres' cs
      end
  end.

(** Leading characters of [spaces] are dropped, at most [fuel] of them. *)
Fixpoint lstrip_by (spaces : list (list ascii)) (fuel : nat) (cs : list ascii)
  : list ascii :=
  match fuel with
  | O => cs
  | S fuel' =>
      match drop_first spaces cs with
      | Some rest => lstrip_by spaces fuel' rest
      | None => cs
      end
  end.

Definition lstrip (cs : list ascii) : list ascii :=
  lstrip_by whitespace (length cs) cs.

Definition rstrip (cs : list ascii) : list ascii :=
  rev (lstrip_by (List.map (@rev ascii) whitespace) (length cs) (rev cs)).

(** [s.strip()]. *)
Definition strip (cs : list ascii) : list ascii := rstrip (lstrip cs).

(** The white space [int()] skips around an ASCII literal. *)
Definition is_c_space (c : ascii) : bool :=
  let n := N_of_ascii c in ((9 <=? n)%N && (n <=? 13)%N) || (n =? 32)%N.

Fixpoint skip_spaces (cs : list ascii) : list ascii :=
  match cs with
  | c :: cs' => if is_c_space c then skip_spaces cs' else cs
  | [] => []
  end.

Definition is_digit (c : ascii) : bool :=
  let n := N_of_ascii c in (48 <=? n)%N && (n <=? 57)%N.

Definition digit_value (c : ascii) : Z := Z.of_N (N_of_ascii c) - 48.

(** Decimal digits with single underscores between them, as [int()] reads
    them; [after_digit] says whether the previous character was a digit. *)
Fixpoint digits (acc : Z) (after_digit : bool) (cs : list ascii) : option Z :=
  match cs with
  | [] => if after_digit then Some acc else None
  | c :: cs' =>
      if is_digit c then digits (10 * acc + digit_value c) true cs'
      else if Ascii.eqb c "_" && after_digit then
        match cs' with
        | d :: _ => if is_digit d then digits acc false cs' else None
        | [] => None
        end
      else None
  end.

(** [int(s)] in base ten: [None] stands for the [ValueError] it raises. An
    ASCII text of at most 640 characters is within the limit of every
    interpreter. *)
Definition to_int `{Interpreter} (s : string) : option Z :=
  if is_ascii s && (String.length s <=? 640)%nat then
    match rev (skip_spaces (rev (skip_spaces (list_ascii_of_string s)))) with
    | c :: cs =>
        if Ascii.eqb c "-" then Z.opp <$> digits 0 false cs
        else if Ascii.eqb c "+" then digits 0 false cs
        else digits 0 false (c :: cs)
    | [] => None
    end
  else other_int s.

Definition digit_char (n : Z) : ascii := ascii_of_N (Z.to_N (n mod 10) + 48).

(** [%02d] and [%04d]. *)
Definition pad2 (n : Z) : string :=
  String (digit_char (n / 10)) (String (digit_char n) EmptyString).

Definition pad4 (n : Z) : string :=
  String (digit_char (n / 1000)) (String (digit_char (n / 100)) (pad2 n)).

End Str.

(** ** Python values *)

(** [affinity_v1_api.Location]. *)
Record Location := mkLocation {
  street_address : string;
  city : string;
  state : string;
  country : string
}.

(** A naive [datetime.datetime]. *)
Record datetime := mkDatetime {
  year : Z; month : Z; day : Z;
  hour : Z; minute : Z; second : Z; microsecond : Z
}.

#[global] Instance Location_eq_dec : EqDecision Location.
Proof. solve_decision. Defined.

#[global] Instance datetime_eq_dec : EqDecision datetime.
Proof. solve_decision. Defined.

(** The values a caller can pass as a field value and the values a
    [FieldValue.value] (typed [Any], parsed from JSON) can hold. *)
#[warnings="-register-all"]
Inductive PyVal :=
| VNone
| VBool (b : bool)
| VInt (n : Z)
| VFloat (f : spec_float)
| VStr (s : string)
| VDatetime (d : datetime)
| VLocation (l : Location)
| VList (vs : list PyVal)
| VDict (kvs : list (string * PyVal)).

(** [bool(v)]: what [filter(None, ...)] and [if v:] test. *)
Definition truthy (v : PyVal) : bool :=
  match v with
  | VNone => false
  | VBool b => b
  | VInt n => negb (n =? 0)
  | VFloat f => match f with S754_zero _ => false | _ => true end
  | VStr s => negb (String.eqb s "")
  | VDatetime _ => true
  | VLocation _ => true
  | VList vs => match vs with [] => false | _ => true end
  | VDict kvs => match kvs with [] => false | _ => true end
  end.

(** Exact comparison of a float with an integer, as Python does it. *)
Definition float_eq_int (f : spec_float) (n : Z) : bool :=
  match f with
  | S754_zero _ => n =? 0
  | S754_finite s m e =>
      let sm := if s then Z.neg m else Z.pos m in
      if 0 <=? e then n =? sm * 2 ^ e else sm =? n * 2 ^ (- e)
  | _ => false
  end.

Definition Z_of_bool (b : bool) : Z := if b then 1 else 0.

(** [a == b]. [bool] is a subclass of [int]; numbers compare by value across
    [int] and [float]; a model object never equals a [dict]. *)
Fixpoint py_eq (a b : PyVal) : bool :=
  match a, b with
  | VNone, VNone => true
  | VBool x, VBool y => Bool.eqb x y
  | VBool x, VInt y => Z_of_bool x =? y
  | VInt x, VBool y => x =? Z_of_bool y
  | VInt x, VInt y => x =? y
  | VBool x, VFloat y => float_eq_int y (Z_of_bool x)
  | VFloat x, VBool y => float_eq_int x (Z_of_bool y)
  | VInt x, VFloat y => float_eq_int y x
  | VFloat x, VInt y => float_eq_int x y
  | VFloat x, VFloat y => SFeqb x y
  | VStr x, VStr y => String.eqb x y
  | VDatetime x, VDatetime y => bool_decide (x = y)
  | VLocation x, VLocation y => bool_decide (x = y)
  | VList xs, VList ys =>
      (fix all2 (xs ys : list PyVal) : bool :=
         match xs, ys with
         | [], [] => true
         | x :: xs', y :: ys' => py_eq x y && all2 xs' ys'
         | _, _ => false
         end) xs ys
  | VDict xs, VDict ys =>
      (length xs =? length ys)%nat &&
      (fix every (xs : list (string * PyVal)) : bool :=
         match xs with
         | [] => true
         | (k, v) :: xs' =>
             (fix find (ys : list (string * PyVal)) : bool :=
                match ys with
                | [] => false
                | (k', v') :: ys' =>
                    if String.eqb k k' then py_eq v v' else find ys'
                end) ys && every xs'
         end) xs
  | _, _ => false
  end.

(** [x in l] over a list of values. Python first tests identity, then
    [==]; the lists compared here hold objects of the caller on one side and
    objects parsed from a response on the other, so only [==] decides. *)
Definition py_in (x : PyVal) (l : list PyVal) : bool := existsb (py_eq x) l.

(** [%Y]: a year of four digits is printed as it is, a shorter one as the
    platform prints it (a [datetime] has the years 1 to 9999). *)
Definition format_year `{Interpreter} (y : Z) : string :=
  if (1000 <=? y) && (y <=? 9999) then Str.pad4 y else short_year y.

(** [d.strftime('%Y-%m-%dT%H:%M:%S')]. *)
Definition strftime `{Interpreter} (d : datetime) : string :=
  format_year (year d) ++ "-" ++ Str.pad2 (month d) ++ "-" ++ Str.pad2 (day d)
  ++ "T" ++ Str.pad2 (hour d) ++ ":" ++ Str.pad2 (minute d) ++ ":"
  ++ Str.pad2 (second d).

(** [loc.model_dump()]: the field map of a [Location]. *)
Definition model_dump (l : Location) : PyVal :=
  VDict [("street_address", VStr (street_address l)); ("city", VStr (city l));
         ("state", VStr (state l)); ("country", VStr (country l))].

(** ** Exceptions and results *)

(** The message of a [ValueError], by the place that raises it. *)
Inductive ValueErrorMsg :=
| InvalidFieldValueType        (* 'Invalid field value type - ...' *)
| FieldValueTypeMismatch       (* 'Field value type mismatch - ...' *)
| FieldDoesNotAllowMultiple    (* 'Field does not allow multiple values - ...' *)
| CachedLookupNeedsBoth        (* 'Both cached_field_name and cached_filed_value must be provided ...' *)
| MultipleEntriesFound         (* 'Multiple entries found for entity - ...' *)
| ListIdRequired               (* 'list_id is required when list_entry_id is provided' *)
| ListEntryIdRequired          (* 'list_entry_id is required when list_id is provided' *)
| InvalidLiteralForInt         (* raised by int() *)
| RateLimitHeadersMissing.     (* 'Rate limit headers not found in response' *)

Inductive PyExc :=
| ValueError (msg : ValueErrorMsg)
| TypeError
| AttributeError
| IndexError
| ValidationError                       (* pydantic *)
| HTTPError (status : Z)                (* requests, from raise_for_status *)
| TryAgainError                         (* affinity_base *)
| AlreadyExists                         (* affinity_v1_api *)
| MultipleResults                       (* affinity_v1_api *)
| FieldNotFoundError                    (* writer *)
| CannotDetermineCorrectEntityError.    (* writer *)

Inductive Outcome (A : Type) :=
| Ok (a : A)
| Raise (e : PyExc).

Arguments Ok {A} a.
Arguments Raise {A} e.

Definition is_value_error {A} (r : Outcome A) : bool :=
  match r with Raise (ValueError _) => true | _ => false end.

(** ** The data model: [module_types/affinity_v1_api.py]

    Each record keeps the attributes the writer and the client read; the
    attributes no code path inspects (timestamps, colours, enrichment
    source and the like) are left out. *)

Module Person.
Record t := mk {
  id : Z;
  first_name : string;
  last_name : string;
  primary_email : option string;
  emails : list string;
  organization_ids : list Z
}.
End Person.

Module NewPerson.
Record t := mk {
  first_name : string;
  last_name : string;
  emails : list string;
  organization_ids : list Z
}.

Definition strip (s : string) : string :=
  string_of_list_ascii (Str.strip (list_ascii_of_string s)).

(** The constructor with its validators: names have [min_length=1], and
    [validate_emails] strips each email and drops the blank ones. *)
Definition make (first last : string) (mails : list string) (orgs : list Z)
  : Outcome t :=
  if String.eqb first "" || String.eqb last "" then Raise ValidationError
  else Ok (mk first last
             (List.map strip
                (List.filter (fun e => negb (String.eqb (strip e) "")) mails))
             orgs).
End NewPerson.

Module Company.
Record t := mk {
  id : Z;
  name : string;
  domain : option string;
  domains : list string;
  person_ids : list Z
}.
End Company.

Module NewCompany.
Record t := mk {
  name : string;
  domain : option string;
  person_ids : list Z
}.
End NewCompany.

Module OpportunityListEntry.
Record t := mk {
  id : Z;
  list_id : Z;
  entity_id : Z
}.
End OpportunityListEntry.

Module Opportunity.
Record t := mk {
  id : Z;
  name : string;
  person_ids : list Z;
  organization_ids : list Z;
  list_entries : list OpportunityListEntry.t
}.

(** The property [list_id]: [self.list_entries[0].list_id]. *)
Definition list_id (o : t) : Outcome Z :=
  match list_entries o with
  | e :: _ => Ok (OpportunityListEntry.list_id e)
  | [] => Raise IndexError
  end.
End Opportunity.

Module NewOpportunity.
Record t := mk {
  name : string;
  list_id : Z;
  person_ids : list Z;
  organization_ids : list Z
}.
End NewOpportunity.

Module ListEntry.
Record t := mk {
  id : Z;
  list_id : Z;
  entity_id : Z
}.
End ListEntry.

(** The legacy (v1) field. *)
Module Field.
Record t := mk {
  id : Z;
  name : string;
  list_id : option Z;
  value_type : Z;
  allows_multiple : bool
}.
End Field.

Module FieldValue.
Record t := mk {
  id : Z;
  field_id : Z;
  list_entry_id : option Z;
  entity_id : Z;
  value : PyVal
}.
End FieldValue.

(** The versioned (v2) field metadata. Its class lives in
    [module_types/affinity_v2_api.py]; these are the attributes the writer
    reads from it. *)
Module FieldMetadata.
Record t := mk {
  affinity_id : string;
  name : string;
  type : string;
  value_type : string
}.
End FieldMetadata.

Inductive EntityType := person | company | opportunity.

#[global] Instance EntityType_eq_dec : EqDecision EntityType.
Proof. solve_decision. Defined.

(** ** The declared value types: [FieldTypeMap] *)

Inductive PyType :=
| TInt | TFloat | TStr | TDatetime | TLocation
| TListOf (elt : PyType).      (* a parameterized generic, [list[...]] *)

Definition FieldTypeMap : list (string * PyType) :=
  [ ("person", TInt);
    ("person-multi", TListOf TInt);
    ("company", TInt);
    ("company-multi", TListOf TInt);
    ("filterable-text", TStr);
    ("filterable-text-multi", TListOf TStr);
    ("number", TFloat);
    ("number-multi", TListOf TFloat);
    ("datetime", TDatetime);
    ("location", TLocation);
    ("location-multi", TListOf TLocation);
    ("text", TStr);
    ("ranked-dropdown", TStr);
    ("dropdown", TStr);
    ("dropdown-multi", TListOf TStr) ].

(** [FieldTypeMap.get(key)]. *)
Fixpoint dict_get {V} (key : string) (d : list (string * V)) : option V :=
  match d with
  | [] => None
  | (k, v) :: d' => if String.eqb key k then Some v else dict_get key d'
  end.

(** [isinstance(v, ty)]. The second argument of [isinstance] must be a
    class: given a parameterized generic such as [list[int]] the builtin
    raises [TypeError] whatever the first argument is. *)
Definition isinstance (v : PyVal) (ty : PyType) : Outcome bool :=
  match ty with
  | TListOf _ => Raise TypeError
  | TInt => Ok (match v with VInt _ | VBool _ => true | _ => false end)
  | TFloat => Ok (match v with VFloat _ => true | _ => false end)
  | TStr => Ok (match v with VStr _ => true | _ => false end)
  | TDatetime => Ok (match v with VDatetime _ => true | _ => false end)
  | TLocation => Ok (match v with VLocation _ => true | _ => false end)
  end.

Definition is_none (v : PyVal) : bool :=
  match v with VNone => true | _ => false end.

Definition is_list (v : PyVal) : bool :=
  match v with VList _ => true | _ => false end.

(** [Writer.__check_field_value_type]. *)
Definition check_field_value_type (value : PyVal) (value_type : string)
  : Outcome unit :=
  match dict_get value_type FieldTypeMap with
  | None => Raise (ValueError InvalidFieldValueType)
  | Some ty =>
      match isinstance value ty with
      | Raise e => Raise e
      | Ok inst =>
          if negb inst && negb (is_none value)
          then Raise (ValueError FieldValueTypeMismatch)
          else Ok tt
      end
  end.

(** ** The outside world: calls and replies

    Every request the writer sends, through [AffinityClientV1], through
    [AffinityClientV2] or to the mirror store ([Reader], [PostgresClient]),
    is a [Call]. The v2 client, the reader and the store client are not
    among the sources: each of their methods that the writer calls is one
    call here, whatever paging it does. *)

Inductive Call :=
| GetFields                                         (* v1 GET fields *)
| GetPeopleFields                                   (* v2 get_people_fields *)
| GetCompanyFields                                  (* v2 get_company_fields *)
| GetListFields (list_id : Z)                       (* v2 get_list_fields *)
| GetPersons (term : string)                        (* v1 GET persons *)
| GetPersonById (person_id : Z)
| PostPerson (new_person : NewPerson.t)             (* v1 POST persons *)
| GetOrganizations (term : string)                  (* v1 GET organizations *)
| GetCompanyById (company_id : Z)
| PostOrganization (new_company : NewCompany.t)     (* v1 POST organizations *)
| GetOpportunities (term : string)                  (* v1 GET opportunities *)
| PostOpportunity (new_opportunity : NewOpportunity.t)
| GetFieldValues (person_id organization_id opportunity_id list_entry_id : option Z)
| PostFieldValue (field_id entity_id : Z) (value : PyVal) (list_entry_id : option Z)
| DeleteFieldValue (field_value_id : Z)             (* v1 DELETE field-values/id *)
| GetListEntries (list_id : Z)                      (* v1 GET lists/id/list-entries *)
| PostListEntry (list_id entity_id : Z)             (* v1 POST lists/id/list-entries *)
| GetPeopleIdsByField (field_name : string) (field_values : list PyVal)
| GetCompanyIdsByField (field_name : string) (field_values : list PyVal)
| InsertCallEntitlement.

(** The calls that change the remote field values. *)
Definition is_field_mutation (c : Call) : bool :=
  match c with
  | PostFieldValue _ _ _ _ | DeleteFieldValue _ => true
  | _ => false
  end.

(** A parsed response body. *)
Inductive Reply :=
| RFields (l : list Field.t)
| RFieldMetadata (l : list FieldMetadata.t)
| RPersons (persons : list Person.t)
| RPerson (p : Person.t)
| ROrganizations (organizations : list Company.t)
| RCompany (c : Company.t)
| ROpportunities (opportunities : list Opportunity.t)
| ROpportunity (o : Opportunity.t)
| RFieldValues (l : list FieldValue.t)
| RFieldValue (v : FieldValue.t)
| RDeleted (success : bool)
| RListEntries (l : list ListEntry.t)
| RListEntry (e : ListEntry.t)
| RIds (ids : list Z)
| RDone.

(** The remote service and the store: the answer to a call, given the calls
    made before it. [Raise] covers what [_send_request] raises after its
    retries: an HTTP status error, the missing rate-limit headers. *)
Definition Remote := list Call -> Call -> Outcome Reply.

Abbreviation catalog := (gmap string (FieldMetadata.t * option Field.t)).

(** The writer object: its clients, its three caches and the trace of the
    calls made so far (oldest first). *)
Record Writer := mkWriter {
  remote : Remote;
  v1_fields_cache : option (list Field.t);     (* cached_property __v1_fields *)
  fields_cache : option catalog;               (* cached_property __fields *)
  list_fields_cache : gmap Z catalog;          (* self.__list_fields *)
  calls : list Call
}.

Definition new_writer (r : Remote) : Writer := mkWriter r None None ∅ [].

(** ** A state and exception monad over the writer *)

Record M (A : Type) := mkM { run : Writer -> Outcome A * Writer }.

Arguments mkM {A} run.
Arguments run {A} m w.

#[global] Instance M_ret : MRet M := fun A a => mkM (fun w => (Ok a, w)).

#[global] Instance M_bind : MBind M := fun A B f m =>
  mkM (fun w =>
         match run m w with
         | (Ok a, w') => run (f a) w'
         | (Raise e, w') => (Raise e, w')
         end).

Definition raise {A} (e : PyExc) : M A := mkM (fun w => (Raise e, w)).

Definition lift {A} (r : Outcome A) : M A := mkM (fun w => (r, w)).

Definition get_writer : M Writer := mkM (fun w => (Ok w, w)).

Definition set_v1_fields_cache (l : list Field.t) : M unit :=
  mkM (fun w => (Ok tt, mkWriter (remote w) (Some l) (fields_cache w)
                          (list_fields_cache w) (calls w))).

Definition set_fields_cache (c : catalog) : M unit :=
  mkM (fun w => (Ok tt, mkWriter (remote w) (v1_fields_cache w) (Some c)
                          (list_fields_cache w) (calls w))).

Definition set_list_fields (list_id : Z) (c : catalog) : M unit :=
  mkM (fun w => (Ok tt, mkWriter (remote w) (v1_fields_cache w) (fields_cache w)
                          (<[list_id := c]> (list_fields_cache w)) (calls w))).

(** One request: it is answered from the history, then recorded. *)
Definition send (c : Call) : M Reply :=
  mkM (fun w => (remote w (calls w) c,
                 mkWriter (remote w) (v1_fields_cache w) (fields_cache w)
                   (list_fields_cache w) (calls w ++ [c]))).

(** [try: m except exc: handler]. *)
Definition try_except {A} (m : M A) (exc : PyExc -> bool) (handler : M A) : M A :=
  mkM (fun w =>
         match run m w with
         | (Raise e, w') => if exc e then run handler w' else (Raise e, w')
         | r => r
         end).

(** A [for] loop whose body can raise. *)
Fixpoint for_each {A} (l : list A) (body : A -> M unit) : M unit :=
  match l with
  | [] => mret tt
  | x :: l' => body x ;; for_each l' body
  end.

(** A [for] loop that updates a local variable. *)
Fixpoint fold_m {A S} (body : S -> A -> M S) (acc : S) (l : list A) : M S :=
  match l with
  | [] => mret acc
  | x :: l' => acc' ← body acc x; fold_m body acc' l'
  end.

(** A list comprehension whose condition can raise. *)
Fixpoint filter_o {A} (cond : A -> Outcome bool) (l : list A) : Outcome (list A) :=
  match l with
  | [] => Ok []
  | x :: l' =>
      match cond x with
      | Raise e => Raise e
      | Ok b =>
          match filter_o cond l' with
          | Raise e => Raise e
          | Ok r => Ok (if b then x :: r else r)
          end
      end
  end.

(** The decorator [insert_entitlement_after]: the entitlement is stored
    only when the wrapped method returns. *)
Definition insert_entitlement_after {A} (func : M A) : M A :=
  result ← func;
  send InsertCallEntitlement;;
  mret result.

(** ** [AffinityClientV1]: [clients/affinity_v1.py]

    [_send_request] validates the body against [result_type]; a body of
    another shape is pydantic's [ValidationError]. *)

Definition expect_persons (r : Reply) : M (list Person.t) :=
  match r with RPersons l => mret l | _ => raise ValidationError end.

Definition expect_person (r : Reply) : M Person.t :=
  match r with RPerson p => mret p | _ => raise ValidationError end.

Definition expect_organizations (r : Reply) : M (list Company.t) :=
  match r with ROrganizations l => mret l | _ => raise ValidationError end.

Definition expect_company (r : Reply) : M Company.t :=
  match r with RCompany c => mret c | _ => raise ValidationError end.

Definition expect_opportunities (r : Reply) : M (list Opportunity.t) :=
  match r with ROpportunities l => mret l | _ => raise ValidationError end.

Definition expect_opportunity (r : Reply) : M Opportunity.t :=
  match r with ROpportunity o => mret o | _ => raise ValidationError end.

Definition expect_fields (r : Reply) : M (list Field.t) :=
  match r with RFields l => mret l | _ => raise ValidationError end.

Definition expect_field_metadata (r : Reply) : M (list FieldMetadata.t) :=
  match r with RFieldMetadata l => mret l | _ => raise ValidationError end.

Definition expect_field_values (r : Reply) : M (list FieldValue.t) :=
  match r with RFieldValues l => mret l | _ => raise ValidationError end.

Definition expect_field_value (r : Reply) : M FieldValue.t :=
  match r with RFieldValue v => mret v | _ => raise ValidationError end.

Definition expect_deleted (r : Reply) : M unit :=
  match r with RDeleted _ => mret tt | _ => raise ValidationError end.

Definition expect_list_entries (r : Reply) : M (list ListEntry.t) :=
  match r with RListEntries l => mret l | _ => raise ValidationError end.

Definition expect_list_entry (r : Reply) : M ListEntry.t :=
  match r with RListEntry e => mret e | _ => raise ValidationError end.

Definition expect_ids (r : Reply) : M (list Z) :=
  match r with RIds l => mret l | _ => raise ValidationError end.

Definition is_http_422 (e : PyExc) : bool :=
  match e with HTTPError s => s =? 422 | _ => false end.

Definition create_person (new_person : NewPerson.t) : M Person.t :=
  try_except (send (PostPerson new_person) ≫= expect_person)
    is_http_422 (raise AlreadyExists).

Definition find_person_by_email (email : string) : M (option Person.t) :=
  persons ← send (GetPersons email) ≫= expect_persons;
  match persons with
  | p :: _ => mret (Some p)
  | [] => mret None
  end.

Fixpoint find_person_by_emails (emails : list string) : M (option Person.t) :=
  match emails with
  | [] => mret None
  | email :: emails' =>
      found ← find_person_by_email email;
      match found with
      | Some p => mret (Some p)
      | None => find_person_by_emails emails'
      end
  end.

Section Model.

Context {python : Interpreter}.

(** The test of the comprehension in [find_person_by_name]. *)
Definition person_named (first_name last_name : string) (p : Person.t) : bool :=
  String.eqb (Str.upper (Person.first_name p)) (Str.upper first_name)
  && String.eqb (Str.upper (Person.last_name p)) (Str.upper last_name).

Definition find_person_by_name (first_name last_name : string)
  : M (option Person.t) :=
  persons ← send (GetPersons (first_name ++ " " ++ last_name)) ≫= expect_persons;
  let valid_persons := List.filter (person_named first_name last_name) persons in
  if (length valid_persons =? 1)%nat then
    match persons with            (* return response.persons[0] *)
    | p :: _ => mret (Some p)
    | [] => raise IndexError
    end
  else if (1 <? length valid_persons)%nat then raise MultipleResults
  else mret None.

(** Modelled from the spec: [find_person_by_id], which the writer calls on
    the client and [clients/affinity_v1.py] does not define. It fetches the
    entity by id, and reports an entity deleted upstream by raising
    [TryAgainError]. *)
Definition find_person_by_id (person_id : Z) : M Person.t :=
  send (GetPersonById person_id) ≫= expect_person.

Definition fetch_fields : M (list Field.t) :=
  send GetFields ≫= expect_fields.

(** [x if cond and not list_entry_id else None]. *)
Definition id_truthy (i : option Z) : bool :=
  match i with Some n => negb (n =? 0) | None => false end.

Definition fetch_field_values (entity_id : Z) (entity_type : EntityType)
    (list_entry_id : option Z) : M (list FieldValue.t) :=
  let param (kind : EntityType) :=
    if bool_decide (entity_type = kind) && negb (id_truthy list_entry_id)
    then Some entity_id else None in
  send (GetFieldValues (param person) (param company) (param opportunity)
          (if id_truthy list_entry_id then list_entry_id else None))
    ≫= expect_field_values.

Definition create_field_value (field_id entity_id : Z) (value : PyVal)
    (list_entry_id : option Z) : M FieldValue.t :=
  send (PostFieldValue field_id entity_id value list_entry_id)
    ≫= expect_field_value.

Definition delete_field_value (field_value_id : Z) : M unit :=
  send (DeleteFieldValue field_value_id) ≫= expect_deleted.

(** The test of the comprehension in [find_company_by_domain]. *)
Definition company_has_domain (domain : string) (c : Company.t) : bool :=
  existsb (fun company_domain =>
             String.eqb (Str.lower company_domain) (Str.lower domain))
          (Company.domains c).

(** The three-way ending shared by the two company searches. *)
Definition pick_company (take_best_match : bool) (valid_companies : list Company.t)
  : M (option Company.t) :=
  if (length valid_companies =? 1)%nat
     || (take_best_match && (0 <? length valid_companies)%nat) then
    match valid_companies with
    | c :: _ => mret (Some c)
    | [] => raise IndexError
    end
  else if (1 <? length valid_companies)%nat then raise MultipleResults
  else mret None.

Definition find_company_by_domain (domain : string) (take_best_match : bool)
  : M (option Company.t) :=
  organizations ← send (GetOrganizations domain) ≫= expect_organizations;
  pick_company take_best_match
    (List.filter (company_has_domain domain) organizations).

Definition company_named (name : string) (c : Company.t) : bool :=
  String.eqb (Str.upper (Company.name c)) (Str.upper name).

Definition find_company_by_name (name : string) (take_best_match : bool)
  : M (option Company.t) :=
  organizations ← send (GetOrganizations name) ≫= expect_organizations;
  pick_company take_best_match (List.filter (company_named name) organizations).

(** Modelled from the spec: [find_company_by_id], as [find_person_by_id]. *)
Definition find_company_by_id (company_id : Z) : M Company.t :=
  send (GetCompanyById company_id) ≫= expect_company.

Definition create_company (new_company : NewCompany.t) : M Company.t :=
  send (PostOrganization new_company) ≫= expect_company.

(** The test of the comprehension in [find_opportunity_by_name]:
    [opportunity.list_id == list_id], where the property can raise. *)
Definition opportunity_in_list (list_id : Z) (o : Opportunity.t) : Outcome bool :=
  match Opportunity.list_id o with
  | Ok l => Ok (l =? list_id)
  | Raise e => Raise e
  end.

Definition find_opportunity_by_name (list_id : Z) (name : string)
  : M (option Opportunity.t) :=
  opportunities ← send (GetOpportunities name) ≫= expect_opportunities;
  valid_opportunities ← lift (filter_o (opportunity_in_list list_id) opportunities);
  if (length valid_opportunities =? 1)%nat then
    match valid_opportunities with
    | o :: _ => mret (Some o)
    | [] => raise IndexError
    end
  else if (1 <? length valid_opportunities)%nat then raise MultipleResults
  else mret None.

Definition create_opportunity (new_opportunity : NewOpportunity.t)
  : M Opportunity.t :=
  send (PostOpportunity new_opportunity) ≫= expect_opportunity.

Definition fetch_all_list_entries (list_id : Z) : M (list ListEntry.t) :=
  send (GetListEntries list_id) ≫= expect_list_entries.

Definition create_list_entry (list_id entity_id : Z) : M ListEntry.t :=
  send (PostListEntry list_id entity_id) ≫= expect_list_entry.

(** ** [Writer]: the field catalog *)

(** Modelled from the spec: the lookups of [reader.Reader], whose module is
    not among the sources: the ids the mirror store has tagged with one of
    the values of a field. *)
Definition get_people_ids_by_field (field_name : string) (field_values : list PyVal)
  : M (list Z) :=
  send (GetPeopleIdsByField field_name field_values) ≫= expect_ids.

Definition get_company_ids_by_field (field_name : string) (field_values : list PyVal)
  : M (list Z) :=
  send (GetCompanyIdsByField field_name field_values) ≫= expect_ids.

(** The cached property [__v1_fields]. *)
Definition v1_fields : M (list Field.t) :=
  w ← get_writer;
  match v1_fields_cache w with
  | Some l => mret l
  | None => l ← fetch_fields; set_v1_fields_cache l;; mret l
  end.

(** [{field.id: field for field in ...}]: a later field replaces an earlier
    one with the same id. *)
Definition fields_by_id (l : list Field.t) : gmap Z Field.t :=
  foldl (fun d field => <[Field.id field := field]> d) ∅ l.

(** A key given to [v1_fields.get]: an [int], or the [str] that
    [get_list_fields] passes for an identifier without a dash. No [str]
    equals an [int] key. *)
Inductive V1Key := KInt (n : Z) | KStr (s : string).

Definition v1_get (d : gmap Z Field.t) (k : V1Key) : option Field.t :=
  match k with
  | KInt n => d !! n
  | KStr _ => None
  end.

(** [int(affinity_id.split('-')[1])]. *)
Definition second_segment_int (affinity_id : string) : Outcome Z :=
  match Str.split "-" affinity_id with
  | _ :: segment :: _ =>
      match Str.to_int segment with
      | Some n => Ok n
      | None => Raise (ValueError InvalidLiteralForInt)
      end
  | _ => Raise IndexError
  end.

Definition type_is_global_or_list (field : FieldMetadata.t) : bool :=
  String.eqb (FieldMetadata.type field) "global"
  || String.eqb (FieldMetadata.type field) "list".

(** The body of the loop of [__fields]. *)
Definition fields_step (by_id : gmap Z Field.t) (out : catalog)
    (field : FieldMetadata.t) : M catalog :=
  if negb (type_is_global_or_list field) then mret out
  else
    v1_id ← lift (second_segment_int (FieldMetadata.affinity_id field));
    let v1_field := v1_get by_id (KInt v1_id) in
    mret (<[Str.upper (FieldMetadata.name field) := (field, v1_field)]> out).

(** The cached property [__fields]: the global catalog. *)
Definition fields : M catalog :=
  w ← get_writer;
  match fields_cache w with
  | Some out => mret out
  | None =>
      l ← v1_fields;
      let by_id := fields_by_id l in
      people ← send GetPeopleFields ≫= expect_field_metadata;
      companies ← send GetCompanyFields ≫= expect_field_metadata;
      out ← fold_m (fields_step by_id) ∅ (people ++ companies);
      set_fields_cache out;;
      mret out
  end.

Definition is_reserved (field : FieldMetadata.t) : bool :=
  String.eqb (FieldMetadata.affinity_id field) "persons"
  || String.eqb (FieldMetadata.affinity_id field) "companies".

(** The legacy key of a list-scoped field: the second segment when the
    identifier has a dash, the identifier itself otherwise. *)
Definition list_field_key (affinity_id : string) : Outcome V1Key :=
  if Str.contains "-" affinity_id then
    match second_segment_int affinity_id with
    | Ok n => Ok (KInt n)
    | Raise e => Raise e
    end
  else Ok (KStr affinity_id).

(** The body of the loop of [get_list_fields]. *)
Definition list_fields_step (by_id : gmap Z Field.t) (out : catalog)
    (field : FieldMetadata.t) : M catalog :=
  if negb (type_is_global_or_list field) || is_reserved field then mret out
  else
    v1_id ← lift (list_field_key (FieldMetadata.affinity_id field));
    let v1_field := v1_get by_id v1_id in
    mret (<[Str.upper (FieldMetadata.name field) := (field, v1_field)]> out).

Definition dict_truthy (c : catalog) : bool :=
  negb (bool_decide (dom c = ∅)).

(** [get_list_fields] past its cache test: fetch, build, remember. *)
Definition load_list_fields (list_id : Z) : M catalog :=
  l ← v1_fields;
  let by_id := fields_by_id l in
  metadata ← send (GetListFields list_id) ≫= expect_field_metadata;
  out ← fold_m (list_fields_step by_id) ∅ metadata;
  set_list_fields list_id out;;
  mret out.

(** [Writer.get_list_fields]: a cached catalog is reused when it is truthy,
    that is, not empty. *)
Definition get_list_fields (list_id : Z) : M catalog :=
  w ← get_writer;
  match list_fields_cache w !! list_id with
  | Some list_fields =>
      if dict_truthy list_fields then mret list_fields
      else load_list_fields list_id
  | None => load_list_fields list_id
  end.

(** [Writer.__get_field]. The list catalog overlays the global one:
    [fields | list_fields] keeps the right operand on a shared key. *)
Definition get_field (field_name : string) (list_id : option Z)
  : M (FieldMetadata.t * option Field.t) :=
  global ← fields;
  all ← match list_id with
        | Some l =>
            if negb (l =? 0)
            then list_fields ← get_list_fields l; mret (list_fields ∪ global)
            else mret global
        | None => mret global
        end;
  match all !! Str.upper field_name with
  | Some field => mret field
  | None => raise FieldNotFoundError
  end.

(** ** [Writer]: find or create *)

Definition str_truthy (s : option string) : bool :=
  match s with Some s => negb (String.eqb s "") | None => false end.

(** The guard shared by [find_or_create_person] and
    [find_or_create_company]:
    [name and not value or not name and value]. *)
Definition cache_args_mismatch (cached_field_name : option string)
    (cached_filed_value : PyVal) : bool :=
  str_truthy cached_field_name && negb (truthy cached_filed_value)
  || negb (str_truthy cached_field_name) && truthy cached_filed_value.

Definition is_try_again (e : PyExc) : bool :=
  match e with TryAgainError => true | _ => false end.

(** The cached fast path: [Some] entity when it returns from inside the
    [try], [None] when control falls out of the [if cached_field_name:]
    block. *)
Definition cached_lookup {A} (lookup_ids : string -> list PyVal -> M (list Z))
    (find_by_id : Z -> M A) (cached_field_name : option string)
    (cached_filed_value : PyVal) : M (option A) :=
  match cached_field_name with
  | Some name =>
      if negb (String.eqb name "") then
        stale_id ← lookup_ids name [cached_filed_value];
        match stale_id with
        | [id] =>
            try_except (found ← find_by_id id; mret (Some found))
              is_try_again (mret None)
        | _ => mret None
        end
      else mret None
  | None => mret None
  end.

(** [Writer.find_or_create_person]. *)
Definition find_or_create_person (first_name last_name : string)
    (emails : list string) (organization_ids : option (list Z))
    (cached_field_name : option string) (cached_filed_value : PyVal)
  : M Person.t :=
  insert_entitlement_after (
    if cache_args_mismatch cached_field_name cached_filed_value
    then raise (ValueError CachedLookupNeedsBoth)
    else
      cached ← cached_lookup get_people_ids_by_field find_person_by_id
                 cached_field_name cached_filed_value;
      match cached with
      | Some p => mret p
      | None =>
          let organization_ids := default [] organization_ids in
          by_email ← find_person_by_emails emails;
          match by_email with
          | Some p => mret p
          | None =>
              by_name ← find_person_by_name first_name last_name;
              match by_name with
              | Some p => mret p
              | None =>
                  new_person ← lift (NewPerson.make first_name last_name
                                       emails organization_ids);
                  create_person new_person
              end
          end
      end).

(** [Writer.find_or_create_company]. *)
Definition find_or_create_company (name : string) (domain : option string)
    (take_best_match : bool) (cached_field_name : option string)
    (cached_filed_value : PyVal) : M Company.t :=
  insert_entitlement_after (
    if cache_args_mismatch cached_field_name cached_filed_value
    then raise (ValueError CachedLookupNeedsBoth)
    else
      cached ← cached_lookup get_company_ids_by_field find_company_by_id
                 cached_field_name cached_filed_value;
      match cached with
      | Some c => mret c
      | None =>
          by_domain ← (if str_truthy domain
                       then find_company_by_domain (default "" domain)
                              take_best_match
                       else mret None);
          match by_domain with
          | Some c => mret c
          | None =>
              by_name ← find_company_by_name name take_best_match;
              match by_name with
              | Some c => mret c
              | None => create_company (NewCompany.mk name domain [])
              end
          end
      end).

(** [Writer.find_or_create_opportunity]. *)
Definition find_or_create_opportunity (name : string) (list_id : Z)
    (company_ids person_ids : list Z) : M Opportunity.t :=
  insert_entitlement_after (
    found ← find_opportunity_by_name list_id name;
    match found with
    | Some o => mret o
    | None =>
        create_opportunity (NewOpportunity.mk name list_id person_ids company_ids)
    end).

(** ** [Writer]: list entries *)

(** What the local variable [current_field_values] of
    [find_or_create_list_entry] holds: rows when it comes from
    [fetch_field_values], bare values once the loop over the qualifiers has
    assigned its own comprehension to it. *)
Inductive Obj :=
| ORow (row : FieldValue.t)
| ORaw (v : PyVal).

(** [value.field_id == v1_field.id] followed by [value.value]: reading
    [field_id] off a bare value, or [id] off [None], is [AttributeError]. *)
Definition obj_of_field (v1_field : option Field.t) (o : Obj) : Outcome bool :=
  match o, v1_field with
  | ORow row, Some f => Ok (FieldValue.field_id row =? Field.id f)
  | _, _ => Raise AttributeError
  end.

Definition obj_value (o : Obj) : PyVal :=
  match o with
  | ORow row => FieldValue.value row
  | ORaw v => v
  end.

(** [desired if isinstance(desired, list) else [desired]]. *)
Definition as_list (v : PyVal) : list PyVal :=
  match v with
  | VList vs => vs
  | _ => [v]
  end.

Definition nonempty {A} (l : list A) : bool :=
  match l with [] => false | _ => true end.

(** The loop over [qualifiers.items()] for one entry: [true] when [match]
    is still [True] at its end. *)
Fixpoint check_qualifiers (list_id : Z) (qualifiers : list (string * PyVal))
    (current_field_values : list Obj) : M bool :=
  match qualifiers with
  | [] => mret true
  | (field_name, desired_field_value) :: rest =>
      '(field, v1_field) ← get_field field_name (Some list_id);
      let desired_field_value := as_list desired_field_value in
      kept ← lift (filter_o (obj_of_field v1_field) current_field_values);
      let current_field_values := List.map obj_value kept in
      let missing_values :=
        List.filter (fun value => negb (py_in value current_field_values))
          desired_field_value in
      let extra_values :=
        List.filter (fun value => negb (py_in value desired_field_value))
          current_field_values in
      if nonempty missing_values || nonempty extra_values then mret false
      else check_qualifiers list_id rest (List.map ORaw current_field_values)
  end.

(** The body of the loop over [mathing_entries]. *)
Definition qualify_entry (entity_id : Z) (entity_type : EntityType) (list_id : Z)
    (qualifiers : list (string * PyVal)) (still_matching_entries : list ListEntry.t)
    (entry : ListEntry.t) : M (list ListEntry.t) :=
  current_field_values ← fetch_field_values entity_id entity_type
                           (Some (ListEntry.id entry));
  matched ← check_qualifiers list_id qualifiers (List.map ORow current_field_values);
  mret (if matched : bool then (still_matching_entries ++ [entry])%list
        else still_matching_entries).

(** [Writer.find_or_create_list_entry]; [qualifiers] is the dict in
    insertion order, [None] when the argument is omitted. *)
Definition find_or_create_list_entry (entity_id : Z) (entity_type : EntityType)
    (list_id : Z) (qualifiers : option (list (string * PyVal)))
  : M ListEntry.t :=
  insert_entitlement_after (
    entries ← fetch_all_list_entries list_id;
    let mathing_entries :=
      List.filter (fun entry => ListEntry.entity_id entry =? entity_id) entries in
    mathing_entries ←
      (if nonempty mathing_entries && nonempty (default [] qualifiers)
       then fold_m (qualify_entry entity_id entity_type list_id
                      (default [] qualifiers)) [] mathing_entries
       else mret mathing_entries);
    if (1 <? length mathing_entries)%nat
    then raise (ValueError MultipleEntriesFound)
    else match mathing_entries with
         | entry :: _ => mret entry
         | [] => create_list_entry list_id entity_id
         end).

(** ** [Writer]: field values *)

(** [[value for value in current_values if value.field_id == v1_field.id]]:
    the test reads [v1_field.id] once per row, so a missing legacy field
    raises as soon as there is a row. *)
Definition rows_of_field (v1_field : option Field.t) (rows : list FieldValue.t)
  : Outcome (list FieldValue.t) :=
  filter_o (fun row =>
              match v1_field with
              | Some f => Ok (FieldValue.field_id row =? Field.id f)
              | None => Raise AttributeError
              end) rows.

Fixpoint map_o {A B} (f : A -> Outcome B) (l : list A) : Outcome (list B) :=
  match l with
  | [] => Ok []
  | x :: l' =>
      match f x with
      | Raise e => Raise e
      | Ok y =>
          match map_o f l' with
          | Raise e => Raise e
          | Ok r => Ok (y :: r)
          end
      end
  end.

(** [value.strftime('%Y-%m-%dT%H:%M:%S')]: only a datetime has the method. *)
Definition format_datetime (value : PyVal) : Outcome PyVal :=
  match value with
  | VDatetime d => Ok (VStr (strftime d))
  | _ => Raise AttributeError
  end.

(** [isinstance(next(iter(field_value), None), datetime.datetime)]. *)
Definition first_is_datetime (field_value : list PyVal) : bool :=
  match field_value with
  | VDatetime _ :: _ => true
  | _ => false
  end.

(** Lines 370 to 376 of [__update_field]: the scalar becomes a singleton,
    [filter(None, ...)] keeps the truthy entries, and datetimes are formatted
    when the first entry is one. *)
Definition normalize (field_value : PyVal) : Outcome (list PyVal) :=
  let field_value := List.filter truthy (as_list field_value) in
  if first_is_datetime field_value
  then map_o format_datetime field_value
  else Ok field_value.

(** [value.model_dump() if isinstance(value, Location) else value]. *)
Definition wire (value : PyVal) : PyVal :=
  match value with
  | VLocation l => model_dump l
  | _ => value
  end.

Definition values_to_remove (current_values : list FieldValue.t)
    (field_value : list PyVal) : list FieldValue.t :=
  List.filter (fun value => negb (py_in (FieldValue.value value) field_value))
    current_values.

Definition values_to_add (current_values : list FieldValue.t)
    (field_value : list PyVal) : list PyVal :=
  List.filter
    (fun value => negb (py_in value (List.map FieldValue.value current_values)))
    field_value.

(** Lines 378 to 396 of [__update_field]. *)
Definition apply_diff (v1_field : Field.t) (entity_id : Z)
    (list_entry_id : option Z) (current_values : list FieldValue.t)
    (field_value : list PyVal) : M unit :=
  let to_remove := values_to_remove current_values field_value in
  let to_add := values_to_add current_values field_value in
  if negb (nonempty to_remove) && negb (nonempty to_add) then mret tt
  else
    for_each to_remove
      (fun value => delete_field_value (FieldValue.id value));;
    for_each to_add
      (fun value =>
         create_field_value (Field.id v1_field) entity_id (wire value)
           list_entry_id;;
         mret tt).

(** [Writer.__update_field]. *)
Definition update_field (entity_id : Z) (list_entry_id : option Z)
    (field_name : string) (field_value : PyVal)
    (current_values : list FieldValue.t) (overwrite : bool)
    (list_id : option Z) : M unit :=
  '(field, v1_field) ← get_field field_name list_id;
  lift (check_field_value_type field_value (FieldMetadata.value_type field));;
  current_values ← lift (rows_of_field v1_field current_values);
  if nonempty current_values && negb overwrite then mret tt
  else
    match v1_field with
    | None => raise AttributeError             (* v1_field.allows_multiple *)
    | Some v1 =>
        if negb (Field.allows_multiple v1) && is_list field_value
        then raise (ValueError FieldDoesNotAllowMultiple)
        else
          field_value ← lift (normalize field_value);
          apply_diff v1 entity_id list_entry_id current_values field_value
    end.

Definition is_some {A} (o : option A) : bool :=
  match o with Some _ => true | None => false end.

(** [Writer.update_fields]; [fields] is the dict in insertion order. *)
Definition update_fields (entity_id : Z) (entity_type : EntityType)
    (fields : list (string * PyVal)) (list_entry_id list_id : option Z)
    (overwrite : bool) : M unit :=
  insert_entitlement_after (
    if bool_decide (entity_type = opportunity) && negb (is_some list_entry_id)
    then raise CannotDetermineCorrectEntityError
    else if is_some list_entry_id && negb (is_some list_id)
    then raise (ValueError ListIdRequired)
    else if is_some list_id && negb (is_some list_entry_id)
    then raise (ValueError ListEntryIdRequired)
    else
      current_values ← fetch_field_values entity_id entity_type list_entry_id;
      for_each fields
        (fun '(field_name, field_value) =>
           update_field entity_id list_entry_id field_name field_value
             current_values overwrite list_id)).

(** ** [AffinityClientV1]: the search over several domains *)

(** [find_company_by_domains]: each domain is searched without
    [take_best_match], the first company found is returned. *)
Fixpoint find_company_by_domains (domains : list string) : M (option Company.t) :=
  match domains with
  | [] => mret None
  | domain :: domains' =>
      found ← find_company_by_domain domain false;
      match found with
      | Some c => mret (Some c)
      | None => find_company_by_domains domains'
      end
  end.

End Model.

(** * Definitions used in the statements *)

Local Open Scope list_scope.

Section Statements.

Context {python : Interpreter}.

(** The writer after one more call. *)
Definition add_call (w : Writer) (c : Call) : Writer :=
  mkWriter (remote w) (v1_fields_cache w) (fields_cache w)
    (list_fields_cache w) (calls w ++ [c]).

(** [extends P w w']: [w'] is [w] after some calls that all satisfy [P],
    against the same remote. *)
Definition extends (P : Call -> bool) (w w' : Writer) : Prop :=
  remote w' = remote w /\
  exists cs, calls w' = calls w ++ cs /\ Forall (fun c => P c = true) cs.

(** [issues P m]: whatever the state and the outcome, [m] only makes calls
    that satisfy [P]. *)
Definition issues {A} (P : Call -> bool) (m : M A) : Prop :=
  forall w, extends P w (run m w).2.

(** The requests that build the field catalog. *)
Definition is_catalog_call (c : Call) : bool :=
  match c with
  | GetFields | GetPeopleFields | GetCompanyFields | GetListFields _ => true
  | _ => false
  end.

(** The requests of the cached fast path. *)
Definition is_cache_call (c : Call) : bool :=
  match c with
  | GetPeopleIdsByField _ _ | GetCompanyIdsByField _ _
  | GetPersonById _ | GetCompanyById _ => true
  | _ => false
  end.

(** A created field value is truthy. *)
Definition post_truthy (c : Call) : bool :=
  match c with
  | PostFieldValue _ _ value _ => truthy value
  | _ => true
  end.

(** The writer after the calls [cs]. *)
Definition add_calls (w : Writer) (cs : list Call) : Writer :=
  mkWriter (remote w) (v1_fields_cache w) (fields_cache w)
    (list_fields_cache w) (calls w ++ cs).

Definition delete_call (row : FieldValue.t) : Call :=
  DeleteFieldValue (FieldValue.id row).

Definition post_call (v1_field : Field.t) (entity_id : Z)
    (list_entry_id : option Z) (value : PyVal) : Call :=
  PostFieldValue (Field.id v1_field) entity_id (wire value) list_entry_id.




(** The declared types that are a class, not a parameterized generic. *)
Definition single_valued (ty : PyType) : bool :=
  match ty with TListOf _ => false | _ => true end.

(** A company has the queried domain when one of its domains equals it once
    both are lower-cased. *)
Definition domain_matches (domain : string) (c : Company.t) : Prop :=
  exists d, In d (Company.domains c) /\ Str.lower d = Str.lower domain.

(** ** Definitions used in the further statements *)

(** A company has the queried name when the two names are equal once
    upper-cased. *)
Definition name_matches (name : string) (c : Company.t) : Prop :=
  Str.upper (Company.name c) = Str.upper name.

(** The list an opportunity is read as belonging to: that of its first list
    entry. *)
Definition first_entry_in_list (list_id : Z) (o : Opportunity.t) : bool :=
  match Opportunity.list_entries o with
  | e :: _ => OpportunityListEntry.list_id e =? list_id
  | [] => false
  end.

Definition is_ok {A} (r : Outcome A) : bool :=
  match r with Ok _ => true | Raise _ => false end.

(** The loop of a catalog without the writer: both loop bodies leave the
    writer alone, so the catalog they build is a function of the fields. *)
Fixpoint fold_o {A S} (step : S -> A -> Outcome S) (acc : S) (l : list A)
  : Outcome S :=
  match l with
  | [] => Ok acc
  | x :: l' =>
      match step acc x with
      | Ok acc' => fold_o step acc' l'
      | Raise e => Raise e
      end
  end.

Definition fields_step_result (by_id : gmap Z Field.t) (out : catalog)
    (field : FieldMetadata.t) : Outcome catalog :=
  (run (fields_step by_id out field) (new_writer (fun _ _ => Ok RDone))).1.

Definition list_fields_step_result (by_id : gmap Z Field.t) (out : catalog)
    (field : FieldMetadata.t) : Outcome catalog :=
  (run (list_fields_step by_id out field) (new_writer (fun _ _ => Ok RDone))).1.

(** A field that the global catalog files under the key [key]. *)
Definition filed_under (key : string) (field : FieldMetadata.t) : bool :=
  type_is_global_or_list field
  && String.eqb (Str.upper (FieldMetadata.name field)) key.

(** The same for the catalog of a list, which skips the reserved fields. *)
Definition list_filed_under (key : string) (field : FieldMetadata.t) : bool :=
  type_is_global_or_list field && negb (is_reserved field)
  && String.eqb (Str.upper (FieldMetadata.name field)) key.

(** The entry of a field in the global catalog: the field and the legacy
    field under the number of its second segment. *)
Definition global_entry (by_id : gmap Z Field.t) (field : FieldMetadata.t)
  : option (FieldMetadata.t * option Field.t) :=
  match second_segment_int (FieldMetadata.affinity_id field) with
  | Ok n => Some (field, by_id !! n)
  | Raise _ => None
  end.

(** The entry of a field in the catalog of a list: the legacy field is
    looked up under the key of [list_field_key]. *)
Definition list_catalog_entry (by_id : gmap Z Field.t) (field : FieldMetadata.t)
  : option (FieldMetadata.t * option Field.t) :=
  match list_field_key (FieldMetadata.affinity_id field) with
  | Ok key => Some (field, v1_get by_id key)
  | Raise _ => None
  end.

(** A string without white space at either end: it neither starts nor ends
    with the encoding of a character of [Str.whitespace]. *)
Definition trimmed (s : string) : Prop :=
  let cs := list_ascii_of_string s in
  forall space,
    In space Str.whitespace ->
    (forall rest, cs <> space ++ rest) /\ (forall front, cs <> front ++ space).

(** The requests each decorated method of the writer can make, the storing
    of the entitlement apart. *)
Definition person_call (c : Call) : bool :=
  match c with
  | GetPeopleIdsByField _ _ | GetPersonById _ | GetPersons _ | PostPerson _ => true
  | _ => false
  end.

Definition company_call (c : Call) : bool :=
  match c with
  | GetCompanyIdsByField _ _ | GetCompanyById _ | GetOrganizations _
  | PostOrganization _ => true
  | _ => false
  end.

Definition opportunity_call (c : Call) : bool :=
  match c with
  | GetOpportunities _ | PostOpportunity _ => true
  | _ => false
  end.

Definition list_entry_call (c : Call) : bool :=
  match c with
  | GetListEntries _ | GetFieldValues _ _ _ _ | PostListEntry _ _ => true
  | _ => is_catalog_call c
  end.

Definition field_update_call (c : Call) : bool :=
  match c with
  | GetFieldValues _ _ _ _ | PostFieldValue _ _ _ _ | DeleteFieldValue _ => true
  | _ => is_catalog_call c
  end.

(** [decorated P m]: the requests of a run of [m] are requests that satisfy
    [P], followed by the storing of the entitlement, which is there when
    the run returns and is never there twice. *)
Definition decorated {A} (P : Call -> bool) (m : M A) : Prop :=
  forall w,
    exists cs tail,
      calls (run m w).2 = calls w ++ cs ++ tail /\
      Forall (fun c => P c = true) cs /\
      (tail = [] \/ tail = [InsertCallEntitlement]) /\
      (is_ok (run m w).1 = true -> tail = [InsertCallEntitlement]).

End Statements.

(** * Scenarios

    Concrete remotes and inputs, used where a statement is checked on an
    input or fails on one. *)

Module Scenario.

(** An interpreter to run the scenarios on: its tables stop at ASCII (other
    text has no case and is no number) and its C library pads the year. *)
Definition plain : Interpreter := {|
  unicode_upper := fun s => s;
  unicode_lower := fun s => s;
  other_int := fun _ => None;
  short_year := Str.pad4
|}.

(** Legacy fields and the versioned metadata that point at them: a
    list-scoped single dropdown, a global multi dropdown, and a field whose
    declared type is multi-valued while its legacy metadata disallows
    several values. *)
Definition f_stage : Field.t := Field.mk 11 "Stage" (Some 7) 7 false.
Definition f_tags : Field.t := Field.mk 12 "Tags" None 7 true.
Definition f_labels : Field.t := Field.mk 13 "Labels" None 7 false.
Definition f_owner : Field.t := Field.mk 14 "Owner" (Some 7) 0 false.

Definition m_stage : FieldMetadata.t :=
  FieldMetadata.mk "field-11" "Stage" "list" "dropdown".
Definition m_tags : FieldMetadata.t :=
  FieldMetadata.mk "field-12" "Tags" "global" "dropdown-multi".
Definition m_labels : FieldMetadata.t :=
  FieldMetadata.mk "field-13" "Labels" "global" "dropdown-multi".
Definition m_owner : FieldMetadata.t :=
  FieldMetadata.mk "field-14" "Owner" "list" "person".

(** A versioned field whose identifier has no dash. *)
Definition m_legacy : FieldMetadata.t :=
  FieldMetadata.mk "1234" "Legacy" "global" "text".

(** The field values of list entry 70 (entity 5) and of list entry 71. *)
Definition row_lead : FieldValue.t :=
  FieldValue.mk 1 11 (Some 70) 5 (VStr "Lead").
Definition row_owner : FieldValue.t :=
  FieldValue.mk 2 14 (Some 70) 5 (VInt 31).
Definition row_won : FieldValue.t :=
  FieldValue.mk 3 11 (Some 71) 5 (VStr "Won").
Definition row_label : FieldValue.t :=
  FieldValue.mk 4 13 None 5 (VStr "a").

Definition entry_70 : ListEntry.t := ListEntry.mk 70 7 5.
Definition entry_71 : ListEntry.t := ListEntry.mk 71 7 5.
Definition entry_80 : ListEntry.t := ListEntry.mk 80 7 6.

Definition bob : Person.t :=
  Person.mk 1 "Bob" "Jones" None ["bob@example.com"] [].
Definition alice : Person.t :=
  Person.mk 2 "Alice" "Smith" None ["alice@example.com"] [].

Definition acme : Company.t :=
  Company.mk 21 "Acme" (Some "acme.com") ["acme.com"] [].
Definition acme_holding : Company.t :=
  Company.mk 22 "Acme Holding" (Some "ACME.com") ["acme.io"; "ACME.com"] [].
Definition other_co : Company.t :=
  Company.mk 23 "Other" (Some "other.com") ["other.com"] [].

Definition acme_series_b : Opportunity.t :=
  Opportunity.mk 41 "Acme Series B" [] [21] [OpportunityListEntry.mk 90 7 41].

(** A remote with these records. A search for persons answers Bob before
    Alice whatever the term; a search for organizations answers the three
    companies; every write is accepted. *)
Definition service : Remote := fun _ c =>
  match c with
  | GetFields => Ok (RFields [f_stage; f_tags; f_labels; f_owner])
  | GetPeopleFields => Ok (RFieldMetadata [m_tags; m_labels])
  | GetCompanyFields => Ok (RFieldMetadata [])
  | GetListFields 7 => Ok (RFieldMetadata [m_stage; m_owner])
  | GetPersons _ => Ok (RPersons [bob; alice])
  | GetOrganizations _ => Ok (ROrganizations [other_co; acme; acme_holding])
  | GetOpportunities _ => Ok (ROpportunities [acme_series_b])
  | GetListEntries 7 => Ok (RListEntries [entry_70; entry_80; entry_71])
  | GetFieldValues _ _ _ (Some 70) => Ok (RFieldValues [row_lead; row_owner])
  | GetFieldValues _ _ _ (Some 71) => Ok (RFieldValues [row_won; row_owner])
  | GetFieldValues _ _ _ _ => Ok (RFieldValues [])
  | DeleteFieldValue _ => Ok (RDeleted true)
  | PostFieldValue f e v l => Ok (RFieldValue (FieldValue.mk 900 f l e v))
  | PostListEntry l e => Ok (RListEntry (ListEntry.mk 901 l e))
  | PostOpportunity o =>
      Ok (ROpportunity (Opportunity.mk 902 (NewOpportunity.name o)
                          (NewOpportunity.person_ids o)
                          (NewOpportunity.organization_ids o)
                          [OpportunityListEntry.mk 903 (NewOpportunity.list_id o) 902]))
  | InsertCallEntitlement => Ok RDone
  | _ => Raise (HTTPError 404)
  end.

(** The same remote, whose people fields also hold the dash-free one. *)
Definition service_dash_free : Remote := fun h c =>
  match c with
  | GetPeopleFields => Ok (RFieldMetadata [m_tags; m_legacy])
  | GetListFields 8 => Ok (RFieldMetadata [m_legacy])
  | _ => service h c
  end.

(** A fresh writer, and the writer once it has resolved a field of list 7. *)
Definition w0 : Writer := new_writer service.

Definition w_stage `{Interpreter} : Writer :=
  (run (get_field "stage" (Some 7)) w0).2.

End Scenario.

(** * Further scenarios *)

Module Cases.

(** A directory that knows Alice by her email only. *)
Definition people (term : string) : list Person.t :=
  if String.eqb term "alice@example.com" then [Scenario.alice] else [].

Definition service_people : Remote := fun h c =>
  match c with
  | GetPersons term => Ok (RPersons (people term))
  | _ => Scenario.service h c
  end.

(** An address field and a field that no legacy field backs, both global;
    people and companies each have a field named "notes", in different
    cases. *)
Definition f_address : Field.t := Field.mk 15 "Address" None 5 false.
Definition f_notes : Field.t := Field.mk 16 "Notes" None 6 false.
Definition f_remarks : Field.t := Field.mk 17 "Remarks" None 6 false.

Definition m_address : FieldMetadata.t :=
  FieldMetadata.mk "field-15" "Address" "global" "location".
Definition m_orphan : FieldMetadata.t :=
  FieldMetadata.mk "field-99" "Orphan" "global" "text".
Definition m_notes_people : FieldMetadata.t :=
  FieldMetadata.mk "field-16" "Notes" "global" "text".
Definition m_notes_companies : FieldMetadata.t :=
  FieldMetadata.mk "field-17" "NOTES" "global" "text".
Definition m_enriched : FieldMetadata.t :=
  FieldMetadata.mk "affinity-data-description" "Description" "enriched" "text".

Definition row_address : FieldValue.t :=
  FieldValue.mk 5 15 None 5
    (VDict [("street_address", VStr "1 Main St"); ("city", VStr "Oslo");
            ("state", VStr ""); ("country", VStr "NO")]).

Definition oslo : Location := mkLocation "1 Main St" "Oslo" "" "NO".

Definition service_fields : Remote := fun h c =>
  match c with
  | GetFields => Ok (RFields [f_address; f_notes; f_remarks])
  | GetPeopleFields =>
      Ok (RFieldMetadata [m_address; m_notes_people; m_orphan; m_enriched])
  | GetCompanyFields => Ok (RFieldMetadata [m_notes_companies])
  | GetListFields _ => Ok (RFieldMetadata [])
  | _ => Scenario.service h c
  end.

(** An opportunity that is on no list. *)
Definition loose : Opportunity.t := Opportunity.mk 42 "Loose" [] [] [].

Definition service_loose : Remote := fun h c =>
  match c with
  | GetOpportunities _ => Ok (ROpportunities [Scenario.acme_series_b; loose])
  | _ => Scenario.service h c
  end.

Definition row_created : FieldValue.t :=
  FieldValue.mk 900 11 (Some 70) 5 (VStr "Won").

(** An email that is blank: the one character U+00A0, in UTF-8. *)
Definition no_break_space : string :=
  String (ascii_of_N 194) (String (ascii_of_N 160) EmptyString).

(** A remote that refuses every new person as a duplicate. *)
Definition service_taken : Remote := fun h c =>
  match c with
  | PostPerson _ => Raise (HTTPError 422)
  | _ => Scenario.service h c
  end.

(** Rows of field 11: one that an update to "Won", "Lead" and 3 keeps and
    one that it removes. *)
Definition row_kept : FieldValue.t :=
  FieldValue.mk 6 11 (Some 70) 5 (VInt 3).
Definition row_dropped : FieldValue.t :=
  FieldValue.mk 7 11 (Some 70) 5 (VStr "Lost").

End Cases.

(** * The embedding on examples *)

Section Properties.

Context {python : Interpreter}.

(** ** Builtins *)

Example split_field : Str.split "-" "field-1234" = ["field"; "1234"].
Proof. reflexivity. Qed.

Example split_no_dash : Str.split "-" "persons" = ["persons"].
Proof. reflexivity. Qed.

Example to_int_1234 : Str.to_int "1234" = Some 1234.
Proof. reflexivity. Qed.

Example to_int_word : Str.to_int "data" = None.
Proof. reflexivity. Qed.

Example strftime_ex :
  strftime (mkDatetime 2024 3 9 7 5 0 123) = "2024-03-09T07:05:00".
Proof. reflexivity. Qed.

Example upper_ex : Str.upper "Ada Lovelace-2" = "ADA LOVELACE-2".
Proof. reflexivity. Qed.

Example int_float_eq : py_eq (VInt 3) (VFloat (S754_finite false 3 0)) = true.
Proof. reflexivity. Qed.

Example split_empty : Str.split "-" "" = [""].
Proof. reflexivity. Qed.

Example to_int_underscore : Str.to_int " 1_000 " = Some 1000.
Proof. reflexivity. Qed.

Example to_int_double_underscore : Str.to_int "1__0" = None.
Proof. reflexivity. Qed.

(** [int()] skips the white space of C around an ASCII literal: the
    separator U+001C, which [str.strip] strips, is not part of it. *)
Example to_int_file_separator :
  Str.to_int (String (ascii_of_N 28) "5") = None.
Proof. reflexivity. Qed.

Example to_int_form_feed : Str.to_int (String (ascii_of_N 12) "5") = Some 5.
Proof. reflexivity. Qed.

(** Beyond ASCII the interpreter decides. *)
Example to_int_beyond_ascii :
  Str.to_int (Cases.no_break_space ++ "7")
  = other_int (Cases.no_break_space ++ "7")%string.
Proof. reflexivity. Qed.

Example upper_beyond_ascii :
  Str.upper "cafÃ©" = unicode_upper "cafÃ©".
Proof. reflexivity. Qed.

(** With an interpreter that knows the capital of the letter, the company
    "CAFÃ" has the name "cafÃ©". *)
Example company_named_beyond_ascii c :
  Company.name c = "CAFÃ" ->
  unicode_upper "cafÃ©" = "CAFÃ" ->
  unicode_upper "CAFÃ" = "CAFÃ" ->
  company_named "cafÃ©" c = true.
Proof.
  intros Hname Hsmall Hcapital. unfold company_named. rewrite Hname.
  change (Str.upper "CAFÃ") with (unicode_upper "CAFÃ").
  change (Str.upper "cafÃ©") with (unicode_upper "cafÃ©").
  rewrite Hsmall, Hcapital. apply String.eqb_refl.
Qed.

(** [str.strip] strips the no-break space, wherever the interpreter runs. *)
Example strip_no_break_space :
  NewPerson.strip (Cases.no_break_space ++ " a@b.c" ++ Cases.no_break_space)
  = "a@b.c".
Proof. reflexivity. Qed.

(** A year of three digits is printed by the platform. *)
Example strftime_short_year :
  strftime (mkDatetime 987 6 5 4 3 2 0)
  = (short_year 987 ++ "-06-05T04:03:02")%string.
Proof. reflexivity. Qed.

Example bool_equals_int : py_eq (VBool true) (VInt 1) = true.
Proof. reflexivity. Qed.

Example location_differs_from_its_dump l : py_eq (VLocation l) (model_dump l) = false.
Proof. reflexivity. Qed.

Example nan_is_truthy : truthy (VFloat S754_nan) = true.
Proof. reflexivity. Qed.

Example negative_zero_is_falsy : truthy (VFloat (S754_zero true)) = false.
Proof. reflexivity. Qed.

(** ** The type check *)

Example check_int_for_person : check_field_value_type (VInt 31) "person" = Ok tt.
Proof. reflexivity. Qed.

Example check_none_for_text : check_field_value_type VNone "text" = Ok tt.
Proof. reflexivity. Qed.

Example check_int_for_number :
  check_field_value_type (VInt 3) "number"
  = Raise (ValueError FieldValueTypeMismatch).
Proof. reflexivity. Qed.

Example check_unknown_type :
  check_field_value_type (VInt 3) "formula"
  = Raise (ValueError InvalidFieldValueType).
Proof. reflexivity. Qed.

Example check_multi_type value :
  check_field_value_type value "person-multi" = Raise TypeError.
Proof. reflexivity. Qed.

(** ** Normalization *)

Example normalize_mixed :
  normalize (VList [VInt 0; VStr ""; VStr "a"; VNone; VBool false])
  = Ok [VStr "a"].
Proof. reflexivity. Qed.

Example normalize_datetime :
  normalize (VDatetime (mkDatetime 2024 1 2 3 4 5 0))
  = Ok [VStr "2024-01-02T03:04:05"].
Proof. reflexivity. Qed.

Example normalize_zero : normalize (VInt 0) = Ok [].
Proof. reflexivity. Qed.

(** ** Runs of the writer *)

Example update_stage :
  run (update_field 5 (Some 70) "stage" (VStr "Won")
         [Scenario.row_lead; Scenario.row_owner] true (Some 7)) Scenario.w0
  = (Ok tt,
     add_calls Scenario.w_stage
       [DeleteFieldValue 1; PostFieldValue 11 5 (VStr "Won") (Some 70)]).
Proof. vm_compute. reflexivity. Qed.

Example clear_stage_with_empty_string :
  run (update_field 5 (Some 70) "stage" (VStr "")
         [Scenario.row_lead; Scenario.row_owner] true (Some 7)) Scenario.w0
  = (Ok tt, add_calls Scenario.w_stage [DeleteFieldValue 1]).
Proof. vm_compute. reflexivity. Qed.

Example cached_name_without_value :
  run (find_or_create_person "Zed" "Zulu" [] None (Some "external id") (VInt 0))
    Scenario.w0
  = (Raise (ValueError CachedLookupNeedsBoth), Scenario.w0).
Proof. reflexivity. Qed.

Example cached_value_without_name :
  run (find_or_create_company "Acme" None false (Some "") (VStr "k"))
    Scenario.w0
  = (Raise (ValueError CachedLookupNeedsBoth), Scenario.w0).
Proof. reflexivity. Qed.

Example opportunity_needs_list_entry :
  run (update_fields 41 opportunity [("stage", VStr "Won")] None None true)
    Scenario.w0
  = (Raise CannotDetermineCorrectEntityError, Scenario.w0).
Proof. reflexivity. Qed.

Example new_list_entry_for_unknown_entity :
  run (find_or_create_list_entry 9 company 7 None) Scenario.w0
  = (Ok (ListEntry.mk 901 7 9),
     add_calls Scenario.w0
       [GetListEntries 7; PostListEntry 7 9; InsertCallEntitlement]).
Proof. vm_compute. reflexivity. Qed.

(** * Reasoning about runs *)

Lemma run_bind {A B} (m : M A) (f : A -> M B) (w : Writer) :
  run (m ≫= f) w =
  match run m w with
  | (Ok a, w') => run (f a) w'
  | (Raise e, w') => (Raise e, w')
  end.
Proof. reflexivity. Qed.

Lemma run_ret {A} (a : A) (w : Writer) : run (mret a) w = (Ok a, w).
Proof. reflexivity. Qed.

Lemma run_lift {A} (r : Outcome A) (w : Writer) : run (lift r) w = (r, w).
Proof. reflexivity. Qed.

Lemma run_send (c : Call) (w : Writer) :
  run (send c) w = (remote w (calls w) c, add_call w c).
Proof. reflexivity. Qed.

Lemma extends_refl P w : extends P w w.
Proof. split; [done|]. exists []. by rewrite app_nil_r. Qed.

Lemma extends_same P w w' :
  remote w' = remote w -> calls w' = calls w -> extends P w w'.
Proof. intros Hr Hc. split; [done|]. exists []. by rewrite app_nil_r. Qed.

Lemma extends_trans P w1 w2 w3 :
  extends P w1 w2 -> extends P w2 w3 -> extends P w1 w3.
Proof.
  intros [Hr1 (cs1 & Hc1 & HP1)] [Hr2 (cs2 & Hc2 & HP2)]. split.
  - congruence.
  - exists (cs1 ++ cs2). split.
    + by rewrite Hc2, Hc1, app_assoc.
    + by apply Forall_app.
Qed.

Lemma extends_mono (P Q : Call -> bool) w w' :
  (forall c, P c = true -> Q c = true) -> extends P w w' -> extends Q w w'.
Proof.
  intros HPQ [Hr (cs & Hc & HP)]. split; [done|]. exists cs. split; [done|].
  eapply Forall_impl; [exact HP|]. auto.
Qed.

Lemma issues_mono {A} (P Q : Call -> bool) (m : M A) :
  (forall c, P c = true -> Q c = true) -> issues P m -> issues Q m.
Proof. intros HPQ Hm w. eapply extends_mono; [exact HPQ|apply Hm]. Qed.

Lemma issues_ret {A} P (a : A) : issues P (mret a).
Proof. intros w. apply extends_refl. Qed.

Lemma issues_raise {A} P e : issues P (@raise A e).
Proof. intros w. apply extends_refl. Qed.

Lemma issues_lift {A} P (r : Outcome A) : issues P (lift r).
Proof. intros w. apply extends_refl. Qed.

Lemma issues_get_writer P : issues P get_writer.
Proof. intros w. apply extends_refl. Qed.

Lemma issues_set_v1_fields_cache P l : issues P (set_v1_fields_cache l).
Proof. intros w. by apply extends_same. Qed.

Lemma issues_set_fields_cache P c : issues P (set_fields_cache c).
Proof. intros w. by apply extends_same. Qed.

Lemma issues_set_list_fields P i c : issues P (set_list_fields i c).
Proof. intros w. by apply extends_same. Qed.

Lemma issues_send P c : P c = true -> issues P (send c).
Proof.
  intros HP w. rewrite run_send. split; [done|]. exists [c]. split; [done|].
  by constructor.
Qed.

Lemma issues_bind {A B} P (m : M A) (f : A -> M B) :
  issues P m -> (forall a, issues P (f a)) -> issues P (m ≫= f).
Proof.
  intros Hm Hf w. rewrite run_bind. specialize (Hm w).
  destruct (run m w) as [[a|e] w']; simpl in *; [|done].
  eapply extends_trans; [exact Hm|apply Hf].
Qed.

Lemma issues_try_except {A} P (m : M A) exc handler :
  issues P m -> issues P handler -> issues P (try_except m exc handler).
Proof.
  intros Hm Hh w. unfold try_except. simpl. specialize (Hm w).
  destruct (run m w) as [[a|e] w']; simpl in *; [done|].
  destruct (exc e); [|done].
  eapply extends_trans; [exact Hm|apply Hh].
Qed.

Lemma issues_for_each {A} P (l : list A) (body : A -> M unit) :
  (forall x, issues P (body x)) -> issues P (for_each l body).
Proof.
  intros Hb. induction l as [|x l IH]; simpl.
  - apply issues_ret.
  - apply issues_bind; [apply Hb|]. intros _. exact IH.
Qed.

Lemma issues_fold_m {A S} P (body : S -> A -> M S) (l : list A) (acc : S) :
  (forall s x, issues P (body s x)) -> issues P (fold_m body acc l).
Proof.
  intros Hb. revert acc. induction l as [|x l IH]; intros acc; simpl.
  - apply issues_ret.
  - apply issues_bind; [apply Hb|]. intros acc'. apply IH.
Qed.

Lemma issues_insert_entitlement_after {A} P (func : M A) :
  P InsertCallEntitlement = true -> issues P func ->
  issues P (insert_entitlement_after func).
Proof.
  intros HP Hf. unfold insert_entitlement_after.
  apply issues_bind; [exact Hf|]. intros a.
  apply issues_bind; [by apply issues_send|]. intros _. apply issues_ret.
Qed.

Create HintDb issues.

(** One step of an [issues] goal: a lemma already proved, then the
    structural rules, then a case split on whatever the program branches
    on. *)
Ltac issues_step :=
  first
    [ solve [auto 1 with issues]
    | apply issues_ret | apply issues_raise | apply issues_lift
    | apply issues_get_writer | apply issues_set_v1_fields_cache
    | apply issues_set_fields_cache | apply issues_set_list_fields
    | apply issues_send; reflexivity
    | apply issues_bind; [|intros ?]
    | apply issues_try_except
    | apply issues_for_each; intros ?
    | apply issues_fold_m; intros ? ?
    | match goal with
      | |- issues _ (match ?x with _ => _ end) => destruct x
      end ].

Ltac issues_auto := repeat issues_step.

(** ** Which calls each method can make *)

Lemma issues_v1_fields : issues is_catalog_call v1_fields.
Proof. unfold v1_fields, fetch_fields, expect_fields. issues_auto. Qed.

#[local] Hint Resolve issues_v1_fields : issues.

Lemma issues_fields_step by_id out field :
  issues is_catalog_call (fields_step by_id out field).
Proof. unfold fields_step. issues_auto. Qed.

Lemma issues_list_fields_step by_id out field :
  issues is_catalog_call (list_fields_step by_id out field).
Proof. unfold list_fields_step. issues_auto. Qed.

#[local] Hint Resolve issues_fields_step issues_list_fields_step : issues.

Lemma issues_fields : issues is_catalog_call fields.
Proof. unfold fields, expect_field_metadata. issues_auto. Qed.

Lemma issues_load_list_fields list_id :
  issues is_catalog_call (load_list_fields list_id).
Proof. unfold load_list_fields, expect_field_metadata. issues_auto. Qed.

#[local] Hint Resolve issues_fields issues_load_list_fields : issues.

Lemma issues_get_list_fields list_id :
  issues is_catalog_call (get_list_fields list_id).
Proof. unfold get_list_fields. issues_auto. Qed.

#[local] Hint Resolve issues_get_list_fields : issues.

Lemma issues_get_field field_name list_id :
  issues is_catalog_call (get_field field_name list_id).
Proof. unfold get_field. issues_auto. Qed.

(** ** The field-value diff *)

Lemma add_calls_nil w : add_calls w [] = w.
Proof. destruct w. unfold add_calls. simpl. by rewrite app_nil_r. Qed.

Lemma add_calls_cons w c cs : add_calls (add_call w c) cs = add_calls w (c :: cs).
Proof. unfold add_calls, add_call. simpl. by rewrite <- app_assoc. Qed.

Lemma add_calls_app w cs1 cs2 :
  add_calls (add_calls w cs1) cs2 = add_calls w (cs1 ++ cs2).
Proof. unfold add_calls. simpl. by rewrite app_assoc. Qed.

Lemma run_delete_field_value i w :
  (run (delete_field_value i) w).2 = add_call w (DeleteFieldValue i).
Proof.
  unfold delete_field_value. rewrite run_bind, run_send.
  destruct (remote w (calls w) (DeleteFieldValue i)) as [[]|]; reflexivity.
Qed.

Lemma run_create_field_value f e v le w :
  (run (create_field_value f e v le;; mret tt) w).2
  = add_call w (PostFieldValue f e v le).
Proof.
  unfold create_field_value. rewrite !run_bind, run_send.
  destruct (remote w (calls w) (PostFieldValue f e v le)) as [[]|]; reflexivity.
Qed.

(** A loop whose body makes exactly one call per element: the calls made are
    those of a prefix of the list, the whole list when the loop returns. *)
Lemma for_each_calls {A} (body : A -> M unit) (c : A -> Call) (l : list A) :
  (forall x w, (run (body x) w).2 = add_call w (c x)) ->
  forall w, exists n,
    (n <= length l)%nat /\
    (run (for_each l body) w).2 = add_calls w (List.map c (take n l)) /\
    ((run (for_each l body) w).1 = Ok tt -> n = length l).
Proof.
  intros Hbody. induction l as [|x l IH]; intros w.
  - exists 0%nat. simpl. rewrite add_calls_nil. auto.
  - change (for_each (x :: l) body) with (body x ≫= (fun _ => for_each l body)).
    rewrite run_bind. specialize (Hbody x w).
    destruct (run (body x) w) as [[[]|e] w'] eqn:Hrun; simpl in Hbody; subst w'.
    + destruct (IH (add_call w (c x))) as (n & Hn & Hst & Hok).
      exists (S n). simpl. rewrite Hst, add_calls_cons.
      repeat split; auto with lia.
    + exists 1%nat. simpl. rewrite <- add_calls_cons, add_calls_nil.
      repeat split; auto with lia. discriminate.
Qed.

Lemma nonempty_false {A} (l : list A) : nonempty l = false -> l = [].
Proof. by destruct l. Qed.

Lemma apply_diff_calls v1 entity_id list_entry_id rows desired w :
  let removals := values_to_remove rows desired in
  let additions := values_to_add rows desired in
  let result := run (apply_diff v1 entity_id list_entry_id rows desired) w in
  exists n m,
    (n <= length removals)%nat /\ (m <= length additions)%nat /\
    (m <> 0%nat -> n = length removals) /\
    result.2 = add_calls w
                 (List.map delete_call (take n removals)
                  ++ List.map (post_call v1 entity_id list_entry_id)
                       (take m additions)) /\
    (result.1 = Ok tt -> n = length removals /\ m = length additions).
Proof.
  intros removals additions result. subst result. unfold apply_diff.
  fold removals additions.
  destruct (negb (nonempty removals) && negb (nonempty additions)) eqn:Hempty.
  - apply andb_prop in Hempty as [Hr Ha].
    apply negb_true_iff, nonempty_false in Hr, Ha.
    exists 0%nat, 0%nat. rewrite Hr, Ha. simpl. rewrite add_calls_nil.
    repeat split; auto.
  - rewrite run_bind.
    destruct (for_each_calls
                (fun value => delete_field_value (FieldValue.id value))
                delete_call removals
                (fun x w0 => run_delete_field_value (FieldValue.id x) w0) w)
      as (n & Hn & Hst & Hok).
    destruct (run (for_each removals _) w) as [[[]|e] w'] eqn:Hrun;
      simpl in Hst, Hok; subst w'.
    + specialize (Hok eq_refl). subst n.
      destruct (for_each_calls
                  (fun value =>
                     create_field_value (Field.id v1) entity_id (wire value)
                       list_entry_id;; mret tt)
                  (post_call v1 entity_id list_entry_id) additions
                  (fun x w0 => run_create_field_value _ _ _ _ w0)
                  (add_calls w (List.map delete_call (take (length removals) removals))))
        as (m & Hm & Hst2 & Hok2).
      exists (length removals), m. rewrite Hst2, add_calls_app.
      repeat split; auto; by apply Hok2.
    + exists n, 0%nat. simpl. rewrite app_nil_r.
      repeat split; auto with lia. discriminate.
Qed.

Lemma rows_of_field_some v1 rows :
  rows_of_field (Some v1) rows
  = Ok (List.filter (fun row => FieldValue.field_id row =? Field.id v1) rows).
Proof.
  unfold rows_of_field. induction rows as [|row rows IH]; simpl; [done|].
  by rewrite IH.
Qed.

(** ** The calls of the diff, exactly *)










(** Past the resolution of the field, the type check, the overwrite gate and
    the multiplicity check, [__update_field] is its diff. *)
Lemma update_field_reaches_diff w w1 entity_id list_entry_id field_name
    field_value current_values overwrite list_id field v1 desired :
  run (get_field field_name list_id) w = (Ok (field, Some v1), w1) ->
  check_field_value_type field_value (FieldMetadata.value_type field) = Ok tt ->
  let rows :=
    List.filter (fun row => FieldValue.field_id row =? Field.id v1)
      current_values in
  (rows = [] \/ overwrite = true) ->
  (Field.allows_multiple v1 = true \/ is_list field_value = false) ->
  normalize field_value = Ok desired ->
  run (update_field entity_id list_entry_id field_name field_value
         current_values overwrite list_id) w
  = run (apply_diff v1 entity_id list_entry_id rows desired) w1.
Proof.
  intros Hget Hcheck rows Hgate Hmulti Hnorm. unfold update_field.
  rewrite run_bind, Hget. cbn beta iota.
  rewrite run_bind, run_lift, Hcheck.
  rewrite run_bind, run_lift, rows_of_field_some. fold rows.
  assert (nonempty rows && negb overwrite = false) as ->.
  { destruct Hgate as [-> | ->]; [done|]. by rewrite andb_false_r. }
  assert (negb (Field.allows_multiple v1) && is_list field_value = false) as ->.
  { destruct Hmulti as [-> | ->]; [done|]. by rewrite andb_false_r. }
  by rewrite run_bind, run_lift, Hnorm.
Qed.


(** Past its three guards, [update_fields] fetches the current rows once and
    runs [__update_field] on every entry of the dict, in order, with these
    rows. *)
Lemma update_fields_runs_update_field w entity_id entity_type fields
    list_entry_id list_id overwrite :
  (entity_type = opportunity -> is_some list_entry_id = true) ->
  is_some list_entry_id = is_some list_id ->
  run (update_fields entity_id entity_type fields list_entry_id list_id
         overwrite) w
  = run (insert_entitlement_after
           (current_values ← fetch_field_values entity_id entity_type
                               list_entry_id;
            for_each fields
              (fun '(field_name, field_value) =>
                 update_field entity_id list_entry_id field_name field_value
                   current_values overwrite list_id))) w.
Proof.
  intros Hopp Hboth. unfold update_fields.
  assert (bool_decide (entity_type = opportunity)
          && negb (is_some list_entry_id) = false) as ->.
  { case_bool_decide as Htype; [|done]. by rewrite (Hopp Htype). }
  rewrite Hboth. by destruct (is_some list_id).
Qed.

(** ** The overwrite gate and the type check *)

Lemma filter_mutation_extends (P : Call -> bool) w w' :
  (forall c, P c = true -> is_field_mutation c = false) ->
  extends P w w' ->
  List.filter is_field_mutation (calls w')
  = List.filter is_field_mutation (calls w).
Proof.
  intros HP [_ (cs & -> & Hcs)]. rewrite List.filter_app.
  assert (List.filter is_field_mutation cs = []) as ->.
  { induction Hcs as [|c cs Hc _ IH]; simpl; [done|]. by rewrite (HP c Hc). }
  by rewrite app_nil_r.
Qed.

Lemma catalog_call_not_mutation c :
  is_catalog_call c = true -> is_field_mutation c = false.
Proof. by destruct c. Qed.

(** Resolving a field changes no field value. *)
Lemma get_field_no_mutation field_name list_id w :
  List.filter is_field_mutation (calls (run (get_field field_name list_id) w).2)
  = List.filter is_field_mutation (calls w).
Proof.
  eapply filter_mutation_extends; [exact catalog_call_not_mutation|].
  apply issues_get_field.
Qed.

(** C2. With [overwrite=False], when the rows of the resolved legacy field
    are not empty, the update makes no call at all once the field is
    resolved: the writer is left as the resolution left it, no field value
    has been added or removed, and the update returns, unless the type check
    raised first. This holds for any desired value. *)
Theorem update_field_keeps_existing_value w w1 entity_id list_entry_id
    field_name field_value current_values list_id field v1 :
  run (get_field field_name list_id) w = (Ok (field, Some v1), w1) ->
  List.filter (fun row => FieldValue.field_id row =? Field.id v1)
    current_values <> [] ->
  let result :=
    run (update_field entity_id list_entry_id field_name field_value
           current_values false list_id) w in
  result.2 = w1 /\
  List.filter is_field_mutation (calls result.2)
  = List.filter is_field_mutation (calls w) /\
  result.1
  = match check_field_value_type field_value (FieldMetadata.value_type field) with
    | Ok _ => Ok tt
    | Raise e => Raise e
    end.
Proof.
  intros Hget Hrows result.
  assert (result
          = (match check_field_value_type field_value
                     (FieldMetadata.value_type field) with
             | Ok _ => Ok tt
             | Raise e => Raise e
             end, w1)) as ->.
  { subst result. unfold update_field.
    rewrite run_bind, Hget. cbn beta iota. rewrite run_bind, run_lift.
    destruct (check_field_value_type _ _) as [[]|e]; [|done].
    rewrite run_bind, run_lift, rows_of_field_some.
    destruct (List.filter _ current_values); [done|]. reflexivity. }
  simpl. repeat split.
  pose proof (get_field_no_mutation field_name list_id w) as Hmut.
  by rewrite Hget in Hmut.
Qed.

Lemma check_list_single_valued values value_type ty :
  dict_get value_type FieldTypeMap = Some ty ->
  single_valued ty = true ->
  check_field_value_type (VList values) value_type
  = Raise (ValueError FieldValueTypeMismatch).
Proof.
  intros Hty Hsingle. unfold check_field_value_type. rewrite Hty.
  by destruct ty.
Qed.

(** A list against a single-valued declared type (a class in
    [FieldTypeMap]) is rejected with a [ValueError] by the type check, which
    runs before the overwrite gate and the multiplicity check: whatever the
    legacy field (its [allows_multiple] flag included, and even when it is
    missing), the current rows and the overwrite flag, and without a field
    value being added or removed. *)
Lemma update_field_rejects_list_for_single_valued_type w w1 entity_id
    list_entry_id field_name values current_values overwrite list_id field
    v1_field ty :
  run (get_field field_name list_id) w = (Ok (field, v1_field), w1) ->
  dict_get (FieldMetadata.value_type field) FieldTypeMap = Some ty ->
  single_valued ty = true ->
  let result :=
    run (update_field entity_id list_entry_id field_name (VList values)
           current_values overwrite list_id) w in
  result = (Raise (ValueError FieldValueTypeMismatch), w1) /\
  is_value_error result.1 = true /\
  List.filter is_field_mutation (calls result.2)
  = List.filter is_field_mutation (calls w).
Proof.
  intros Hget Hty Hsingle result.
  assert (result = (Raise (ValueError FieldValueTypeMismatch), w1)) as ->.
  { subst result. unfold update_field.
    rewrite run_bind, Hget. cbn beta iota. rewrite run_bind, run_lift.
    by rewrite (check_list_single_valued _ _ _ Hty Hsingle). }
  repeat split.
  pose proof (get_field_no_mutation field_name list_id w) as Hmut.
  by rewrite Hget in Hmut.
Qed.

(** ** Falsy entries *)

Lemma strftime_nonempty d : String.eqb (strftime d) "" = false.
Proof. unfold strftime. by destruct (format_year (year d)). Qed.

Lemma map_o_format_datetime_truthy l l' :
  map_o format_datetime l = Ok l' -> Forall (fun x => truthy x = true) l'.
Proof.
  revert l'. induction l as [|x l IH]; intros l' H; simpl in H.
  - injection H as <-. constructor.
  - destruct x; simpl in H; try discriminate.
    destruct (map_o format_datetime l) as [r|e]; [|discriminate].
    injection H as <-. constructor; [|by apply IH].
    simpl. by rewrite strftime_nonempty.
Qed.

Lemma filter_truthy_Forall l :
  Forall (fun x => truthy x = true) (List.filter truthy l).
Proof. apply List.Forall_forall. intros x Hx. by apply filter_In in Hx as [_ ?]. Qed.

(** What [normalize] returns holds truthy values only. *)
Lemma normalize_truthy field_value desired :
  normalize field_value = Ok desired ->
  Forall (fun x => truthy x = true) desired.
Proof.
  unfold normalize. intros H.
  pose proof (filter_truthy_Forall (as_list field_value)) as Hall.
  destruct (first_is_datetime _).
  - by apply map_o_format_datetime_truthy in H.
  - by injection H as <-.
Qed.

(** When no datetime leads, [normalize] is [filter(None, ...)]. *)
Lemma normalize_filter field_value :
  first_is_datetime (List.filter truthy (as_list field_value)) = false ->
  normalize field_value = Ok (List.filter truthy (as_list field_value)).
Proof. unfold normalize. by intros ->. Qed.

Lemma normalize_all_falsy field_value :
  Forall (fun x => truthy x = false) (as_list field_value) ->
  normalize field_value = Ok [].
Proof.
  intros Hall. unfold normalize.
  assert (List.filter truthy (as_list field_value) = []) as ->; [|done].
  induction Hall as [|x l Hx _ IH]; simpl; [done|]. by rewrite Hx.
Qed.

(** A truthy value is none of [None], [False], [0], [0.0] and [""]. *)
Lemma truthy_not_zero_or_empty v :
  truthy v = true ->
  py_eq v VNone = false /\ py_eq v (VBool false) = false /\
  py_eq v (VInt 0) = false /\ py_eq v (VStr "") = false.
Proof.
  destruct v as [|b|n|f|s|d|l|vs|kvs]; simpl; intros H;
    try discriminate; try (repeat split; reflexivity).
  - subst b. repeat split; reflexivity.
  - apply negb_true_iff in H. rewrite H. repeat split; reflexivity.
  - assert (float_eq_int f 0 = false) as Hf.
    { destruct f as [| | |s m e]; try discriminate; try reflexivity.
      unfold float_eq_int. destruct (0 <=? e) eqn:He.
      - apply Z.leb_le in He. apply Z.eqb_neq.
        pose proof (Z.pow_pos_nonneg 2 e ltac:(lia) He). destruct s; nia.
      - apply Z.eqb_neq. destruct s; lia. }
    unfold Z_of_bool. rewrite Hf. repeat split; reflexivity.
  - apply negb_true_iff in H. rewrite H. repeat split; reflexivity.
Qed.

Lemma wire_truthy v : truthy v = true -> truthy (wire v) = true.
Proof. by destruct v. Qed.

Lemma issues_for_each_in {A} P (l : list A) (body : A -> M unit) :
  (forall x, In x l -> issues P (body x)) -> issues P (for_each l body).
Proof.
  induction l as [|x l IH]; intros Hb; simpl.
  - apply issues_ret.
  - apply issues_bind; [apply Hb; by left|]. intros _.
    apply IH. intros y Hy. apply Hb. by right.
Qed.

Lemma issues_bind_lift {A B} P (r : Outcome A) (f : A -> M B) :
  (forall a, r = Ok a -> issues P (f a)) -> issues P (lift r ≫= f).
Proof.
  intros Hf w. rewrite run_bind, run_lift. destruct r as [a|e].
  - by apply Hf.
  - apply extends_refl.
Qed.

Lemma catalog_call_post_truthy c :
  is_catalog_call c = true -> post_truthy c = true.
Proof. by destruct c. Qed.

Lemma issues_apply_diff v1 entity_id list_entry_id rows desired :
  Forall (fun x => truthy x = true) desired ->
  issues post_truthy (apply_diff v1 entity_id list_entry_id rows desired).
Proof.
  intros Hall. unfold apply_diff.
  destruct (negb _ && negb _); [apply issues_ret|].
  apply issues_bind.
  - apply issues_for_each. intros row.
    unfold delete_field_value, expect_deleted. issues_auto.
  - intros _. apply issues_for_each_in. intros value Hvalue.
    apply filter_In in Hvalue as [Hvalue _].
    rewrite List.Forall_forall in Hall. apply Hall, wire_truthy in Hvalue.
    unfold create_field_value, expect_field_value.
    apply issues_bind; [|intros ?; apply issues_ret].
    apply issues_bind; [by apply issues_send|]. intros r. issues_auto.
Qed.

Lemma issues_update_field entity_id list_entry_id field_name field_value
    current_values overwrite list_id :
  issues post_truthy
    (update_field entity_id list_entry_id field_name field_value
       current_values overwrite list_id).
Proof.
  unfold update_field. apply issues_bind.
  { eapply issues_mono; [exact catalog_call_post_truthy|apply issues_get_field]. }
  intros [field v1_field].
  apply issues_bind; [apply issues_lift|]. intros _.
  apply issues_bind; [apply issues_lift|]. intros rows.
  destruct (nonempty rows && negb overwrite); [apply issues_ret|].
  destruct v1_field as [v1|]; [|apply issues_raise].
  destruct (negb _ && is_list _); [apply issues_raise|].
  apply issues_bind_lift. intros desired Hdesired.
  apply issues_apply_diff. by eapply normalize_truthy.
Qed.

Lemma issues_update_fields entity_id entity_type fields list_entry_id list_id
    overwrite :
  issues post_truthy
    (update_fields entity_id entity_type fields list_entry_id list_id overwrite).
Proof.
  unfold update_fields. apply issues_insert_entitlement_after; [done|].
  destruct (_ && _); [apply issues_raise|].
  destruct (_ && _); [apply issues_raise|].
  destruct (_ && _); [apply issues_raise|].
  apply issues_bind.
  - unfold fetch_field_values, expect_field_values. issues_auto.
  - intros rows. apply issues_for_each. intros [field_name field_value].
    apply issues_update_field.
Qed.

(** C10. [filter(None, ...)] drops every falsy entry of the desired list
    before the diff: what [normalize] returns is truthy throughout, so it
    holds no [None], [False], [0], [0.0] or [""], and it is the list of the
    truthy entries unless a datetime leads them (they are then formatted);
    a desired value whose entries are all falsy normalizes to the empty
    list, for which the diff removes every current row and adds nothing; and no call of
    [update_fields], whatever its arguments and the state of the writer,
    creates a field value that is falsy, in particular one equal to [0] or
    to the empty string. *)
Theorem falsy_entries_are_dropped :
  (forall field_value desired,
      normalize field_value = Ok desired ->
      forall x, In x desired ->
        truthy x = true /\ py_eq x VNone = false /\
        py_eq x (VBool false) = false /\ py_eq x (VInt 0) = false /\
        py_eq x (VStr "") = false) /\
  (forall field_value,
      first_is_datetime (List.filter truthy (as_list field_value)) = false ->
      normalize field_value = Ok (List.filter truthy (as_list field_value))) /\
  (forall field_value,
      Forall (fun x => truthy x = false) (as_list field_value) ->
      normalize field_value = Ok []) /\
  (forall rows, values_to_remove rows [] = rows /\ values_to_add rows [] = []) /\
  (forall entity_id entity_type fields list_entry_id list_id overwrite w,
      exists cs,
        calls (run (update_fields entity_id entity_type fields list_entry_id
                      list_id overwrite) w).2 = calls w ++ cs /\
        forall field_id entity value list_entry,
          In (PostFieldValue field_id entity value list_entry) cs ->
          truthy value = true /\ py_eq value (VInt 0) = false /\
          py_eq value (VStr "") = false).
Proof.
  split; [|split; [|split; [|split]]].
  - intros field_value desired Hnorm x Hx.
    apply normalize_truthy in Hnorm. rewrite List.Forall_forall in Hnorm.
    specialize (Hnorm x Hx). split; [done|].
    by apply truthy_not_zero_or_empty.
  - exact normalize_filter.
  - exact normalize_all_falsy.
  - intros rows. split; [|done]. unfold values_to_remove.
    induction rows as [|row rows IH]; simpl; [done|]. by f_equal.
  - intros entity_id entity_type fields list_entry_id list_id overwrite w.
    destruct (issues_update_fields entity_id entity_type fields list_entry_id
                list_id overwrite w) as [_ (cs & Hcs & Hall)].
    exists cs. split; [exact Hcs|].
    intros field_id entity value list_entry Hin.
    rewrite List.Forall_forall in Hall. specialize (Hall _ Hin). simpl in Hall.
    split; [done|]. by apply truthy_not_zero_or_empty.
Qed.

(** ** The cached fast path *)

Lemma issues_find_person_by_emails P emails :
  (forall term, P (GetPersons term) = true) ->
  issues P (find_person_by_emails emails).
Proof.
  intros HP. induction emails as [|email emails IH]; cbn [find_person_by_emails].
  - apply issues_ret.
  - apply issues_bind.
    + unfold find_person_by_email, expect_persons.
      apply issues_bind; [|intros ?; issues_auto].
      apply issues_bind; [by apply issues_send|]. intros r. issues_auto.
    + intros [p|]; [apply issues_ret|exact IH].
Qed.

Lemma issues_find_person_by_name P first_name last_name :
  (forall term, P (GetPersons term) = true) ->
  issues P (find_person_by_name first_name last_name).
Proof.
  intros HP. unfold find_person_by_name, expect_persons.
  apply issues_bind; [|intros ?; issues_auto].
  apply issues_bind; [by apply issues_send|]. intros r. issues_auto.
Qed.

Lemma issues_create_person P new_person :
  P (PostPerson new_person) = true -> issues P (create_person new_person).
Proof.
  intros HP. unfold create_person, expect_person.
  apply issues_try_except; [|apply issues_raise].
  apply issues_bind; [by apply issues_send|]. intros r. issues_auto.
Qed.

Lemma issues_pick_company P take_best_match valid_companies :
  issues P (pick_company take_best_match valid_companies).
Proof. unfold pick_company. issues_auto. Qed.

Lemma issues_find_company_by_domain P domain take_best_match :
  (forall term, P (GetOrganizations term) = true) ->
  issues P (find_company_by_domain domain take_best_match).
Proof.
  intros HP. unfold find_company_by_domain, expect_organizations.
  apply issues_bind; [|intros ?; apply issues_pick_company].
  apply issues_bind; [by apply issues_send|]. intros r. issues_auto.
Qed.

Lemma issues_find_company_by_name P name take_best_match :
  (forall term, P (GetOrganizations term) = true) ->
  issues P (find_company_by_name name take_best_match).
Proof.
  intros HP. unfold find_company_by_name, expect_organizations.
  apply issues_bind; [|intros ?; apply issues_pick_company].
  apply issues_bind; [by apply issues_send|]. intros r. issues_auto.
Qed.

Lemma issues_cached_lookup {A} P lookup_ids (find_by_id : Z -> M A)
    cached_field_name cached_filed_value :
  (forall name values, issues P (lookup_ids name values)) ->
  (forall id, issues P (find_by_id id)) ->
  issues P (cached_lookup lookup_ids find_by_id cached_field_name
              cached_filed_value).
Proof.
  intros Hl Hf. unfold cached_lookup.
  destruct cached_field_name as [name|]; [|apply issues_ret].
  destruct (negb _); [|apply issues_ret].
  apply issues_bind; [apply Hl|]. intros [|id [|]]; try apply issues_ret.
  apply issues_try_except; [|apply issues_ret].
  apply issues_bind; [apply Hf|]. intros ?. apply issues_ret.
Qed.

(** Without a truthy field name the fast path is skipped without a call. *)
Lemma cached_lookup_skipped {A} lookup_ids (find_by_id : Z -> M A)
    cached_field_name cached_filed_value :
  str_truthy cached_field_name = false ->
  cached_lookup lookup_ids find_by_id cached_field_name cached_filed_value
  = mret None.
Proof.
  unfold cached_lookup, str_truthy. destruct cached_field_name; [|done].
  by intros ->.
Qed.

(** The calls of [find_or_create_person]: a request of the fast path only
    when [both] arguments are truthy. *)
Lemma issues_find_or_create_person first_name last_name emails
    organization_ids cached_field_name cached_filed_value :
  issues
    (fun c => negb (is_cache_call c)
              || (str_truthy cached_field_name && truthy cached_filed_value))
    (find_or_create_person first_name last_name emails organization_ids
       cached_field_name cached_filed_value).
Proof.
  unfold find_or_create_person, cache_args_mismatch.
  apply issues_insert_entitlement_after; [done|].
  destruct (str_truthy cached_field_name) eqn:Hname,
           (truthy cached_filed_value) eqn:Hvalue; simpl;
    try apply issues_raise.
  - apply issues_bind.
    { apply issues_cached_lookup.
      - intros name values. unfold get_people_ids_by_field, expect_ids.
        issues_auto.
      - intros id. unfold find_person_by_id, expect_person. issues_auto. }
    intros [p|]; [apply issues_ret|].
    apply issues_bind; [by apply issues_find_person_by_emails|].
    intros [p|]; [apply issues_ret|].
    apply issues_bind; [by apply issues_find_person_by_name|].
    intros [p|]; [apply issues_ret|].
    apply issues_bind; [apply issues_lift|]. intros new_person.
    by apply issues_create_person.
  - rewrite cached_lookup_skipped by done.
    apply issues_bind; [apply issues_ret|].
    intros [p|]; [apply issues_ret|].
    apply issues_bind; [by apply issues_find_person_by_emails|].
    intros [p|]; [apply issues_ret|].
    apply issues_bind; [by apply issues_find_person_by_name|].
    intros [p|]; [apply issues_ret|].
    apply issues_bind; [apply issues_lift|]. intros new_person.
    by apply issues_create_person.
Qed.

Lemma issues_find_or_create_company name domain take_best_match
    cached_field_name cached_filed_value :
  issues
    (fun c => negb (is_cache_call c)
              || (str_truthy cached_field_name && truthy cached_filed_value))
    (find_or_create_company name domain take_best_match cached_field_name
       cached_filed_value).
Proof.
  unfold find_or_create_company, cache_args_mismatch.
  apply issues_insert_entitlement_after; [done|].
  destruct (str_truthy cached_field_name) eqn:Hname,
           (truthy cached_filed_value) eqn:Hvalue; simpl;
    try apply issues_raise.
  - apply issues_bind.
    { apply issues_cached_lookup.
      - intros field values. unfold get_company_ids_by_field, expect_ids.
        issues_auto.
      - intros id. unfold find_company_by_id, expect_company. issues_auto. }
    intros [c|]; [apply issues_ret|].
    apply issues_bind.
    { destruct (str_truthy domain); [|apply issues_ret].
      by apply issues_find_company_by_domain. }
    intros [c|]; [apply issues_ret|].
    apply issues_bind; [by apply issues_find_company_by_name|].
    intros [c|]; [apply issues_ret|].
    unfold create_company, expect_company. issues_auto.
  - rewrite cached_lookup_skipped by done.
    apply issues_bind; [apply issues_ret|].
    intros [c|]; [apply issues_ret|].
    apply issues_bind.
    { destruct (str_truthy domain); [|apply issues_ret].
      by apply issues_find_company_by_domain. }
    intros [c|]; [apply issues_ret|].
    apply issues_bind; [by apply issues_find_company_by_name|].
    intros [c|]; [apply issues_ret|].
    unfold create_company, expect_company. issues_auto.
Qed.

Lemma cache_call_needs_both (b : bool) w w' :
  extends (fun c => negb (is_cache_call c) || b) w w' ->
  exists cs, calls w' = calls w ++ cs /\
             forall c, In c cs -> is_cache_call c = true -> b = true.
Proof.
  intros [_ (cs & Hcs & Hall)]. exists cs. split; [done|].
  intros c Hc Hcache. rewrite List.Forall_forall in Hall.
  specialize (Hall c Hc). simpl in Hall. by rewrite Hcache in Hall.
Qed.

(** C9. When exactly one of [cached_field_name] and [cached_filed_value] is
    truthy, [find_or_create_person] and [find_or_create_company] raise
    [ValueError] and leave the writer as it was: no request has gone to the
    remote service or to the store (the entitlement is not stored either,
    since the decorated method did not return). In every run, a request of
    the cached fast path (a store lookup by field, a fetch by id) is made
    only when both arguments are truthy. *)
Theorem cached_lookup_needs_both_arguments :
  (forall first_name last_name emails organization_ids cached_field_name
          cached_filed_value w,
      xorb (str_truthy cached_field_name) (truthy cached_filed_value) = true ->
      run (find_or_create_person first_name last_name emails organization_ids
             cached_field_name cached_filed_value) w
      = (Raise (ValueError CachedLookupNeedsBoth), w)) /\
  (forall name domain take_best_match cached_field_name cached_filed_value w,
      xorb (str_truthy cached_field_name) (truthy cached_filed_value) = true ->
      run (find_or_create_company name domain take_best_match
             cached_field_name cached_filed_value) w
      = (Raise (ValueError CachedLookupNeedsBoth), w)) /\
  (forall first_name last_name emails organization_ids cached_field_name
          cached_filed_value w,
      exists cs,
        calls (run (find_or_create_person first_name last_name emails
                      organization_ids cached_field_name cached_filed_value)
                 w).2 = calls w ++ cs /\
        forall c, In c cs -> is_cache_call c = true ->
          str_truthy cached_field_name = true /\
          truthy cached_filed_value = true) /\
  (forall name domain take_best_match cached_field_name cached_filed_value w,
      exists cs,
        calls (run (find_or_create_company name domain take_best_match
                      cached_field_name cached_filed_value) w).2
        = calls w ++ cs /\
        forall c, In c cs -> is_cache_call c = true ->
          str_truthy cached_field_name = true /\
          truthy cached_filed_value = true).
Proof.
  split; [|split; [|split]].
  - intros first_name last_name emails organization_ids cached_field_name
      cached_filed_value w Hxor.
    unfold find_or_create_person, insert_entitlement_after, cache_args_mismatch.
    rewrite run_bind.
    by destruct (str_truthy cached_field_name), (truthy cached_filed_value).
  - intros name domain take_best_match cached_field_name cached_filed_value w
      Hxor.
    unfold find_or_create_company, insert_entitlement_after, cache_args_mismatch.
    rewrite run_bind.
    by destruct (str_truthy cached_field_name), (truthy cached_filed_value).
  - intros first_name last_name emails organization_ids cached_field_name
      cached_filed_value w.
    destruct (cache_call_needs_both _ _ _
                (issues_find_or_create_person first_name last_name emails
                   organization_ids cached_field_name cached_filed_value w))
      as (cs & Hcs & Hboth).
    exists cs. split; [done|]. intros c Hc Hcache.
    by apply andb_prop, (Hboth c).
  - intros name domain take_best_match cached_field_name cached_filed_value w.
    destruct (cache_call_needs_both _ _ _
                (issues_find_or_create_company name domain take_best_match
                   cached_field_name cached_filed_value w))
      as (cs & Hcs & Hboth).
    exists cs. split; [done|]. intros c Hc Hcache.
    by apply andb_prop, (Hboth c).
Qed.

(** ** The company search by domain *)

Lemma company_has_domain_spec domain c :
  company_has_domain domain c = true <-> domain_matches domain c.
Proof.
  unfold company_has_domain, domain_matches. rewrite existsb_exists.
  split; intros (d & Hd & Heq); exists d; split; try done.
  - by apply String.eqb_eq.
  - by apply String.eqb_eq.
Qed.

(** The head of a filtered list is the first element of the list that
    passes the test. *)
Lemma filter_head_first {A} (f : A -> bool) (l : list A) x rest :
  List.filter f l = x :: rest ->
  exists before after,
    l = before ++ x :: after /\ (forall y, In y before -> f y = false) /\
    f x = true.
Proof.
  induction l as [|a l IH]; simpl; [discriminate|].
  destruct (f a) eqn:Hfa.
  - intros [= -> _]. exists [], l. repeat split; [|done]. intros y [].
  - intros H. destruct (IH H) as (before & after & -> & Hbefore & Hx).
    exists (a :: before), after. repeat split; [|done].
    intros y [<- | Hy]; [done|by apply Hbefore].
Qed.

Lemma run_find_company_by_domain w domain organizations take_best_match :
  remote w (calls w) (GetOrganizations domain)
  = Ok (ROrganizations organizations) ->
  run (find_company_by_domain domain take_best_match) w
  = run (pick_company take_best_match
           (List.filter (company_has_domain domain) organizations))
      (add_call w (GetOrganizations domain)).
Proof.
  intros Hreply. unfold find_company_by_domain.
  by rewrite !run_bind, run_send, Hreply.
Qed.

(** C8. On the companies the remote returns for a domain: those kept are
    exactly the ones with a domain equal to the query once lower-cased; with
    two or more of them the search raises [MultipleResults] when
    [take_best_match] is false and returns the first of them in the order of
    the response when it is true; with exactly one it returns that one,
    whatever the flag. *)
Theorem find_company_by_domain_ambiguity w domain organizations
    take_best_match :
  remote w (calls w) (GetOrganizations domain)
  = Ok (ROrganizations organizations) ->
  let valid := List.filter (company_has_domain domain) organizations in
  let result := (run (find_company_by_domain domain take_best_match) w).1 in
  (forall c, In c valid <-> In c organizations /\ domain_matches domain c) /\
  ((2 <= length valid)%nat -> take_best_match = false ->
   result = Raise MultipleResults) /\
  ((2 <= length valid)%nat -> take_best_match = true ->
   exists before c after,
     organizations = before ++ c :: after /\
     (forall x, In x before -> ~ domain_matches domain x) /\
     domain_matches domain c /\ result = Ok (Some c)) /\
  (forall c, valid = [c] -> result = Ok (Some c)).
Proof.
  intros Hreply valid result.
  assert (result = (run (pick_company take_best_match valid)
                      (add_call w (GetOrganizations domain))).1) as ->.
  { subst result valid. by rewrite (run_find_company_by_domain _ _ _ _ Hreply). }
  split; [|split; [|split]].
  - intros c. unfold valid. rewrite filter_In.
    by rewrite company_has_domain_spec.
  - intros Hlen ->. unfold pick_company.
    destruct valid as [|c1 [|c2 rest]]; simpl in *; [lia|lia|done].
  - intros Hlen ->. unfold pick_company.
    destruct valid as [|c1 [|c2 rest]] eqn:Hvalid; simpl in Hlen; [lia|lia|].
    destruct (filter_head_first _ _ _ _ Hvalid)
      as (before & after & Horg & Hbefore & Hc1).
    exists before, c1, after. repeat split; [done| |by apply company_has_domain_spec].
    intros x Hx Hmatch. apply company_has_domain_spec in Hmatch.
    by rewrite (Hbefore x Hx) in Hmatch.
  - intros c ->. unfold pick_company. by destruct take_best_match.
Qed.

(** * Where the code departs from its description *)

Import Scenario.

(** ** The person search by name *)

(** With exactly one person of the queried name in the response, the search
    returns the head of the response, whoever that is. *)
Lemma find_person_by_name_single w first_name last_name persons p :
  remote w (calls w) (GetPersons (first_name ++ " " ++ last_name))
  = Ok (RPersons persons) ->
  List.filter (person_named first_name last_name) persons = [p] ->
  (run (find_person_by_name first_name last_name) w).1
  = match persons with
    | first :: _ => Ok (Some first)
    | [] => Raise IndexError
    end.
Proof.
  intros Hreply Hvalid. unfold find_person_by_name, expect_persons.
  rewrite !run_bind, run_send, Hreply. cbn beta iota. rewrite run_ret.
  cbn beta iota zeta. rewrite Hvalid. by destruct persons.
Qed.

(** With several it raises, and with none it returns [None]. *)
Lemma find_person_by_name_other w first_name last_name persons :
  remote w (calls w) (GetPersons (first_name ++ " " ++ last_name))
  = Ok (RPersons persons) ->
  let valid := List.filter (person_named first_name last_name) persons in
  ((2 <= length valid)%nat ->
   (run (find_person_by_name first_name last_name) w).1 = Raise MultipleResults)
  /\ (valid = [] ->
      (run (find_person_by_name first_name last_name) w).1 = Ok None).
Proof.
  intros Hreply valid. unfold find_person_by_name, expect_persons.
  rewrite !run_bind, run_send, Hreply. cbn beta iota. rewrite run_ret.
  cbn beta iota zeta. fold valid. split.
  - intros Hlen. destruct valid as [|p1 [|p2 rest]]; simpl in *; [lia|lia|done].
  - by intros ->.
Qed.

(** C3, on a response that ranks Bob Jones before Alice Smith. Alice is the
    only person named as queried, and the search returns Bob
    ([response.persons[0]] where [valid_persons[0]] is meant), so
    [find_or_create_person] reuses Bob too. *)
Theorem find_person_by_name_returns_head_of_response :
  List.filter (person_named "alice" "SMITH") [bob; alice] = [alice]
  /\ person_named "alice" "SMITH" bob = false
  /\ (run (find_person_by_name "alice" "SMITH") w0).1 = Ok (Some bob)
  /\ (run (find_or_create_person "alice" "SMITH" [] None None VNone) w0).1
     = Ok bob.
Proof. repeat split; vm_compute; reflexivity. Qed.

(** ** Qualifiers of a list entry *)

(** Once [current_field_values] holds bare values, which is the case from
    the second qualifier on, the comprehension fails on the first of them. *)
Lemma check_qualifiers_on_bare_values list_id field_name desired rest v vs w
    field v1_field w1 :
  run (get_field field_name (Some list_id)) w = (Ok (field, v1_field), w1) ->
  run (check_qualifiers list_id ((field_name, desired) :: rest)
         (List.map ORaw (v :: vs))) w
  = (Raise AttributeError, w1).
Proof.
  intros Hget. cbn [check_qualifiers]. by rewrite run_bind, Hget.
Qed.

(** C4, on list 7, where entity 5 has the entries 70 (stage "Lead", owner
    31) and 71 (stage "Won", owner 31). One qualifier works as described:
    the stage picks entry 70, the owner is ambiguous. With both qualifiers,
    in either order, the call raises [AttributeError] at the second one
    instead of returning entry 70. *)
Theorem find_or_create_list_entry_two_qualifiers :
  (run (find_or_create_list_entry 5 company 7
          (Some [("stage", VStr "Lead")])) w0).1 = Ok entry_70
  /\ (run (find_or_create_list_entry 5 company 7
             (Some [("owner", VInt 31)])) w0).1
     = Raise (ValueError MultipleEntriesFound)
  /\ (run (find_or_create_list_entry 5 company 7
             (Some [("stage", VStr "Lead"); ("owner", VInt 31)])) w0).1
     = Raise AttributeError
  /\ (run (find_or_create_list_entry 5 company 7
             (Some [("owner", VInt 31); ("stage", VStr "Lead")])) w0).1
     = Raise AttributeError.
Proof. repeat split; vm_compute; reflexivity. Qed.

(** ** Identifiers without a dash *)

Lemma split_without_separator sep s :
  Str.contains sep s = false -> Str.split sep s = [s].
Proof.
  induction s as [|c s IH]; simpl; [done|].
  destruct (Ascii.eqb c sep); [done|]. simpl. intros H. by rewrite (IH H).
Qed.

Lemma second_segment_int_dash_free affinity_id :
  Str.contains "-" affinity_id = false ->
  second_segment_int affinity_id = Raise IndexError.
Proof.
  intros H. unfold second_segment_int. by rewrite (split_without_separator _ _ H).
Qed.

(** The global catalog stops on such an identifier ... *)
Lemma fields_step_dash_free by_id out field w :
  type_is_global_or_list field = true ->
  Str.contains "-" (FieldMetadata.affinity_id field) = false ->
  run (fields_step by_id out field) w = (Raise IndexError, w).
Proof.
  intros Htype Hdash. unfold fields_step. rewrite Htype. cbn [negb].
  by rewrite run_bind, run_lift, (second_segment_int_dash_free _ Hdash).
Qed.

(** ... and the catalog of a list takes the identifier as the legacy key,
    under which no legacy field is stored. *)
Lemma list_fields_step_dash_free by_id out field w :
  type_is_global_or_list field = true ->
  is_reserved field = false ->
  Str.contains "-" (FieldMetadata.affinity_id field) = false ->
  run (list_fields_step by_id out field) w
  = (Ok (<[Str.upper (FieldMetadata.name field) := (field, None)]> out), w).
Proof.
  intros Htype Hreserved Hdash. unfold list_fields_step, list_field_key.
  by rewrite Htype, Hreserved, Hdash.
Qed.

(** With a dash both read the second segment. *)
Lemma list_field_key_dash affinity_id :
  Str.contains "-" affinity_id = true ->
  list_field_key affinity_id
  = match second_segment_int affinity_id with
    | Ok n => Ok (KInt n)
    | Raise e => Raise e
    end.
Proof. intros H. unfold list_field_key. by rewrite H. Qed.

(** C5, on a remote whose people fields hold a global field with the
    dash-free identifier "1234": building the global catalog raises
    [IndexError], so every field resolution does, although the catalog of a
    list accepts the same field. *)
Theorem global_catalog_fails_on_dash_free_identifier :
  Str.contains "-" (FieldMetadata.affinity_id m_legacy) = false
  /\ (run fields (new_writer service_dash_free)).1 = Raise IndexError
  /\ (run (get_field "tags" None) (new_writer service_dash_free)).1
     = Raise IndexError
  /\ (run (get_list_fields 8) (new_writer service_dash_free)).1
     = Ok {[ "LEGACY" := (m_legacy, None) ]}.
Proof. repeat split; vm_compute; reflexivity. Qed.

(** ** The opportunity search *)

(** The search keeps the opportunities of the list and never reads a name:
    a single opportunity of the list is returned for any query. *)
Lemma find_opportunity_by_name_single w list_id name o :
  remote w (calls w) (GetOpportunities name) = Ok (ROpportunities [o]) ->
  Opportunity.list_id o = Ok list_id ->
  (run (find_opportunity_by_name list_id name) w).1 = Ok (Some o).
Proof.
  intros Hreply Hlist. unfold find_opportunity_by_name, expect_opportunities.
  rewrite !run_bind, run_send, Hreply. cbn beta iota. rewrite run_ret.
  cbn beta iota. rewrite run_bind, run_lift. cbn [filter_o].
  unfold opportunity_in_list. rewrite Hlist. by rewrite Z.eqb_refl.
Qed.

(** C6, on a search for "Acme" in list 7 that returns the opportunity
    "Acme Series B" of that list: the names differ, and the opportunity is
    returned, so nothing is created. *)
Theorem find_opportunity_by_name_ignores_the_name :
  String.eqb (Str.upper (Opportunity.name acme_series_b)) (Str.upper "Acme")
  = false
  /\ (run (find_opportunity_by_name 7 "Acme") w0).1 = Ok (Some acme_series_b)
  /\ run (find_or_create_opportunity "Acme" 7 [21] []) w0
     = (Ok acme_series_b,
        add_calls w0 [GetOpportunities "Acme"; InsertCallEntitlement]).
Proof. repeat split; vm_compute; reflexivity. Qed.

(** ** A list for a field that disallows several values *)

(** C7, on "Labels", whose declared type is 'dropdown-multi' while its
    legacy field has [allows_multiple = False]. A list is supplied. Whatever
    the current rows and the overwrite flag, the update ends in the
    [TypeError] that [isinstance] raises on [list[str]] in the type check,
    ahead of the multiplicity check: the error is no [ValueError]. On the
    stage, a single dropdown, a list is refused with a [ValueError], that of
    the type check. *)
Theorem update_field_list_for_multi_valued_type_is_a_type_error :
  dict_get (FieldMetadata.value_type m_labels) FieldTypeMap = Some (TListOf TStr)
  /\ Field.allows_multiple f_labels = false
  /\ (run (get_field "labels" None) w0).1 = Ok (m_labels, Some f_labels)
  /\ (forall current_values overwrite,
        (run (update_field 5 None "labels" (VList [VStr "a"; VStr "b"])
                current_values overwrite None) w0).1 = Raise TypeError
        /\ is_value_error
             (run (update_field 5 None "labels" (VList [VStr "a"; VStr "b"])
                     current_values overwrite None) w0).1 = false)
  /\ (run (update_field 5 (Some 70) "stage" (VList [VStr "Won"; VStr "Lost"])
             [row_lead] true (Some 7)) w0).1
     = Raise (ValueError FieldValueTypeMismatch).
Proof.
  split; [reflexivity|]. split; [reflexivity|].
  split; [vm_compute; reflexivity|].
  split; [|vm_compute; reflexivity].
  intros current_values overwrite.
  assert ((run (update_field 5 None "labels" (VList [VStr "a"; VStr "b"])
                  current_values overwrite None) w0).1 = Raise TypeError)
    as ->; [|done].
  unfold update_field. rewrite run_bind.
  assert (run (get_field "labels" None) w0
          = (Ok (m_labels, Some f_labels), (run (get_field "labels" None) w0).2))
    as -> by (vm_compute; reflexivity).
  cbn beta iota. by rewrite run_bind, run_lift.
Qed.

(** * Further properties of the client *)

Lemma add_call_twice w c1 c2 :
  add_call (add_call w c1) c2 = add_calls w [c1; c2].
Proof. unfold add_call, add_calls. simpl. by rewrite <- app_assoc. Qed.

Lemma add_call_thrice w c1 c2 c3 :
  add_call (add_call (add_call w c1) c2) c3 = add_calls w [c1; c2; c3].
Proof. unfold add_call, add_calls. simpl. by rewrite <- !app_assoc. Qed.

(** ** The search by emails *)

Lemma run_find_person_by_email w email persons :
  remote w (calls w) (GetPersons email) = Ok (RPersons persons) ->
  run (find_person_by_email email) w
  = (Ok (head persons), add_call w (GetPersons email)).
Proof.
  intros Hreply. unfold find_person_by_email, expect_persons.
  rewrite !run_bind, run_send, Hreply. cbn beta iota. rewrite run_ret.
  by destruct persons.
Qed.

Lemma find_person_by_emails_none emails (reply : string -> list Person.t) :
  forall w,
    (forall history email,
        In email emails ->
        remote w history (GetPersons email) = Ok (RPersons (reply email))) ->
    (forall email, In email emails -> reply email = []) ->
    run (find_person_by_emails emails) w
    = (Ok None, add_calls w (List.map GetPersons emails)).
Proof.
  induction emails as [|email emails IH]; intros w Hreply Hnone.
  - simpl. by rewrite add_calls_nil.
  - cbn [find_person_by_emails]. rewrite run_bind.
    rewrite (run_find_person_by_email w email (reply email))
      by (apply Hreply; by left).
    rewrite (Hnone email) by (by left). cbn [head].
    rewrite IH.
    + simpl. by rewrite add_calls_cons.
    + intros history e He. apply (Hreply history e). by right.
    + intros e He. apply Hnone. by right.
Qed.

Lemma find_person_by_emails_hit before (reply : string -> list Person.t) :
  forall w emails email after p others,
    (forall history e,
        In e emails ->
        remote w history (GetPersons e) = Ok (RPersons (reply e))) ->
    emails = before ++ email :: after ->
    (forall e, In e before -> reply e = []) ->
    reply email = p :: others ->
    run (find_person_by_emails emails) w
    = (Ok (Some p), add_calls w (List.map GetPersons (before ++ [email]))).
Proof.
  induction before as [|b before IH];
    intros w emails email after p others Hreply -> Hbefore Hhit.
  - cbn [app find_person_by_emails]. rewrite run_bind.
    rewrite (run_find_person_by_email w email (reply email))
      by (apply Hreply; by left).
    rewrite Hhit. simpl. by rewrite <- add_calls_cons, add_calls_nil.
  - cbn [app find_person_by_emails]. rewrite run_bind.
    rewrite (run_find_person_by_email w b (reply b))
      by (apply Hreply; by left).
    rewrite (Hbefore b) by (by left). cbn [head].
    rewrite (IH (add_call w (GetPersons b)) (before ++ email :: after)
               email after p others
               (fun history e He => Hreply history e (or_intror He)) eq_refl
               (fun e He => Hbefore e (or_intror He)) Hhit).
    simpl. by rewrite add_calls_cons.
Qed.

(** X1. When every search by email is answered with a list of persons, the
    emails are searched in order up to the first one whose answer is not
    empty, the head of that answer is returned and the later emails are not
    searched; when every answer is empty, every email has been searched and
    the result is [None]. *)
Theorem find_person_by_emails_first_hit w emails (reply : string -> list Person.t) :
  (forall history email,
      In email emails ->
      remote w history (GetPersons email) = Ok (RPersons (reply email))) ->
  ((forall email, In email emails -> reply email = []) ->
   run (find_person_by_emails emails) w
   = (Ok None, add_calls w (List.map GetPersons emails))) /\
  (forall before email after p others,
      emails = before ++ email :: after ->
      (forall e, In e before -> reply e = []) ->
      reply email = p :: others ->
      run (find_person_by_emails emails) w
      = (Ok (Some p), add_calls w (List.map GetPersons (before ++ [email])))).
Proof.
  intros Hreply. split.
  - by apply find_person_by_emails_none.
  - intros before email after p others. by apply find_person_by_emails_hit.
Qed.

(** ** Creating a person *)

(** X2. [create_person] sends one request. The person of the answer is
    returned; an HTTP status 422 becomes [AlreadyExists]; any other error
    is raised as it came. *)
Theorem create_person_outcomes :
  (forall w new_person,
      (run (create_person new_person) w).2 = add_call w (PostPerson new_person)) /\
  (forall w new_person p,
      remote w (calls w) (PostPerson new_person) = Ok (RPerson p) ->
      (run (create_person new_person) w).1 = Ok p) /\
  (forall w new_person,
      remote w (calls w) (PostPerson new_person) = Raise (HTTPError 422) ->
      (run (create_person new_person) w).1 = Raise AlreadyExists) /\
  (forall w new_person e,
      remote w (calls w) (PostPerson new_person) = Raise e ->
      e <> HTTPError 422 ->
      (run (create_person new_person) w).1 = Raise e).
Proof.
  repeat split.
  - intros w new_person. unfold create_person, try_except, expect_person.
    cbn [run]. rewrite run_bind, run_send.
    destruct (remote w (calls w) (PostPerson new_person)) as [[]|e]; try done.
    by destruct (is_http_422 e).
  - intros w new_person p Hreply. unfold create_person, try_except, expect_person.
    cbn [run]. by rewrite run_bind, run_send, Hreply.
  - intros w new_person Hreply. unfold create_person, try_except.
    cbn [run]. by rewrite run_bind, run_send, Hreply.
  - intros w new_person e Hreply Hne. unfold create_person, try_except.
    cbn [run]. rewrite run_bind, run_send, Hreply. cbn beta iota.
    destruct e as [| | | | |status| | | | |]; try done.
    simpl. destruct (Z.eqb_spec status 422) as [->|]; [done|done].
Qed.

(** ** The company searches *)

Lemma company_named_spec name c :
  company_named name c = true <-> name_matches name c.
Proof. unfold company_named, name_matches. apply String.eqb_eq. Qed.

Lemma run_find_company_by_name w name organizations take_best_match :
  remote w (calls w) (GetOrganizations name) = Ok (ROrganizations organizations) ->
  run (find_company_by_name name take_best_match) w
  = run (pick_company take_best_match
           (List.filter (company_named name) organizations))
      (add_call w (GetOrganizations name)).
Proof.
  intros Hreply. unfold find_company_by_name.
  by rewrite !run_bind, run_send, Hreply.
Qed.

Lemma run_pick_company take_best_match valid w :
  run (pick_company take_best_match valid) w
  = (match valid with
     | [] => Ok None
     | [c] => Ok (Some c)
     | c :: _ => if take_best_match then Ok (Some c) else Raise MultipleResults
     end, w).
Proof.
  unfold pick_company.
  destruct valid as [|c1 [|c2 rest]], take_best_match; reflexivity.
Qed.

(** X3. The search by name follows the rule of the search by domain: the
    companies kept are those whose name equals the query once upper-cased;
    none gives [None], one is returned, and several raise [MultipleResults]
    unless [take_best_match] asks for the first of them in the order of the
    response. One request is sent in every case. *)
Theorem find_company_by_name_ambiguity w name organizations take_best_match :
  remote w (calls w) (GetOrganizations name) = Ok (ROrganizations organizations) ->
  let valid := List.filter (company_named name) organizations in
  let result := run (find_company_by_name name take_best_match) w in
  (forall c, In c valid <-> In c organizations /\ name_matches name c) /\
  result.2 = add_call w (GetOrganizations name) /\
  (valid = [] -> result.1 = Ok None) /\
  (forall c, valid = [c] -> result.1 = Ok (Some c)) /\
  ((2 <= length valid)%nat -> take_best_match = false ->
   result.1 = Raise MultipleResults) /\
  ((2 <= length valid)%nat -> take_best_match = true ->
   exists before c after,
     organizations = before ++ c :: after /\
     (forall x, In x before -> ~ name_matches name x) /\
     name_matches name c /\ result.1 = Ok (Some c)).
Proof.
  intros Hreply valid result.
  assert (result = run (pick_company take_best_match valid)
                     (add_call w (GetOrganizations name))) as ->.
  { subst result valid. by apply run_find_company_by_name. }
  rewrite run_pick_company. cbn [fst snd].
  split; [|split; [|split; [|split; [|split]]]].
  - intros c. unfold valid. by rewrite filter_In, company_named_spec.
  - done.
  - by intros ->.
  - by intros c ->.
  - intros Hlen ->. destruct valid as [|c1 [|c2 rest]]; simpl in *; [lia|lia|done].
  - intros Hlen ->.
    destruct valid as [|c1 [|c2 rest]] eqn:Hvalid; simpl in Hlen; [lia|lia|].
    destruct (filter_head_first _ _ _ _ Hvalid)
      as (before & after & Horg & Hbefore & Hc1).
    exists before, c1, after.
    repeat split; [done| |by apply company_named_spec].
    intros x Hx Hmatch. apply company_named_spec in Hmatch.
    by rewrite (Hbefore x Hx) in Hmatch.
Qed.

(** X4. [find_company_by_domains] never takes a best match. With searches
    answered by lists of companies: the domains are searched in order; as
    long as a domain matches no company the next one is tried; the first
    domain that matches exactly one company returns it; the first domain
    that matches several raises [MultipleResults], whatever the later
    domains would give; and [None] is returned when no domain matches. *)
Theorem find_company_by_domains_first_match w domains
    (reply : string -> list Company.t) :
  (forall history domain,
      In domain domains ->
      remote w history (GetOrganizations domain)
      = Ok (ROrganizations (reply domain))) ->
  let valid domain := List.filter (company_has_domain domain) (reply domain) in
  ((forall domain, In domain domains -> valid domain = []) ->
   run (find_company_by_domains domains) w
   = (Ok None, add_calls w (List.map GetOrganizations domains))) /\
  (forall before domain after,
      domains = before ++ domain :: after ->
      (forall d, In d before -> valid d = []) ->
      (forall c, valid domain = [c] ->
         run (find_company_by_domains domains) w
         = (Ok (Some c),
            add_calls w (List.map GetOrganizations (before ++ [domain])))) /\
      ((2 <= length (valid domain))%nat ->
         run (find_company_by_domains domains) w
         = (Raise MultipleResults,
            add_calls w (List.map GetOrganizations (before ++ [domain]))))).
Proof.
  intros Hreply valid.
  assert (forall w' domain,
             remote w' = remote w -> In domain domains ->
             run (find_company_by_domain domain false) w'
             = (match valid domain with
                | [] => Ok None
                | [c] => Ok (Some c)
                | _ => Raise MultipleResults
                end, add_call w' (GetOrganizations domain))) as Hstep.
  { intros w' domain Hremote Hin.
    rewrite (run_find_company_by_domain w' domain (reply domain) false)
      by (rewrite Hremote; by apply Hreply).
    rewrite run_pick_company. fold (valid domain).
    by destruct (valid domain) as [|c1 [|c2 rest]]. }
  clear Hreply. split.
  - intros Hnone.
    assert (forall w', remote w' = remote w ->
              run (find_company_by_domains domains) w'
              = (Ok None, add_calls w' (List.map GetOrganizations domains)))
      as Hall; [|by apply Hall].
    induction domains as [|domain domains IH]; intros w' Hremote.
    + simpl. by rewrite add_calls_nil.
    + cbn [find_company_by_domains]. rewrite run_bind.
      rewrite Hstep by (done || by left). rewrite (Hnone domain) by (by left).
      rewrite IH.
      * simpl. by rewrite add_calls_cons.
      * intros w'' d Hr Hd. apply Hstep; [done|by right].
      * intros d Hd. apply Hnone. by right.
      * done.
  - intros before.
    assert (forall w', remote w' = remote w ->
              forall domain after,
                domains = before ++ domain :: after ->
                (forall d, In d before -> valid d = []) ->
                (forall c, valid domain = [c] ->
                   run (find_company_by_domains domains) w'
                   = (Ok (Some c),
                      add_calls w' (List.map GetOrganizations (before ++ [domain])))) /\
                ((2 <= length (valid domain))%nat ->
                   run (find_company_by_domains domains) w'
                   = (Raise MultipleResults,
                      add_calls w' (List.map GetOrganizations (before ++ [domain])))))
      as Hall; [|by apply Hall].
    revert domains Hstep.
    induction before as [|b before IH];
      intros domains Hstep w' Hremote domain after -> Hbefore.
    + cbn [app find_company_by_domains]. rewrite run_bind.
      rewrite Hstep by (done || by left). split.
      * intros c ->. simpl. by rewrite <- add_calls_cons, add_calls_nil.
      * intros Hlen. destruct (valid domain) as [|c1 [|c2 rest]];
          simpl in Hlen; [lia|lia|].
        simpl. by rewrite <- add_calls_cons, add_calls_nil.
    + cbn [app find_company_by_domains]. rewrite run_bind.
      rewrite Hstep by (done || by left). rewrite (Hbefore b) by (by left).
      cbn beta iota.
      destruct (IH (before ++ domain :: after)
                  (fun w'' d Hr Hd => Hstep w'' d Hr (or_intror Hd))
                  (add_call w' (GetOrganizations b)) Hremote domain after
                  eq_refl (fun d Hd => Hbefore d (or_intror Hd)))
        as [Hone Hmany].
      split.
      * intros c Hc. rewrite (Hone c Hc). simpl. by rewrite add_calls_cons.
      * intros Hlen. rewrite (Hmany Hlen). simpl. by rewrite add_calls_cons.
Qed.

(** ** The request for field values *)

(** X5. [fetch_field_values] sends one request that carries exactly one of
    its four selectors: the list entry when [list_entry_id] is truthy, and
    otherwise (also for a list entry id of 0) the entity under the
    parameter of its type. *)
Theorem fetch_field_values_one_selector entity_id entity_type list_entry_id w :
  exists person_id organization_id opportunity_id list_entry,
    (run (fetch_field_values entity_id entity_type list_entry_id) w).2
    = add_call w (GetFieldValues person_id organization_id opportunity_id
                    list_entry) /\
    length (List.filter is_some
              [person_id; organization_id; opportunity_id; list_entry]) = 1%nat /\
    (forall l, list_entry_id = Some l -> l <> 0 ->
       list_entry = Some l) /\
    (list_entry_id = None \/ list_entry_id = Some 0 ->
       list_entry = None /\
       match entity_type with
       | person => person_id = Some entity_id
       | company => organization_id = Some entity_id
       | opportunity => opportunity_id = Some entity_id
       end).
Proof.
  unfold fetch_field_values. rewrite run_bind, run_send.
  eexists _, _, _, _. split.
  { destruct (remote w _ _) as [[]|]; reflexivity. }
  destruct list_entry_id as [l|]; cbn [id_truthy].
  - destruct (Z.eqb_spec l 0) as [->|Hl]; cbn [negb].
    + rewrite !andb_true_r.
      split; [by destruct entity_type|]. split; [by intros ? [= <-] ?|].
      intros _. split; [done|]. by destruct entity_type.
    + rewrite !andb_false_r. split; [done|]. split.
      * by intros ? [= ->].
      * intros [[=]|[= ->]]. done.
  - rewrite !andb_true_r.
    split; [by destruct entity_type|]. split; [done|].
    intros _. split; [done|]. by destruct entity_type.
Qed.

(** ** The opportunity search *)

Lemma filter_o_first_entry list_id opportunities :
  Forall (fun o => Opportunity.list_entries o <> []) opportunities ->
  filter_o (opportunity_in_list list_id) opportunities
  = Ok (List.filter (first_entry_in_list list_id) opportunities).
Proof.
  induction 1 as [|o l Ho _ IH]; simpl; [done|].
  unfold opportunity_in_list at 1, Opportunity.list_id, first_entry_in_list at 1.
  destruct (Opportunity.list_entries o) as [|e es]; [done|].
  by rewrite IH.
Qed.

Lemma filter_o_no_entries list_id opportunities :
  Exists (fun o => Opportunity.list_entries o = []) opportunities ->
  filter_o (opportunity_in_list list_id) opportunities = Raise IndexError.
Proof.
  induction opportunities as [|o l IH]; intros Hex; [by inversion Hex|].
  simpl. unfold opportunity_in_list at 1, Opportunity.list_id.
  destruct (Opportunity.list_entries o) as [|e es] eqn:Ho; [done|].
  rewrite IH; [done|]. inversion Hex as [? ? Hhere|]; [congruence|done].
Qed.

(** X6. An opportunity is read as belonging to the list of its first list
    entry, and an opportunity without list entries cannot be read: when the
    answer to the search holds one, anywhere and whatever its name,
    [find_opportunity_by_name] raises [IndexError]. *)
Theorem find_opportunity_by_name_needs_list_entries w list_id name opportunities :
  remote w (calls w) (GetOpportunities name) = Ok (ROpportunities opportunities) ->
  Exists (fun o => Opportunity.list_entries o = []) opportunities ->
  run (find_opportunity_by_name list_id name) w
  = (Raise IndexError, add_call w (GetOpportunities name)).
Proof.
  intros Hreply Hex. unfold find_opportunity_by_name, expect_opportunities.
  rewrite !run_bind, run_send, Hreply. cbn beta iota. rewrite run_ret.
  cbn beta iota. rewrite run_bind, run_lift.
  by rewrite (filter_o_no_entries _ _ Hex).
Qed.

Lemma run_find_opportunity_by_name w list_id name opportunities :
  remote w (calls w) (GetOpportunities name) = Ok (ROpportunities opportunities) ->
  Forall (fun o => Opportunity.list_entries o <> []) opportunities ->
  run (find_opportunity_by_name list_id name) w
  = (match List.filter (first_entry_in_list list_id) opportunities with
     | [] => Ok None
     | [o] => Ok (Some o)
     | _ => Raise MultipleResults
     end, add_call w (GetOpportunities name)).
Proof.
  intros Hreply Hall. unfold find_opportunity_by_name, expect_opportunities.
  rewrite !run_bind, run_send, Hreply. cbn beta iota. rewrite run_ret.
  cbn beta iota. rewrite run_bind, run_lift.
  rewrite (filter_o_first_entry _ _ Hall). cbn beta iota.
  by destruct (List.filter _ opportunities) as [|o1 [|o2 rest]].
Qed.

(** X7. [find_or_create_opportunity], when the search is answered with
    opportunities that all have a list entry. If exactly one of them has
    its first list entry in [list_id] it is reused: no opportunity is
    created and the entitlement is stored. If several have, the call raises
    [MultipleResults] after the search alone. If none has, an opportunity
    is created with the given name and list, the company ids as its
    organization ids and the person ids, and the created opportunity is
    returned once the entitlement is stored. *)
Theorem find_or_create_opportunity_outcomes w name list_id company_ids
    person_ids opportunities :
  remote w (calls w) (GetOpportunities name) = Ok (ROpportunities opportunities) ->
  Forall (fun o => Opportunity.list_entries o <> []) opportunities ->
  let valid := List.filter (first_entry_in_list list_id) opportunities in
  let new_opportunity := NewOpportunity.mk name list_id person_ids company_ids in
  let result :=
    run (find_or_create_opportunity name list_id company_ids person_ids) w in
  (forall o, valid = [o] ->
     result.2 = add_calls w [GetOpportunities name; InsertCallEntitlement] /\
     (is_ok (remote w (calls w ++ [GetOpportunities name]) InsertCallEntitlement)
      = true -> result.1 = Ok o)) /\
  ((2 <= length valid)%nat ->
     result = (Raise MultipleResults, add_call w (GetOpportunities name))) /\
  (valid = [] ->
     forall created,
       remote w (calls w ++ [GetOpportunities name])
         (PostOpportunity new_opportunity) = Ok (ROpportunity created) ->
       result.2 = add_calls w [GetOpportunities name;
                               PostOpportunity new_opportunity;
                               InsertCallEntitlement] /\
       (is_ok (remote w (calls w ++ [GetOpportunities name;
                                     PostOpportunity new_opportunity])
                 InsertCallEntitlement) = true ->
        result.1 = Ok created)).
Proof.
  intros Hreply Hall valid new_opportunity result. subst result.
  unfold find_or_create_opportunity, insert_entitlement_after.
  rewrite !run_bind, (run_find_opportunity_by_name _ _ _ _ Hreply Hall).
  fold valid. split; [|split].
  - intros o ->. cbn beta iota. rewrite run_ret, run_bind, run_send.
    cbn [remote calls add_call]. split.
    + destruct (remote w _ InsertCallEntitlement); apply add_call_twice.
    + by destruct (remote w _ InsertCallEntitlement).
  - intros Hlen. by destruct valid as [|o1 [|o2 rest]]; simpl in Hlen; try lia.
  - intros -> created Hcreated. cbn beta iota.
    unfold create_opportunity, expect_opportunity.
    rewrite run_bind, run_send. cbn [remote calls add_call].
    fold new_opportunity. rewrite Hcreated. cbn beta iota.
    rewrite run_ret, run_bind, run_send. cbn [remote calls add_call].
    rewrite <- app_assoc. cbn [app]. split.
    + destruct (remote w _ InsertCallEntitlement);
        apply add_call_thrice.
    + by destruct (remote w _ InsertCallEntitlement).
Qed.

(** * Further properties of the field update *)

(** ** The type check *)

(** X8. [__check_field_value_type] accepts a value exactly when the declared
    type is known and single-valued, and the value is [None] or an instance
    of the class bound to it. An unknown type is a [ValueError]; a
    multi-valued type is a [TypeError] for every value, [None] and a
    well-formed list included. *)
Theorem check_field_value_type_accepts :
  (forall value value_type,
      check_field_value_type value value_type = Ok tt <->
      exists ty,
        dict_get value_type FieldTypeMap = Some ty /\ single_valued ty = true /\
        (value = VNone \/ isinstance value ty = Ok true)) /\
  (forall value value_type,
      dict_get value_type FieldTypeMap = None ->
      check_field_value_type value value_type
      = Raise (ValueError InvalidFieldValueType)) /\
  (forall value value_type elt,
      dict_get value_type FieldTypeMap = Some (TListOf elt) ->
      check_field_value_type value value_type = Raise TypeError).
Proof.
  split; [|split].
  - intros value value_type. unfold check_field_value_type. split.
    + destruct (dict_get value_type FieldTypeMap) as [ty|]; [|done].
      intros H. exists ty. split; [done|].
      destruct ty; simpl in *; try done;
        (split; [done|]); destruct value; simpl in *; auto; discriminate.
    + intros (ty & -> & Hsingle & Hvalue).
      destruct ty; try done; destruct Hvalue as [->|Hinst]; try done;
        destruct value; simpl in *; try done; discriminate.
  - intros value value_type H. unfold check_field_value_type. by rewrite H.
  - intros value value_type elt H. unfold check_field_value_type. by rewrite H.
Qed.

(** X9. No value can be written to a field whose declared type is
    multi-valued: once the field is resolved, [__update_field] raises
    [TypeError] for every value, the current rows and the overwrite flag
    being what they may, and nothing is sent. *)
Theorem update_field_multi_valued_type_raises w w1 entity_id list_entry_id
    field_name field_value current_values overwrite list_id field v1_field elt :
  run (get_field field_name list_id) w = (Ok (field, v1_field), w1) ->
  dict_get (FieldMetadata.value_type field) FieldTypeMap = Some (TListOf elt) ->
  run (update_field entity_id list_entry_id field_name field_value
         current_values overwrite list_id) w
  = (Raise TypeError, w1).
Proof.
  intros Hget Hty. unfold update_field.
  rewrite run_bind, Hget. cbn beta iota. rewrite run_bind, run_lift.
  unfold check_field_value_type. by rewrite Hty.
Qed.

(** X10. A versioned field without a legacy counterpart resolves, and an
    update of it that passes the type check raises [AttributeError] (not
    [FieldNotFoundError]), with or without current rows, before anything is
    sent. *)
Theorem update_field_without_legacy_field w w1 entity_id list_entry_id
    field_name field_value current_values overwrite list_id field :
  run (get_field field_name list_id) w = (Ok (field, None), w1) ->
  check_field_value_type field_value (FieldMetadata.value_type field) = Ok tt ->
  run (update_field entity_id list_entry_id field_name field_value
         current_values overwrite list_id) w
  = (Raise AttributeError, w1).
Proof.
  intros Hget Hcheck. unfold update_field.
  rewrite run_bind, Hget. cbn beta iota. rewrite run_bind, run_lift, Hcheck.
  cbn beta iota. rewrite run_bind, run_lift.
  by destruct current_values.
Qed.

(** ** [update_fields] *)

(** X11. The three argument checks of [update_fields] come before any
    request and in this order: an opportunity without a list entry id is
    [CannotDetermineCorrectEntityError], even when a list id is given; a
    list entry id without a list id, then a list id without a list entry
    id, are [ValueError]s. The writer is left untouched and no entitlement
    is stored. *)
Theorem update_fields_argument_checks entity_id entity_type fields overwrite w :
  (forall list_id,
      entity_type = opportunity ->
      run (update_fields entity_id entity_type fields None list_id overwrite) w
      = (Raise CannotDetermineCorrectEntityError, w)) /\
  (forall list_entry_id,
      run (update_fields entity_id entity_type fields (Some list_entry_id) None
             overwrite) w
      = (Raise (ValueError ListIdRequired), w)) /\
  (forall list_id,
      entity_type <> opportunity ->
      run (update_fields entity_id entity_type fields None (Some list_id)
             overwrite) w
      = (Raise (ValueError ListEntryIdRequired), w)).
Proof.
  split; [|split].
  - intros list_id ->. reflexivity.
  - intros list_entry_id. unfold update_fields, insert_entitlement_after.
    rewrite run_bind. cbn [is_some negb]. by rewrite andb_false_r.
  - intros list_id Htype. unfold update_fields, insert_entitlement_after.
    rewrite run_bind. cbn [is_some negb].
    by rewrite bool_decide_eq_false_2.
Qed.

Lemma run_for_each_app {A} (l1 l2 : list A) (body : A -> M unit) w :
  run (for_each (l1 ++ l2) body) w
  = match run (for_each l1 body) w with
    | (Ok _, w1) => run (for_each l2 body) w1
    | (Raise e, w1) => (Raise e, w1)
    end.
Proof.
  revert w. induction l1 as [|x l1 IH]; intros w; [done|].
  change (run (body x ≫= (fun _ => for_each (l1 ++ l2) body)) w
          = match run (body x ≫= (fun _ => for_each l1 body)) w with
            | (Ok _, w1) => run (for_each l2 body) w1
            | (Raise e, w1) => (Raise e, w1)
            end).
  rewrite !run_bind. destruct (run (body x) w) as [[[]|e] w']; [apply IH|done].
Qed.

(** X12. [update_fields] is not atomic. When the updates of the first
    fields of the dict have returned and the update of the next field
    raises, the call raises that exception: what the first updates changed
    stays changed, the later fields are not looked at, and no entitlement
    is stored. *)
Theorem update_fields_stops_at_first_error w entity_id entity_type
    list_entry_id list_id overwrite before field_name field_value after
    current_values w1 w2 e :
  (entity_type = opportunity -> is_some list_entry_id = true) ->
  is_some list_entry_id = is_some list_id ->
  let update '(name, value) :=
    update_field entity_id list_entry_id name value current_values overwrite
      list_id in
  run (fetch_field_values entity_id entity_type list_entry_id) w
  = (Ok current_values, w1) ->
  run (for_each before update) w1 = (Ok tt, w2) ->
  (run (update (field_name, field_value)) w2).1 = Raise e ->
  run (update_fields entity_id entity_type
         (before ++ (field_name, field_value) :: after)
         list_entry_id list_id overwrite) w
  = (Raise e, (run (update (field_name, field_value)) w2).2).
Proof.
  intros Hopp Hboth update Hfetch Hbefore Hraise.
  rewrite update_fields_runs_update_field by done.
  unfold insert_entitlement_after. rewrite !run_bind, Hfetch. cbn beta iota.
  fold update. rewrite run_for_each_app, Hbefore.
  change (for_each ((field_name, field_value) :: after) update)
    with (update (field_name, field_value) ≫= (fun _ => for_each after update)).
  rewrite run_bind.
  destruct (run (update (field_name, field_value)) w2) as [[[]|e'] w3];
    simpl in Hraise; [done|]. by injection Hraise as ->.
Qed.

(** ** List values *)

(** X27. A list is never written. Once the field is resolved,
    [__update_field] refuses every list value at the type check, with a
    [ValueError] for an unknown or single-valued declared type and a
    [TypeError] for a multi-valued one, and sends nothing. So the check of
    the legacy field's [allows_multiple] that follows is never the one that
    refuses a list, and the values that reach the diff are those of a single
    value. *)
Theorem update_field_list_value_is_refused w w1 entity_id list_entry_id
    field_name values current_values overwrite list_id field v1_field :
  run (get_field field_name list_id) w = (Ok (field, v1_field), w1) ->
  exists e,
    run (update_field entity_id list_entry_id field_name (VList values)
           current_values overwrite list_id) w
    = (Raise e, w1) /\
    (e = ValueError InvalidFieldValueType
     \/ e = ValueError FieldValueTypeMismatch
     \/ e = TypeError) /\
    (e = TypeError <->
     exists elt,
       dict_get (FieldMetadata.value_type field) FieldTypeMap
       = Some (TListOf elt)).
Proof.
  intros Hget. unfold update_field.
  rewrite run_bind, Hget. cbn beta iota. rewrite run_bind, run_lift.
  unfold check_field_value_type.
  destruct (dict_get (FieldMetadata.value_type field) FieldTypeMap) as [ty|].
  - destruct ty; cbn; eexists; (split; [reflexivity|]);
      (split; [auto|]); split; try discriminate;
      try (intros (elt & Helt); discriminate); eauto.
  - eexists. split; [reflexivity|]. split; [auto|].
    split; [discriminate|]. intros (elt & Helt). discriminate.
Qed.

(** * Further properties of the field catalog *)

Lemma run_bind_ok {A B} (m : M A) (f : A -> M B) w b w2 :
  run (m ≫= f) w = (Ok b, w2) ->
  exists a w1, run m w = (Ok a, w1) /\ run (f a) w1 = (Ok b, w2).
Proof.
  rewrite run_bind. destruct (run m w) as [[a|e] w1]; [|done].
  intros H. by exists a, w1.
Qed.

Lemma run_get_writer w : run get_writer w = (Ok w, w).
Proof. reflexivity. Qed.

Lemma run_fields_step by_id out field w :
  run (fields_step by_id out field) w = (fields_step_result by_id out field, w).
Proof.
  unfold fields_step_result, fields_step.
  destruct (negb (type_is_global_or_list field)); [done|].
  rewrite !run_bind, !run_lift.
  by destruct (second_segment_int _).
Qed.

Lemma run_list_fields_step by_id out field w :
  run (list_fields_step by_id out field) w
  = (list_fields_step_result by_id out field, w).
Proof.
  unfold list_fields_step_result, list_fields_step.
  destruct (negb (type_is_global_or_list field) || is_reserved field); [done|].
  rewrite !run_bind, !run_lift.
  by destruct (list_field_key _).
Qed.

Lemma run_fold_m_pure {A S} (body : S -> A -> M S) (step : S -> A -> Outcome S)
    acc l w :
  (forall s x w', run (body s x) w' = (step s x, w')) ->
  run (fold_m body acc l) w = (fold_o step acc l, w).
Proof.
  intros Hbody. revert acc. induction l as [|x l IH]; intros acc; [done|].
  change (run (body acc x ≫= (fun acc' => fold_m body acc' l)) w
          = (fold_o step acc (x :: l), w)).
  rewrite run_bind, Hbody. simpl. destruct (step acc x); [apply IH|done].
Qed.

(** ** The global catalog: the last field of a name is the one filed *)

Lemma fields_step_result_lookup by_id out field out' key :
  fields_step_result by_id out field = Ok out' ->
  out' !! key
  = if filed_under key field then global_entry by_id field else out !! key.
Proof.
  unfold fields_step_result, fields_step, filed_under, global_entry.
  destruct (type_is_global_or_list field); cbn [negb andb].
  - rewrite run_bind, run_lift.
    destruct (second_segment_int _) as [n|e]; [|done].
    cbn. intros [= <-].
    destruct (String.eqb_spec (Str.upper (FieldMetadata.name field)) key)
      as [->|Hne].
    + by rewrite lookup_insert_eq.
    + by rewrite lookup_insert_ne.
  - by intros [= <-].
Qed.

Lemma fold_fields_step_lookup by_id l acc cat key :
  fold_o (fields_step_result by_id) acc l = Ok cat ->
  cat !! key
  = match last (List.filter (filed_under key) l) with
    | Some field => global_entry by_id field
    | None => acc !! key
    end.
Proof.
  revert acc. induction l as [|field l IH]; intros acc; simpl.
  - by intros [= <-].
  - destruct (fields_step_result by_id acc field) as [acc'|e] eqn:Hstep; [|done].
    intros Hfold. rewrite (IH _ Hfold).
    rewrite (fields_step_result_lookup _ _ _ _ key Hstep).
    destruct (filed_under key field); [|done].
    rewrite last_cons. by destruct (last _).
Qed.

(** X13. The global catalog, when it is built (nothing cached yet) from the
    legacy fields [legacy], the people fields and the company fields of the
    remote: under each key it holds the last field, people fields first and
    company fields after them, that has the type 'global' or 'list' and
    that name once upper-cased, with the legacy field whose id is the number
    in the second segment of its identifier; a key no such field has is
    absent. So a company field replaces the people field of the same name,
    and names that differ by case share one key. *)
Theorem global_catalog_last_field_wins w wa w1 legacy people companies cat :
  fields_cache w = None ->
  run v1_fields w = (Ok legacy, wa) ->
  remote wa (calls wa) GetPeopleFields = Ok (RFieldMetadata people) ->
  remote wa (calls wa ++ [GetPeopleFields]) GetCompanyFields
  = Ok (RFieldMetadata companies) ->
  run fields w = (Ok cat, w1) ->
  forall key,
    cat !! key
    = match last (List.filter (filed_under key) (people ++ companies)) with
      | Some field => global_entry (fields_by_id legacy) field
      | None => None
      end.
Proof.
  intros Hcache Hlegacy Hpeople Hcompanies Hrun key.
  unfold fields in Hrun. rewrite run_bind, run_get_writer in Hrun.
  cbn beta iota in Hrun.
  rewrite Hcache in Hrun. rewrite run_bind, Hlegacy in Hrun.
  cbn beta iota in Hrun. unfold expect_field_metadata in Hrun.
  rewrite !run_bind, run_send, Hpeople in Hrun. cbn beta iota in Hrun.
  rewrite run_ret in Hrun. cbn beta iota in Hrun.
  rewrite !run_bind, run_send in Hrun. cbn [remote calls add_call] in Hrun.
  rewrite Hcompanies in Hrun. cbn beta iota in Hrun.
  rewrite run_ret in Hrun. cbn beta iota in Hrun.
  rewrite run_bind, (run_fold_m_pure _ (fields_step_result (fields_by_id legacy)))
    in Hrun by (intros; apply run_fields_step).
  destruct (fold_o _ ∅ (people ++ companies)) as [out|e] eqn:Hfold; [|done].
  cbn in Hrun. injection Hrun as <- _.
  rewrite (fold_fields_step_lookup _ _ _ _ key Hfold).
  by rewrite lookup_empty.
Qed.

(** ** The caches *)

Lemma run_send_expect_metadata c w l w1 :
  run (send c ≫= expect_field_metadata) w = (Ok l, w1) -> w1 = add_call w c.
Proof.
  rewrite run_bind, run_send.
  destruct (remote w (calls w) c) as [[]|]; cbn; congruence.
Qed.

Lemma v1_fields_cached w l w1 :
  run v1_fields w = (Ok l, w1) ->
  v1_fields_cache w1 = Some l /\ fields_cache w1 = fields_cache w
  /\ list_fields_cache w1 = list_fields_cache w.
Proof.
  unfold v1_fields. rewrite run_bind, run_get_writer. cbn beta iota.
  destruct (v1_fields_cache w) as [cached|] eqn:Hcache.
  - rewrite run_ret. by intros [= <- <-].
  - unfold fetch_fields, expect_fields. rewrite !run_bind, run_send.
    destruct (remote w (calls w) GetFields) as [[]|]; cbn; try done.
    by intros [= <- <-].
Qed.

Lemma run_v1_fields_cached w l :
  v1_fields_cache w = Some l -> run v1_fields w = (Ok l, w).
Proof.
  intros H. unfold v1_fields.
  by rewrite run_bind, run_get_writer; cbn beta iota; rewrite H.
Qed.

Lemma fields_cached w cat w1 :
  run fields w = (Ok cat, w1) ->
  fields_cache w1 = Some cat /\ list_fields_cache w1 = list_fields_cache w.
Proof.
  unfold fields. rewrite run_bind, run_get_writer. cbn beta iota.
  destruct (fields_cache w) as [cached|] eqn:Hcache.
  - rewrite run_ret. by intros [= <- <-].
  - intros H.
    apply run_bind_ok in H as (l & wa & Hl & H).
    apply v1_fields_cached in Hl as (_ & _ & Hlist).
    apply run_bind_ok in H as (people & wb & Hpeople & H).
    apply run_send_expect_metadata in Hpeople as ->.
    apply run_bind_ok in H as (companies & wc & Hcompanies & H).
    apply run_send_expect_metadata in Hcompanies as ->.
    rewrite run_bind, (run_fold_m_pure _ (fields_step_result (fields_by_id l)))
      in H by (intros; apply run_fields_step).
    destruct (fold_o _ _ _) as [out|e]; [|done].
    cbn in H. by injection H as <- <-.
Qed.

Lemma run_fields_cached w cat :
  fields_cache w = Some cat -> run fields w = (Ok cat, w).
Proof.
  intros H. unfold fields.
  by rewrite run_bind, run_get_writer; cbn beta iota; rewrite H.
Qed.

Lemma load_list_fields_cached list_id w cat w1 :
  run (load_list_fields list_id) w = (Ok cat, w1) ->
  list_fields_cache w1 !! list_id = Some cat
  /\ fields_cache w1 = fields_cache w
  /\ is_Some (v1_fields_cache w1).
Proof.
  unfold load_list_fields. intros H.
  apply run_bind_ok in H as (l & wa & Hl & H).
  apply v1_fields_cached in Hl as (Hv1 & Hfields & _).
  apply run_bind_ok in H as (metadata & wb & Hmetadata & H).
  apply run_send_expect_metadata in Hmetadata as ->.
  rewrite run_bind, (run_fold_m_pure _ (list_fields_step_result (fields_by_id l)))
    in H by (intros; apply run_list_fields_step).
  destruct (fold_o _ _ _) as [out|e]; [|done].
  cbn in H. injection H as <- <-. cbn.
  by rewrite lookup_insert_eq, Hv1.
Qed.

Lemma get_list_fields_cached list_id w cat w1 :
  run (get_list_fields list_id) w = (Ok cat, w1) ->
  list_fields_cache w1 !! list_id = Some cat
  /\ fields_cache w1 = fields_cache w
  /\ (dict_truthy cat = false -> is_Some (v1_fields_cache w1)).
Proof.
  unfold get_list_fields. rewrite run_bind, run_get_writer. cbn beta iota.
  destruct (list_fields_cache w !! list_id) as [cached|] eqn:Hcache.
  - destruct (dict_truthy cached) eqn:Htruthy.
    + rewrite run_ret. intros [= <- <-]. by rewrite Htruthy.
    + intros H. apply load_list_fields_cached in H as (? & ? & ?). auto.
  - intros H. apply load_list_fields_cached in H as (? & ? & ?). auto.
Qed.

Lemma run_get_list_fields_hit list_id w cat :
  list_fields_cache w !! list_id = Some cat -> dom cat <> ∅ ->
  run (get_list_fields list_id) w = (Ok cat, w).
Proof.
  intros Hcache Hdom.
  unfold get_list_fields. rewrite run_bind, run_get_writer. cbn beta iota.
  rewrite Hcache. unfold dict_truthy. by rewrite bool_decide_eq_false_2.
Qed.

(** X14. The catalog of a list is cached only while it is not empty. After
    a call of [get_list_fields] that returned a catalog with an entry, the
    next call returns the same catalog without a request; after one that
    returned the empty catalog, the next call asks the remote for the
    fields of the list again (and for nothing else: the legacy fields stay
    cached). *)
Theorem get_list_fields_caches_non_empty list_id w cat w1 :
  run (get_list_fields list_id) w = (Ok cat, w1) ->
  (dom cat <> ∅ -> run (get_list_fields list_id) w1 = (Ok cat, w1)) /\
  (dom cat = ∅ ->
   calls (run (get_list_fields list_id) w1).2
   = calls w1 ++ [GetListFields list_id]).
Proof.
  intros H. apply get_list_fields_cached in H as (Hcache & _ & Hv1).
  split; intros Hdom.
  - by apply run_get_list_fields_hit.
  - assert (dict_truthy cat = false) as Hfalsy.
    { unfold dict_truthy. by rewrite bool_decide_eq_true_2. }
    destruct (Hv1 Hfalsy) as [l Hl].
    unfold get_list_fields. rewrite run_bind, run_get_writer. cbn beta iota.
    rewrite Hcache, Hfalsy. unfold load_list_fields.
    rewrite run_bind, (run_v1_fields_cached _ _ Hl). cbn beta iota.
    unfold expect_field_metadata. rewrite !run_bind, run_send.
    destruct (remote w1 (calls w1) (GetListFields list_id)) as [r|e]; [|done].
    destruct r; cbn beta iota; try done.
    rewrite run_ret. cbn beta iota.
    rewrite run_bind,
      (run_fold_m_pure _ (list_fields_step_result (fields_by_id l)))
      by (intros; apply run_list_fields_step).
    by destruct (fold_o _ _ _).
Qed.

(** X15. Resolution is idempotent. After [__get_field] has resolved a name,
    resolving it again from the writer it left gives the same pair and
    sends nothing, provided that, when a list is given, the catalog cached
    for that list is not empty. *)
Theorem get_field_is_cached field_name list_id w resolved w1 :
  run (get_field field_name list_id) w = (Ok resolved, w1) ->
  (forall l cat,
      list_id = Some l -> l <> 0 ->
      list_fields_cache w1 !! l = Some cat -> dom cat <> ∅) ->
  run (get_field field_name list_id) w1 = (Ok resolved, w1).
Proof.
  unfold get_field. intros H Hnonempty.
  apply run_bind_ok in H as (global & wa & Hglobal & H).
  apply fields_cached in Hglobal as [Hglobal _].
  apply run_bind_ok in H as (all & wb & Hall & H).
  assert (wb = w1) as ->.
  { destruct (all !! Str.upper field_name); cbn in H; congruence. }
  assert (fields_cache w1 = Some global
          /\ run match list_id with
                 | Some l =>
                     if negb (l =? 0)
                     then list_fields ← get_list_fields l;
                          mret (list_fields ∪ global)
                     else mret global
                 | None => mret global
                 end w1 = (Ok all, w1)) as [Hcache Hagain].
  { destruct list_id as [l|]; [|by injection Hall as <- <-].
    destruct (Z.eqb_spec l 0) as [->|Hl]; cbn [negb] in *;
      [by injection Hall as <- <-|].
    apply run_bind_ok in Hall as (list_fields & wc & Hlist & Hall).
    rewrite run_ret in Hall. injection Hall as <- ->.
    pose proof Hlist as Hlist'.
    apply get_list_fields_cached in Hlist' as (Hcached & Hsame & _).
    split; [congruence|].
    rewrite run_bind, (run_get_list_fields_hit _ _ _ Hcached); [done|].
    by eapply Hnonempty. }
  rewrite run_bind, (run_fields_cached _ _ Hcache). cbn beta iota.
  by rewrite run_bind, Hagain.
Qed.

(** ** The overlay of the two catalogs *)

(** X16. A name is resolved through its upper-cased form, in the catalog
    of the list first and in the global catalog after it, so a list-scoped
    field hides the global field of the same name; a name in neither is
    [FieldNotFoundError]. Without a list, or with the list id 0, only the
    global catalog is read. *)
Theorem get_field_overlay w w1 global field_name :
  run fields w = (Ok global, w1) ->
  let lookup (cat : catalog) :=
    match cat !! Str.upper field_name with
    | Some field => Ok field
    | None => Raise FieldNotFoundError
    end in
  run (get_field field_name None) w = (lookup global, w1) /\
  run (get_field field_name (Some 0)) w = (lookup global, w1) /\
  (forall list_id list_fields w2,
      list_id <> 0 ->
      run (get_list_fields list_id) w1 = (Ok list_fields, w2) ->
      run (get_field field_name (Some list_id)) w
      = (match list_fields !! Str.upper field_name with
         | Some field => Ok field
         | None => lookup global
         end, w2)) /\
  (forall other list_id,
      Str.upper other = Str.upper field_name ->
      run (get_field other list_id) w = run (get_field field_name list_id) w).
Proof.
  intros Hglobal lookup. unfold get_field.
  split; [|split; [|split]].
  - rewrite run_bind, Hglobal. cbn beta iota. rewrite run_bind, run_ret.
    cbn beta iota. unfold lookup. by destruct (global !! _).
  - rewrite run_bind, Hglobal. cbn beta iota. cbn [Z.eqb negb].
    rewrite run_bind, run_ret.
    cbn beta iota. unfold lookup. by destruct (global !! _).
  - intros list_id list_fields w2 Hne Hlist.
    rewrite run_bind, Hglobal. cbn beta iota.
    rewrite (proj2 (Z.eqb_neq list_id 0) Hne). cbn [negb].
    rewrite !run_bind, Hlist. cbn beta iota. rewrite run_ret. cbn beta iota.
    rewrite lookup_union. unfold lookup.
    by destruct (list_fields !! _), (global !! _).
  - intros other list_id Hupper. by rewrite Hupper.
Qed.

(** ** The catalog of a list: the last field of a name is the one filed *)

Lemma list_fields_step_result_lookup by_id out field out' key :
  list_fields_step_result by_id out field = Ok out' ->
  out' !! key
  = if list_filed_under key field then list_catalog_entry by_id field
    else out !! key.
Proof.
  unfold list_fields_step_result, list_fields_step, list_filed_under,
    list_catalog_entry.
  destruct (type_is_global_or_list field); cbn [negb andb orb];
    [|by intros [= <-]].
  destruct (is_reserved field); cbn [negb andb]; [by intros [= <-]|].
  rewrite run_bind, run_lift.
  destruct (list_field_key _) as [k|e]; [|done].
  cbn. intros [= <-].
  destruct (String.eqb_spec (Str.upper (FieldMetadata.name field)) key)
    as [->|Hne].
  - by rewrite lookup_insert_eq.
  - by rewrite lookup_insert_ne.
Qed.

Lemma fold_list_fields_step_lookup by_id l acc cat key :
  fold_o (list_fields_step_result by_id) acc l = Ok cat ->
  cat !! key
  = match last (List.filter (list_filed_under key) l) with
    | Some field => list_catalog_entry by_id field
    | None => acc !! key
    end.
Proof.
  revert acc. induction l as [|field l IH]; intros acc; simpl.
  - by intros [= <-].
  - destruct (list_fields_step_result by_id acc field) as [acc'|e] eqn:Hstep;
      [|done].
    intros Hfold. rewrite (IH _ Hfold).
    rewrite (list_fields_step_result_lookup _ _ _ _ key Hstep).
    destruct (list_filed_under key field); [|done].
    rewrite last_cons. by destruct (last _).
Qed.

(** X25. The catalog of a list, when [get_list_fields] builds it (nothing,
    or an empty catalog, cached for the list) from the legacy fields
    [legacy] and the fields the remote gives for the list: after the one
    request for these fields, each key holds the last field of the answer
    that has the type 'global' or 'list', is not one of the reserved
    'persons' and 'companies', and has that name once upper-cased; a key no
    such field has is absent. A field whose identifier has a dash comes
    with the legacy field of that number, and a field whose identifier has
    none is filed without a legacy field, whatever the legacy fields are. *)
Theorem list_catalog_last_field_wins w wa w1 list_id legacy metadata cat :
  (forall cached,
      list_fields_cache w !! list_id = Some cached -> dom cached = ∅) ->
  run v1_fields w = (Ok legacy, wa) ->
  remote wa (calls wa) (GetListFields list_id) = Ok (RFieldMetadata metadata) ->
  run (get_list_fields list_id) w = (Ok cat, w1) ->
  calls w1 = calls wa ++ [GetListFields list_id] /\
  (forall key,
      cat !! key
      = match last (List.filter (list_filed_under key) metadata) with
        | Some field => list_catalog_entry (fields_by_id legacy) field
        | None => None
        end) /\
  (forall key field v1_field,
      cat !! key = Some (field, v1_field) ->
      Str.contains "-" (FieldMetadata.affinity_id field) = false ->
      v1_field = None).
Proof.
  intros Hmiss Hlegacy Hreply Hrun.
  assert (run (load_list_fields list_id) w = (Ok cat, w1)) as Hload.
  { unfold get_list_fields in Hrun.
    rewrite run_bind, run_get_writer in Hrun. cbn beta iota in Hrun.
    destruct (list_fields_cache w !! list_id) as [cached|] eqn:Hcache; [|done].
    unfold dict_truthy in Hrun.
    by rewrite (bool_decide_eq_true_2 _ (Hmiss cached eq_refl)) in Hrun. }
  clear Hrun. unfold load_list_fields in Hload.
  rewrite run_bind, Hlegacy in Hload. cbn beta iota in Hload.
  unfold expect_field_metadata in Hload.
  rewrite !run_bind, run_send, Hreply in Hload. cbn beta iota in Hload.
  rewrite run_ret in Hload. cbn beta iota in Hload.
  rewrite run_bind,
    (run_fold_m_pure _ (list_fields_step_result (fields_by_id legacy)))
    in Hload by (intros; apply run_list_fields_step).
  destruct (fold_o _ ∅ metadata) as [out|e] eqn:Hfold; [|done].
  cbn in Hload. injection Hload as <- <-.
  assert (forall key,
             out !! key
             = match last (List.filter (list_filed_under key) metadata) with
               | Some field => list_catalog_entry (fields_by_id legacy) field
               | None => None
               end) as Hlookup.
  { intros key. rewrite (fold_list_fields_step_lookup _ _ _ _ key Hfold).
    by destruct (last _). }
  split; [done|]. split; [exact Hlookup|].
  intros key field v1_field Hkey Hdash. rewrite Hlookup in Hkey.
  destruct (last _) as [f|]; [|done].
  unfold list_catalog_entry, list_field_key in Hkey.
  destruct (Str.contains "-" (FieldMetadata.affinity_id f)) eqn:Hf.
  - destruct (second_segment_int _); [|done].
    injection Hkey as -> _. congruence.
  - by injection Hkey as _ <-.
Qed.

(** * Further properties of the list entries *)

Lemma run_fetch_all_list_entries w list_id entries :
  remote w (calls w) (GetListEntries list_id) = Ok (RListEntries entries) ->
  run (fetch_all_list_entries list_id) w
  = (Ok entries, add_call w (GetListEntries list_id)).
Proof.
  intros H. unfold fetch_all_list_entries, expect_list_entries.
  by rewrite run_bind, run_send, H.
Qed.

(** X17. Without qualifiers ([None] or the empty dict),
    [find_or_create_list_entry] looks only at the entity of each entry of
    the list and never fetches field values: several entries of the entity
    raise [ValueError] after the one request; a single entry is reused; and
    with no entry one is created for the entity on the list. *)
Theorem find_or_create_list_entry_without_qualifiers w entity_id entity_type
    list_id qualifiers entries :
  qualifiers = None \/ qualifiers = Some [] ->
  remote w (calls w) (GetListEntries list_id) = Ok (RListEntries entries) ->
  let of_entity :=
    List.filter (fun entry => ListEntry.entity_id entry =? entity_id) entries in
  let result :=
    run (find_or_create_list_entry entity_id entity_type list_id qualifiers) w in
  ((2 <= length of_entity)%nat ->
   result = (Raise (ValueError MultipleEntriesFound),
             add_call w (GetListEntries list_id))) /\
  (forall entry, of_entity = [entry] ->
     result.2 = add_calls w [GetListEntries list_id; InsertCallEntitlement] /\
     (is_ok (remote w (calls w ++ [GetListEntries list_id])
               InsertCallEntitlement) = true ->
      result.1 = Ok entry)) /\
  (of_entity = [] ->
   exists tail,
     calls result.2
     = calls w ++ GetListEntries list_id :: PostListEntry list_id entity_id
                  :: tail /\
     (tail = [] \/ tail = [InsertCallEntitlement])).
Proof.
  intros Hqualifiers Hreply of_entity result.
  assert (result
          = run (insert_entitlement_after
                   (if (1 <? length of_entity)%nat
                    then raise (ValueError MultipleEntriesFound)
                    else match of_entity with
                         | entry :: _ => mret entry
                         | [] => create_list_entry list_id entity_id
                         end))
              (add_call w (GetListEntries list_id))) as ->.
  { subst result. unfold find_or_create_list_entry, insert_entitlement_after.
    rewrite !run_bind, (run_fetch_all_list_entries _ _ _ Hreply).
    cbn beta iota zeta. fold of_entity.
    assert (nonempty of_entity && nonempty (default [] qualifiers) = false)
      as ->.
    { destruct Hqualifiers as [-> | ->]; apply andb_false_r. }
    by rewrite !run_bind, run_ret. }
  unfold insert_entitlement_after. split; [|split].
  - intros Hlen. destruct of_entity as [|e1 [|e2 rest]]; simpl in Hlen;
      [lia|lia|done].
  - intros entry ->. cbn [length Nat.ltb Nat.leb].
    rewrite run_bind, run_ret. cbn beta iota. rewrite run_bind, run_send. cbn [remote calls add_call]. split.
    + destruct (remote w _ InsertCallEntitlement); apply add_call_twice.
    + by destruct (remote w _ InsertCallEntitlement).
  - intros ->. cbn [length Nat.ltb Nat.leb].
    unfold create_list_entry, expect_list_entry.
    rewrite !run_bind, run_send. cbn [remote calls add_call].
    destruct (remote w _ (PostListEntry list_id entity_id)) as [r|e].
    + destruct r; cbn beta iota;
        try (exists []; split; [cbn; by rewrite <- app_assoc|by left]).
      rewrite run_ret. cbn beta iota. rewrite run_bind, run_send.
      exists [InsertCallEntitlement]. split; [|by right].
      destruct (remote _ _ InsertCallEntitlement); cbn;
        by rewrite <- !app_assoc.
    + exists []. split; [cbn; by rewrite <- app_assoc|by left].
Qed.

Lemma filter_nil_iff {A} (f : A -> bool) (l : list A) :
  List.filter f l = [] <-> forall x, In x l -> f x = false.
Proof.
  induction l as [|a l IH]; simpl; [done|].
  destruct (f a) eqn:Hfa.
  - split; [done|]. intros H. specialize (H a (or_introl eq_refl)). congruence.
  - rewrite IH. split.
    + intros H x [<-|Hx]; [done|by apply H].
    + intros H x Hx. apply H. by right.
Qed.

Lemma filter_o_rows v1 rows :
  filter_o (obj_of_field (Some v1)) (List.map ORow rows)
  = Ok (List.map ORow
          (List.filter (fun row => FieldValue.field_id row =? Field.id v1) rows)).
Proof.
  induction rows as [|row rows IH]; [done|]. cbn [List.map filter_o].
  rewrite IH. cbn. by destruct (_ =? _).
Qed.

(** X18. One qualifier against the rows of one entry: the entry matches
    exactly when every desired value (the value itself, or the entries of a
    list) is among the values the rows hold for the resolved legacy field
    and every such value is among the desired ones. Order and repetition
    do not count, and rows of other fields are ignored. *)
Theorem check_single_qualifier w w1 list_id field_name desired rows field v1 :
  run (get_field field_name (Some list_id)) w = (Ok (field, Some v1), w1) ->
  let current :=
    List.map FieldValue.value
      (List.filter (fun row => FieldValue.field_id row =? Field.id v1) rows) in
  exists matched,
    run (check_qualifiers list_id [(field_name, desired)] (List.map ORow rows)) w
    = (Ok matched, w1) /\
    (matched = true <->
     (forall value, In value (as_list desired) -> py_in value current = true) /\
     (forall value, In value current -> py_in value (as_list desired) = true)).
Proof.
  intros Hget current. cbn [check_qualifiers].
  rewrite run_bind, Hget. cbn beta iota. rewrite run_bind, run_lift.
  rewrite filter_o_rows. cbn beta iota zeta.
  rewrite List.map_map. cbn [obj_value].
  change (List.map (fun x => FieldValue.value x)
            (List.filter (fun row => FieldValue.field_id row =? Field.id v1) rows))
    with current.
  set (missing := List.filter _ (as_list desired)).
  set (extra := List.filter _ current).
  assert (missing = [] <->
          forall value, In value (as_list desired) -> py_in value current = true)
    as Hmissing.
  { subst missing. rewrite filter_nil_iff. split; intros H value Hvalue.
    - by apply negb_false_iff, H.
    - by apply negb_false_iff, H. }
  assert (extra = [] <->
          forall value, In value current -> py_in value (as_list desired) = true)
    as Hextra.
  { subst extra. rewrite filter_nil_iff. split; intros H value Hvalue.
    - by apply negb_false_iff, H.
    - by apply negb_false_iff, H. }
  destruct missing as [|m ms], extra as [|x xs]; cbn [nonempty orb].
  - exists true. rewrite run_ret. split; [done|].
    split; [intros _|done]. split; [by apply Hmissing|by apply Hextra].
  - exists false. rewrite run_ret. split; [done|]. split; [done|].
    intros [_ H]. by apply Hextra in H.
  - exists false. rewrite run_ret. split; [done|]. split; [done|].
    intros [H _]. by apply Hmissing in H.
  - exists false. rewrite run_ret. split; [done|]. split; [done|].
    intros [H _]. by apply Hmissing in H.
Qed.

(** * Further properties of the values *)

(** ** The emails of a new person *)

Lemma starts_with_spec pre cs rest :
  Str.starts_with pre cs = Some rest <-> cs = pre ++ rest.
Proof.
  revert cs. induction pre as [|p pre IH]; intros cs; simpl.
  - split; [by intros [= ->]|by intros ->].
  - destruct cs as [|c cs]; [done|].
    destruct (Ascii.eqb_spec p c) as [->|Hne].
    + rewrite IH. split; [by intros ->|by intros [= ->]].
    + split; [done|]. intros [= <- _]. done.
Qed.

Lemma drop_first_some pres cs rest :
  Str.drop_first pres cs = Some rest ->
  exists pre, In pre pres /\ cs = pre ++ rest.
Proof.
  induction pres as [|pre pres IH]; simpl; [done|].
  destruct (Str.starts_with pre cs) as [r|] eqn:Hpre.
  - intros [= ->]. exists pre. split; [by left|]. by apply starts_with_spec.
  - intros H. destruct (IH H) as (pre' & Hin & ->). exists pre'. auto.
Qed.

Lemma drop_first_none pres cs :
  Str.drop_first pres cs = None <->
  forall pre rest, In pre pres -> cs <> pre ++ rest.
Proof.
  induction pres as [|pre pres IH]; simpl.
  - split; [by intros _ ? ? []|done].
  - destruct (Str.starts_with pre cs) as [r|] eqn:Hpre.
    + split; [done|]. intros H. apply starts_with_spec in Hpre.
      by destruct (H pre r (or_introl eq_refl)).
    + rewrite IH. split.
      * intros H pre' rest [<-|Hin]; [|by apply H].
        intros Heq. apply starts_with_spec in Heq. congruence.
      * intros H pre' rest Hin. apply H. by right.
Qed.

(** With fuel for every character, what is left starts with no space. *)
Lemma lstrip_by_stable spaces fuel cs :
  Forall (fun space => space <> []) spaces ->
  (length cs <= fuel)%nat ->
  Str.drop_first spaces (Str.lstrip_by spaces fuel cs) = None.
Proof.
  intros Hspaces. revert cs. induction fuel as [|fuel IH]; intros cs Hfuel.
  - destruct cs; [|simpl in Hfuel; lia]. simpl.
    apply drop_first_none. intros pre rest Hin Heq.
    symmetry in Heq. apply app_eq_nil in Heq as [-> _].
    by apply (proj1 (List.Forall_forall _ _) Hspaces []).
  - simpl. destruct (Str.drop_first spaces cs) as [rest|] eqn:Hdrop; [|done].
    apply IH. apply drop_first_some in Hdrop as (pre & Hin & ->).
    assert (pre <> []) as Hpre
      by (by apply (proj1 (List.Forall_forall _ _) Hspaces pre)).
    rewrite length_app in Hfuel. destruct pre; [done|]. simpl in Hfuel. lia.
Qed.

Lemma lstrip_by_suffix spaces fuel cs :
  exists front, cs = front ++ Str.lstrip_by spaces fuel cs.
Proof.
  revert cs. induction fuel as [|fuel IH]; intros cs; [by exists []|].
  simpl. destruct (Str.drop_first spaces cs) as [rest|] eqn:Hdrop;
    [|by exists []].
  apply drop_first_some in Hdrop as (pre & _ & ->).
  destruct (IH rest) as [front Hfront].
  exists (pre ++ front). by rewrite <- app_assoc, <- Hfront.
Qed.

Lemma lstrip_by_fixed spaces fuel cs :
  Str.drop_first spaces cs = None -> Str.lstrip_by spaces fuel cs = cs.
Proof. intros H. destruct fuel; [done|]. simpl. by rewrite H. Qed.

Lemma whitespace_nonempty :
  Forall (fun space : list ascii => space <> []) Str.whitespace.
Proof.
  vm_compute. repeat (apply List.Forall_cons; [discriminate|]).
  apply List.Forall_nil.
Qed.

Lemma reversed_whitespace_nonempty :
  Forall (fun space : list ascii => space <> [])
    (List.map (@rev ascii) Str.whitespace).
Proof.
  vm_compute. repeat (apply List.Forall_cons; [discriminate|]).
  apply List.Forall_nil.
Qed.

(** The two tests that [strip] leaves nothing to strip. *)
Lemma strip_stable cs :
  Str.drop_first Str.whitespace (Str.strip cs) = None
  /\ Str.drop_first (List.map (@rev ascii) Str.whitespace)
       (rev (Str.strip cs)) = None.
Proof.
  unfold Str.strip, Str.rstrip, Str.lstrip.
  set (t := Str.lstrip_by Str.whitespace (length cs) cs).
  assert (Str.drop_first Str.whitespace t = None) as Hleft
    by (by apply lstrip_by_stable; [apply whitespace_nonempty|]).
  set (u := Str.lstrip_by _ (length t) (rev t)).
  assert (Str.drop_first (List.map (@rev ascii) Str.whitespace) u = None)
    as Hright.
  { apply lstrip_by_stable; [apply reversed_whitespace_nonempty|].
    by rewrite length_rev. }
  split; [|by rewrite rev_involutive].
  apply drop_first_none. intros pre rest Hin Heq.
  destruct (lstrip_by_suffix (List.map (@rev ascii) Str.whitespace)
              (length t) (rev t)) as [front Hfront].
  fold u in Hfront. apply (f_equal (@rev ascii)) in Hfront.
  rewrite rev_involutive, rev_app_distr, Heq, <- app_assoc in Hfront.
  by apply (proj1 (drop_first_none _ _) Hleft pre (rest ++ rev front)).
Qed.

Lemma strip_idempotent cs : Str.strip (Str.strip cs) = Str.strip cs.
Proof.
  destruct (strip_stable cs) as [Hleft Hright].
  set (u := Str.strip cs) in *.
  unfold Str.strip at 1, Str.rstrip, Str.lstrip.
  rewrite (lstrip_by_fixed _ _ u Hleft), (lstrip_by_fixed _ _ _ Hright).
  apply rev_involutive.
Qed.

Lemma strip_string_idempotent s :
  NewPerson.strip (NewPerson.strip s) = NewPerson.strip s.
Proof.
  unfold NewPerson.strip.
  by rewrite list_ascii_of_string_of_list_ascii, strip_idempotent.
Qed.

Lemma strip_string_trimmed s : trimmed (NewPerson.strip s).
Proof.
  unfold trimmed, NewPerson.strip.
  rewrite list_ascii_of_string_of_list_ascii.
  destruct (strip_stable (list_ascii_of_string s)) as [Hleft Hright].
  intros space Hspace. split.
  - intros rest. by apply (proj1 (drop_first_none _ _) Hleft).
  - intros front Heq. apply (f_equal (@rev ascii)) in Heq.
    rewrite rev_app_distr in Heq.
    apply (proj1 (drop_first_none _ _) Hright (rev space) (rev front));
      [|done].
    by apply in_map.
Qed.

Lemma filter_map_strip (emails : list string) :
  List.map NewPerson.strip
    (List.filter (fun e => negb (String.eqb (NewPerson.strip e) "")) emails)
  = List.filter (fun e => negb (String.eqb e ""))
      (List.map NewPerson.strip emails).
Proof.
  induction emails as [|e emails IH]; [done|]. simpl.
  destruct (String.eqb (NewPerson.strip e) ""); simpl; by rewrite IH.
Qed.

(** X19. The validators of [NewPerson]: an empty first or last name is
    refused; otherwise the person is built with the names and organization
    ids as given, and its emails are the given emails, each stripped of the
    white space around it, in their order and as often as given, without
    those that strip to nothing. So no email of a new person is empty or has
    white space at an end, and validating the data of a new person again
    gives the same person. *)
Theorem new_person_validators first_name last_name emails organization_ids :
  (first_name = "" \/ last_name = "" ->
   NewPerson.make first_name last_name emails organization_ids
   = Raise ValidationError) /\
  (first_name <> "" -> last_name <> "" ->
   exists p,
     NewPerson.make first_name last_name emails organization_ids = Ok p /\
     NewPerson.first_name p = first_name /\
     NewPerson.last_name p = last_name /\
     NewPerson.organization_ids p = organization_ids /\
     NewPerson.emails p
     = List.filter (fun email => negb (String.eqb email ""))
         (List.map NewPerson.strip emails) /\
     (forall email,
         In email (NewPerson.emails p) -> email <> "" /\ trimmed email) /\
     NewPerson.make (NewPerson.first_name p) (NewPerson.last_name p)
       (NewPerson.emails p) (NewPerson.organization_ids p) = Ok p).
Proof.
  unfold NewPerson.make. split.
  - intros [-> | ->]; [done|]. by rewrite orb_true_r.
  - intros Hfirst Hlast.
    apply String.eqb_neq in Hfirst, Hlast. rewrite Hfirst, Hlast. cbn [orb].
    eexists. split; [done|].
    cbn [NewPerson.first_name NewPerson.last_name NewPerson.emails
           NewPerson.organization_ids].
    rewrite Hfirst, Hlast. cbn [orb].
    split; [done|]. split; [done|]. split; [done|].
    split; [apply filter_map_strip|]. split.
    + intros email Hemail.
      apply in_map_iff in Hemail as (given & <- & Hgiven).
      apply filter_In in Hgiven as [Hin Hblank].
      split; [by apply negb_true_iff, String.eqb_neq in Hblank|].
      apply strip_string_trimmed.
    + f_equal. f_equal.
      induction emails as [|e emails IH]; [done|]. simpl.
      destruct (String.eqb (NewPerson.strip e) "") eqn:Hblank; simpl; [done|].
      rewrite strip_string_idempotent, Hblank. simpl.
      by rewrite strip_string_idempotent, IH.
Qed.

(** ** The diff *)

Lemma py_in_exists x l : py_in x l = true <-> exists y, In y l /\ py_eq x y = true.
Proof. unfold py_in. apply existsb_exists. Qed.

(** X20. The diff converges. Take the rows of the field once an update has
    been applied: the rows that were not removed, and one created row per
    added value. When [==] is reflexive on the desired values (no NaN),
    symmetric between them and the values of the rows, and no desired value
    is a [Location] (which is sent as its dump), the diff of the desired
    values against these rows is empty: the next update of the same values
    sends nothing. *)
Theorem diff_converges rows desired created :
  (forall x, In x desired -> py_eq x x = true) ->
  (forall x row,
      In x desired -> In row rows ->
      py_eq (FieldValue.value row) x = py_eq x (FieldValue.value row)) ->
  (forall x, In x desired -> wire x = x) ->
  List.map FieldValue.value created
  = List.map wire (values_to_add rows desired) ->
  let kept :=
    List.filter (fun row => py_in (FieldValue.value row) desired) rows in
  values_to_remove (kept ++ created) desired = [] /\
  values_to_add (kept ++ created) desired = [].
Proof.
  intros Hrefl Hsym Hwire Hcreated kept.
  assert (forall row, In row created ->
            exists x, In x desired /\ FieldValue.value row = x
                      /\ py_in x (List.map FieldValue.value rows) = false)
    as Hcreated_in.
  { intros row Hrow.
    apply (in_map FieldValue.value) in Hrow. rewrite Hcreated in Hrow.
    apply in_map_iff in Hrow as (x & Hx & Hadd).
    apply filter_In in Hadd as [Hdesired Hnew].
    exists x. rewrite <- Hx, (Hwire x Hdesired).
    by apply negb_true_iff in Hnew. }
  split.
  - apply filter_nil_iff. intros row Hrow. apply negb_false_iff.
    apply in_app_or in Hrow as [Hrow|Hrow].
    + by apply filter_In in Hrow as [_ ?].
    + destruct (Hcreated_in row Hrow) as (x & Hx & -> & _).
      apply py_in_exists. exists x. split; [done|by apply Hrefl].
  - apply filter_nil_iff. intros x Hx. apply negb_false_iff.
    apply py_in_exists. rewrite List.map_app.
    destruct (py_in x (List.map FieldValue.value rows)) eqn:Hold.
    + apply py_in_exists in Hold as (v & Hv & Heq).
      apply in_map_iff in Hv as (row & <- & Hrow).
      exists (FieldValue.value row). split; [|done].
      apply in_or_app. left. apply in_map. apply filter_In. split; [done|].
      apply py_in_exists. exists x. split; [done|]. by rewrite Hsym.
    + exists x. split; [|by apply Hrefl].
      apply in_or_app. right. rewrite Hcreated.
      rewrite <- (Hwire x Hx) at 1. apply in_map. apply filter_In.
      split; [done|]. by rewrite Hold.
Qed.

Lemma filter_all_true {A} (f : A -> bool) (l : list A) :
  (forall x, In x l -> f x = true) -> List.filter f l = l.
Proof.
  induction l as [|a l IH]; intros H; [done|]. simpl.
  rewrite (H a) by (by left). f_equal. apply IH. intros x Hx. apply H.
  by right.
Qed.

(** A loop over a list that is not empty makes the call of its head. *)
Lemma for_each_first_call {A} (body : A -> M unit) (c : A -> Call) x l w :
  (forall y w', (run (body y) w').2 = add_call w' (c y)) ->
  exists cs, calls (run (for_each (x :: l) body) w).2 = calls w ++ c x :: cs.
Proof.
  intros Hbody.
  change (for_each (x :: l) body) with (body x ≫= (fun _ => for_each l body)).
  rewrite run_bind. pose proof (Hbody x w) as Hx.
  destruct (run (body x) w) as [[[]|e] w']; cbn [snd] in Hx; subst w'.
  - destruct (for_each_calls body c l Hbody (add_call w (c x)))
      as (n & _ & Hst & _).
    rewrite Hst. cbn. rewrite <- app_assoc. by eexists.
  - cbn. by exists [].
Qed.

Lemma py_in_location_false loc values :
  (forall v l, In v values -> v <> VLocation l) ->
  py_in (VLocation loc) values = false.
Proof.
  intros Hjson. unfold py_in. apply not_true_is_false. intros H.
  apply existsb_exists in H as (v & Hv & Heq).
  destruct v; try discriminate. by eapply Hjson.
Qed.

Lemma py_in_of_json_in_locations v loc :
  (forall l, v <> VLocation l) -> py_in v [VLocation loc] = false.
Proof. intros Hv. destruct v; try done. by destruct (Hv l). Qed.

(** X21. A location never converges. The rows of a response hold parsed
    JSON, never a [Location] object, and a [Location] equals no such value:
    for a location field and a [Location] value, the type check passes,
    every current row of the field is removed and the location is added
    again, whatever the rows hold, so an update with [overwrite] always
    sends a request. *)
Theorem update_location_always_rewrites w w1 entity_id list_entry_id field_name
    loc current_values list_id field v1 :
  run (get_field field_name list_id) w = (Ok (field, Some v1), w1) ->
  FieldMetadata.value_type field = "location" ->
  (forall row l, In row current_values -> FieldValue.value row <> VLocation l) ->
  let rows :=
    List.filter (fun row => FieldValue.field_id row =? Field.id v1)
      current_values in
  let result :=
    run (update_field entity_id list_entry_id field_name (VLocation loc)
           current_values true list_id) w in
  values_to_remove rows [VLocation loc] = rows /\
  values_to_add rows [VLocation loc] = [VLocation loc] /\
  exists first others,
    calls result.2 = calls w1 ++ first :: others /\
    first = match rows with
            | row :: _ => DeleteFieldValue (FieldValue.id row)
            | [] => PostFieldValue (Field.id v1) entity_id (model_dump loc)
                      list_entry_id
            end.
Proof.
  intros Hget Htype Hjson rows result.
  assert (values_to_remove rows [VLocation loc] = rows) as Hremove.
  { apply filter_all_true. intros row Hrow.
    apply filter_In in Hrow as [Hrow _].
    rewrite py_in_of_json_in_locations; [done|].
    intros l. by apply Hjson. }
  assert (values_to_add rows [VLocation loc] = [VLocation loc]) as Hadd.
  { unfold values_to_add. cbn [List.filter].
    rewrite py_in_location_false; [done|].
    intros v l Hv. apply in_map_iff in Hv as (row & <- & Hrow).
    apply filter_In in Hrow as [Hrow _]. by apply Hjson. }
  split; [done|]. split; [done|].
  assert (result = run (apply_diff v1 entity_id list_entry_id rows [VLocation loc])
                     w1) as ->.
  { subst result. eapply update_field_reaches_diff; try done.
    - by rewrite Htype.
    - by right.
    - by right. }
  unfold apply_diff. rewrite Hremove, Hadd.
  assert (negb (nonempty rows) && negb (nonempty [VLocation loc]) = false) as ->
    by apply andb_false_r.
  rewrite run_bind.
  set (delete := fun value : FieldValue.t =>
                   delete_field_value (FieldValue.id value)).
  set (post := fun value : PyVal =>
                 create_field_value (Field.id v1) entity_id (wire value)
                   list_entry_id;; mret tt).
  assert (forall w', exists cs,
            calls (run (for_each [VLocation loc] post) w').2
            = calls w' ++ PostFieldValue (Field.id v1) entity_id
                            (model_dump loc) list_entry_id :: cs) as Hpost.
  { intros w'.
    apply (for_each_first_call post (post_call v1 entity_id list_entry_id)).
    intros x w0. apply run_create_field_value. }
  destruct rows as [|row rest].
  - change (for_each [] delete) with (mret tt : M unit).
    rewrite run_ret. cbn beta iota.
    destruct (Hpost w1) as [cs Hcs]. rewrite Hcs. by eexists _, cs.
  - destruct (for_each_first_call delete delete_call row rest w1
                (fun x w0 => run_delete_field_value (FieldValue.id x) w0))
      as [cs Hcs].
    destruct (run (for_each (row :: rest) delete) w1) as [[[]|e] w2];
      cbn [snd] in Hcs.
    + destruct (Hpost w2) as [cs' Hcs']. rewrite Hcs', Hcs.
      rewrite <- app_assoc. cbn [app]. by eexists _, _.
    + cbn [snd]. rewrite Hcs. by eexists _, _.
Qed.

(** * Further properties of find-or-create *)

Lemma run_insert_entitlement_after_ok {A} (func : M A) w a w1 :
  run func w = (Ok a, w1) ->
  (run (insert_entitlement_after func) w).2 = add_call w1 InsertCallEntitlement
  /\ (is_ok (remote w1 (calls w1) InsertCallEntitlement) = true ->
      (run (insert_entitlement_after func) w).1 = Ok a).
Proof.
  intros Hfunc. unfold insert_entitlement_after.
  rewrite run_bind, Hfunc. cbn beta iota. rewrite run_bind, run_send.
  by destruct (remote w1 (calls w1) InsertCallEntitlement).
Qed.

Lemma run_insert_entitlement_after_raise {A} (func : M A) w e w1 :
  run func w = (Raise e, w1) ->
  run (insert_entitlement_after func) w = (Raise e, w1).
Proof.
  intros Hfunc. unfold insert_entitlement_after. by rewrite run_bind, Hfunc.
Qed.

(** X22. A person found by email is reused. Without cache arguments, and
    with searches by email answered by lists of persons: when the answer
    for one of the emails is the first that is not empty, its head is the
    result of [find_or_create_person]; the requests are the searches up to
    that email and the entitlement, so the name is not searched and no
    person is created. *)
Theorem find_or_create_person_found_by_email w first_name last_name emails
    organization_ids (reply : string -> list Person.t) before email after p
    others :
  (forall history e,
      In e emails -> remote w history (GetPersons e) = Ok (RPersons (reply e))) ->
  emails = before ++ email :: after ->
  (forall e, In e before -> reply e = []) ->
  reply email = p :: others ->
  let searches := List.map GetPersons (before ++ [email]) in
  let result :=
    run (find_or_create_person first_name last_name emails organization_ids
           None VNone) w in
  result.2 = add_calls w (searches ++ [InsertCallEntitlement]) /\
  (is_ok (remote w (calls w ++ searches) InsertCallEntitlement) = true ->
   result.1 = Ok p).
Proof.
  intros Hreply Hemails Hbefore Hhit searches result.
  pose proof (find_person_by_emails_hit before reply w emails email after p
                others Hreply Hemails Hbefore Hhit) as Hfound.
  fold searches in Hfound.
  assert (run (by_email ← find_person_by_emails emails;
               match by_email with
               | Some p => mret p
               | None =>
                   by_name ← find_person_by_name first_name last_name;
                   match by_name with
                   | Some p => mret p
                   | None =>
                       new_person ← lift (NewPerson.make first_name last_name
                                            emails (default [] organization_ids));
                       create_person new_person
                   end
               end) w = (Ok p, add_calls w searches)) as Hbody.
  { by rewrite run_bind, Hfound. }
  destruct (run_insert_entitlement_after_ok _ _ _ _ Hbody) as [Hstate Hresult].
  subst result. unfold find_or_create_person.
  cbn [cache_args_mismatch str_truthy truthy negb andb orb cached_lookup].
  split.
  - etransitivity; [|etransitivity; [exact Hstate|]].
    + unfold insert_entitlement_after. by rewrite !run_bind, run_ret.
    + unfold add_call, add_calls. cbn. by rewrite app_assoc.
  - intros Hok. etransitivity; [|apply Hresult; exact Hok].
    unfold insert_entitlement_after. by rewrite !run_bind, run_ret.
Qed.

Lemma run_find_company_by_domain_reply w domain organizations take_best_match :
  remote w (calls w) (GetOrganizations domain) = Ok (ROrganizations organizations) ->
  run (find_company_by_domain domain take_best_match) w
  = (match List.filter (company_has_domain domain) organizations with
     | [] => Ok None
     | [c] => Ok (Some c)
     | c :: _ => if take_best_match then Ok (Some c) else Raise MultipleResults
     end, add_call w (GetOrganizations domain)).
Proof.
  intros H. by rewrite (run_find_company_by_domain _ _ _ _ H), run_pick_company.
Qed.

Lemma run_find_company_by_name_reply w name organizations take_best_match :
  remote w (calls w) (GetOrganizations name) = Ok (ROrganizations organizations) ->
  run (find_company_by_name name take_best_match) w
  = (match List.filter (company_named name) organizations with
     | [] => Ok None
     | [c] => Ok (Some c)
     | c :: _ => if take_best_match then Ok (Some c) else Raise MultipleResults
     end, add_call w (GetOrganizations name)).
Proof.
  intros H. by rewrite (run_find_company_by_name _ _ _ _ H), run_pick_company.
Qed.

(** X23. The order of [find_or_create_company] without cache arguments, when
    searches are answered by lists of companies. A domain that is [None] or
    empty is not searched. A single company with the domain is reused
    without a search by name; when no company has the domain, a single
    company with the name is reused; and when no company has the name
    either, a company is created with the name and the domain as given and
    no person. *)
Theorem find_or_create_company_order w name domain take_best_match
    (reply : string -> list Company.t) :
  (forall history term,
      remote w history (GetOrganizations term) = Ok (ROrganizations (reply term))) ->
  let by_name := List.filter (company_named name) (reply name) in
  let by_domain d := List.filter (company_has_domain d) (reply d) in
  let result :=
    run (find_or_create_company name domain take_best_match None VNone) w in
  let stored cs :=
    is_ok (remote w (calls w ++ cs) InsertCallEntitlement) = true in
  (forall c,
      str_truthy domain = false -> by_name = [c] ->
      result.2 = add_calls w [GetOrganizations name; InsertCallEntitlement] /\
      (stored [GetOrganizations name] -> result.1 = Ok c)) /\
  (forall d c,
      domain = Some d -> d <> "" -> by_domain d = [c] ->
      result.2 = add_calls w [GetOrganizations d; InsertCallEntitlement] /\
      (stored [GetOrganizations d] -> result.1 = Ok c)) /\
  (forall d c,
      domain = Some d -> d <> "" -> by_domain d = [] -> by_name = [c] ->
      result.2 = add_calls w [GetOrganizations d; GetOrganizations name;
                              InsertCallEntitlement] /\
      (stored [GetOrganizations d; GetOrganizations name] -> result.1 = Ok c)) /\
  (forall searches,
      by_name = [] ->
      (str_truthy domain = false /\ searches = [GetOrganizations name]
       \/ exists d, domain = Some d /\ d <> "" /\ by_domain d = [] /\
                    searches = [GetOrganizations d; GetOrganizations name]) ->
      exists tail,
        calls result.2
        = calls w ++ searches
          ++ PostOrganization (NewCompany.mk name domain []) :: tail).
Proof.
  intros Hreply by_name by_domain result stored.
  assert (forall body : M Company.t,
            run (find_or_create_company name domain take_best_match None VNone) w
            = run (insert_entitlement_after body) w ->
            forall c cs,
              run body w = (Ok c, add_calls w cs) ->
              result.2 = add_calls w (cs ++ [InsertCallEntitlement]) /\
              (stored cs -> result.1 = Ok c)) as Hfound.
  { intros body Hbody c cs Hrun. subst result. rewrite Hbody.
    destruct (run_insert_entitlement_after_ok _ _ _ _ Hrun) as [Hst Hres].
    split; [|exact Hres]. rewrite Hst. unfold add_call, add_calls. cbn.
    by rewrite app_assoc. }
  set (body :=
         by_domain ← (if str_truthy domain
                      then find_company_by_domain (default "" domain)
                             take_best_match
                      else mret None);
         match by_domain with
         | Some c => mret c
         | None =>
             by_name ← find_company_by_name name take_best_match;
             match by_name with
             | Some c => mret c
             | None => create_company (NewCompany.mk name domain [])
             end
         end).
  assert (run (find_or_create_company name domain take_best_match None VNone) w
          = run (insert_entitlement_after body) w) as Hbody.
  { unfold find_or_create_company, insert_entitlement_after.
    cbn [cache_args_mismatch str_truthy truthy negb andb orb cached_lookup].
    by rewrite !run_bind, run_ret. }
  split; [|split; [|split]].
  - intros c Hdomain Hname.
    apply (Hfound body Hbody c [GetOrganizations name]).
    subst body. rewrite Hdomain, run_bind, run_ret. cbn beta iota.
    rewrite run_bind, (run_find_company_by_name_reply _ _ (reply name))
      by apply Hreply.
    unfold by_name in Hname. by rewrite Hname.
  - intros d c -> Hd Hdom.
    apply (Hfound body Hbody c [GetOrganizations d]).
    subst body. cbn [str_truthy default id].
    rewrite (proj2 (String.eqb_neq d "") Hd). cbn [negb].
    rewrite run_bind, (run_find_company_by_domain_reply _ _ (reply d))
      by apply Hreply.
    unfold by_domain in Hdom. by rewrite Hdom.
  - intros d c -> Hd Hdom Hname.
    apply (Hfound body Hbody c [GetOrganizations d; GetOrganizations name]).
    subst body. cbn [str_truthy default id].
    rewrite (proj2 (String.eqb_neq d "") Hd). cbn [negb].
    rewrite run_bind, (run_find_company_by_domain_reply _ _ (reply d))
      by apply Hreply.
    unfold by_domain in Hdom. rewrite Hdom. cbn beta iota.
    rewrite run_bind, (run_find_company_by_name_reply _ _ (reply name))
      by apply Hreply.
    unfold by_name in Hname. rewrite Hname. cbn beta iota. rewrite run_ret.
    by rewrite add_call_twice.
  - intros searches Hname Hsearches.
    assert (exists tail,
              calls (run body w).2
              = calls w ++ searches
                ++ PostOrganization (NewCompany.mk name domain []) :: tail)
      as [tail Htail].
    { subst body. unfold create_company, expect_company.
      destruct Hsearches as [[Hdomain ->] | (d & -> & Hd & Hdom & ->)].
      - rewrite Hdomain, run_bind, run_ret. cbn beta iota.
        rewrite run_bind, (run_find_company_by_name_reply _ _ (reply name))
      by apply Hreply.
        unfold by_name in Hname. rewrite Hname. cbn beta iota.
        rewrite run_bind, run_send.
        exists []. destruct (remote _ _ (PostOrganization _)) as [[]|];
          cbn; by rewrite <- app_assoc.
      - cbn [str_truthy default id].
        rewrite (proj2 (String.eqb_neq d "") Hd). cbn [negb].
        rewrite run_bind, (run_find_company_by_domain_reply _ _ (reply d))
      by apply Hreply.
        unfold by_domain in Hdom. rewrite Hdom. cbn beta iota.
        rewrite run_bind, (run_find_company_by_name_reply _ _ (reply name))
      by apply Hreply.
        unfold by_name in Hname. rewrite Hname. cbn beta iota.
        rewrite run_bind, run_send.
        exists []. destruct (remote _ _ (PostOrganization _)) as [[]|];
          cbn; by rewrite <- !app_assoc. }
    subst result. rewrite Hbody. unfold insert_entitlement_after.
    rewrite run_bind.
    destruct (run body w) as [[c|e] w1]; cbn [snd] in Htail.
    + cbn beta iota. rewrite run_bind, run_send.
      exists (tail ++ [InsertCallEntitlement]).
      destruct (remote w1 _ InsertCallEntitlement); cbn; rewrite Htail;
        by rewrite <- !app_assoc.
    + by exists tail.
Qed.

Lemma run_find_person_by_name_none w first_name last_name persons :
  remote w (calls w) (GetPersons (first_name ++ " " ++ last_name))
  = Ok (RPersons persons) ->
  List.filter (person_named first_name last_name) persons = [] ->
  run (find_person_by_name first_name last_name) w
  = (Ok None, add_call w (GetPersons (first_name ++ " " ++ last_name))).
Proof.
  intros Hreply Hvalid. unfold find_person_by_name, expect_persons.
  rewrite !run_bind, run_send, Hreply. cbn beta iota. rewrite run_ret.
  cbn beta iota zeta. by rewrite Hvalid.
Qed.

(** X26. A person that no search finds is created from validated data.
    Without cache arguments, when every search by email is answered with no
    person and the search by name with no person of that name,
    [find_or_create_person] has searched every email as it was given and
    then the name. If the validators of [NewPerson] refuse the data, their
    error is raised after the searches: nothing is created and no
    entitlement is stored. Otherwise the one creation request carries the
    validated person, with the organization ids, or none when they are
    [None]; the entitlement is stored after it when the creation returns. *)
Theorem find_or_create_person_creates w first_name last_name emails
    organization_ids persons :
  (forall history e,
      In e emails -> remote w history (GetPersons e) = Ok (RPersons [])) ->
  (forall history,
      remote w history (GetPersons (first_name ++ " " ++ last_name))
      = Ok (RPersons persons)) ->
  List.filter (person_named first_name last_name) persons = [] ->
  let searches :=
    List.map GetPersons emails ++ [GetPersons (first_name ++ " " ++ last_name)] in
  let validated :=
    NewPerson.make first_name last_name emails (default [] organization_ids) in
  let result :=
    run (find_or_create_person first_name last_name emails organization_ids
           None VNone) w in
  (forall e, validated = Raise e -> result = (Raise e, add_calls w searches)) /\
  (forall new_person,
      validated = Ok new_person ->
      exists tail,
        calls result.2 = calls w ++ searches ++ PostPerson new_person :: tail /\
        (tail = [] \/ tail = [InsertCallEntitlement]) /\
        (forall p,
            remote w (calls w ++ searches) (PostPerson new_person)
            = Ok (RPerson p) ->
            tail = [InsertCallEntitlement] /\
            (is_ok (remote w (calls w ++ searches ++ [PostPerson new_person])
                      InsertCallEntitlement) = true ->
             result.1 = Ok p))).
Proof.
  intros Hemails Hname Hvalid searches validated result.
  set (body :=
         by_email ← find_person_by_emails emails;
         match by_email with
         | Some p => mret p
         | None =>
             by_name ← find_person_by_name first_name last_name;
             match by_name with
             | Some p => mret p
             | None =>
                 new_person ← lift (NewPerson.make first_name last_name
                                      emails (default [] organization_ids));
                 create_person new_person
             end
         end).
  assert (result = run (insert_entitlement_after body) w) as ->.
  { subst result. unfold find_or_create_person, insert_entitlement_after.
    cbn [cache_args_mismatch str_truthy truthy negb andb orb cached_lookup].
    by rewrite !run_bind, run_ret. }
  assert (run body w
          = run (new_person ← lift validated; create_person new_person)
              (add_calls w searches)) as Hbody.
  { subst body. rewrite run_bind.
    rewrite (find_person_by_emails_none emails (fun _ => []) w Hemails)
      by done.
    cbn beta iota. rewrite run_bind.
    rewrite (run_find_person_by_name_none _ _ _ persons) by (apply Hname || done).
    cbn beta iota. unfold add_call, add_calls, searches. cbn.
    by rewrite app_assoc. }
  split.
  - intros e He. apply run_insert_entitlement_after_raise.
    by rewrite Hbody, run_bind, run_lift, He.
  - intros new_person Hok.
    rewrite run_bind, run_lift, Hok in Hbody. cbn beta iota in Hbody.
    assert (exists out,
               run body w
               = (out, add_calls w (searches ++ [PostPerson new_person]))
               /\ forall p,
                   remote w (calls w ++ searches) (PostPerson new_person)
                   = Ok (RPerson p) -> out = Ok p) as (out & Hrun & Hout).
    { rewrite Hbody. unfold create_person, try_except, expect_person.
      cbn [run]. rewrite run_bind, run_send. cbn [add_calls remote calls].
      unfold add_call, add_calls. cbn [remote calls v1_fields_cache fields_cache
                                         list_fields_cache].
      rewrite <- app_assoc.
      destruct (remote w (calls w ++ searches) (PostPerson new_person))
        as [r|e]; [destruct r|]; cbn;
        try (eexists; split; [reflexivity|]; intros; congruence).
      destruct (is_http_422 e); eexists; (split; [reflexivity|done]). }
    unfold insert_entitlement_after. rewrite run_bind, Hrun.
    destruct out as [created|e]; cbn beta iota.
    + rewrite run_bind, run_send. cbn [add_calls remote calls].
      exists [InsertCallEntitlement].
      split; [|split; [by right|]].
      * destruct (remote w _ InsertCallEntitlement) as [[]|]; cbn;
          by rewrite <- !app_assoc.
      * intros p Hp. split; [done|]. apply Hout in Hp as [= ->].
        by destruct (remote w _ InsertCallEntitlement) as [[]|].
    + exists []. split; [cbn; by rewrite <- ?app_assoc|].
      split; [by left|]. intros p Hp. apply Hout in Hp. discriminate.
Qed.

(** * What each method sends *)

Lemma insert_entitlement_after_decorated {A} P (func : M A) :
  issues P func -> decorated P (insert_entitlement_after func).
Proof.
  intros Hfunc w. destruct (Hfunc w) as [_ (cs & Hcs & HP)].
  unfold insert_entitlement_after. rewrite run_bind.
  destruct (run func w) as [[a|e] w1]; cbn [snd] in Hcs.
  - rewrite run_bind, run_send. exists cs, [InsertCallEntitlement].
    split; [|split; [done|split; [by right|done]]].
    destruct (remote w1 (calls w1) InsertCallEntitlement); cbn;
      by rewrite Hcs, app_assoc.
  - exists cs, []. cbn. rewrite app_nil_r.
    split; [done|]. split; [done|]. split; [by left|done].
Qed.

Lemma issues_check_qualifiers P list_id qualifiers current :
  (forall c, is_catalog_call c = true -> P c = true) ->
  issues P (check_qualifiers list_id qualifiers current).
Proof.
  intros HP. revert current.
  induction qualifiers as [|[field_name desired] rest IH]; intros current;
    cbn [check_qualifiers].
  - apply issues_ret.
  - apply issues_bind.
    { eapply issues_mono; [exact HP|apply issues_get_field]. }
    intros [field v1_field]. apply issues_bind; [apply issues_lift|].
    intros kept. cbn zeta. destruct (_ || _); [apply issues_ret|apply IH].
Qed.

Lemma issues_fetch_field_values P entity_id entity_type list_entry_id :
  (forall a b c d, P (GetFieldValues a b c d) = true) ->
  issues P (fetch_field_values entity_id entity_type list_entry_id).
Proof.
  intros HP. unfold fetch_field_values, expect_field_values.
  apply issues_bind; [by apply issues_send|]. intros r. issues_auto.
Qed.

Lemma issues_apply_diff_calls P v1 entity_id list_entry_id rows desired :
  (forall i, P (DeleteFieldValue i) = true) ->
  (forall f e v l, P (PostFieldValue f e v l) = true) ->
  issues P (apply_diff v1 entity_id list_entry_id rows desired).
Proof.
  intros Hdelete Hpost. unfold apply_diff.
  destruct (negb _ && negb _); [apply issues_ret|].
  apply issues_bind.
  - apply issues_for_each. intros row.
    unfold delete_field_value, expect_deleted.
    apply issues_bind; [by apply issues_send|]. intros r. issues_auto.
  - intros _. apply issues_for_each. intros value.
    unfold create_field_value, expect_field_value.
    apply issues_bind; [|intros ?; apply issues_ret].
    apply issues_bind; [by apply issues_send|]. intros r. issues_auto.
Qed.

Lemma catalog_call_list_entry c :
  is_catalog_call c = true -> list_entry_call c = true.
Proof. by destruct c. Qed.

Lemma catalog_call_field_update c :
  is_catalog_call c = true -> field_update_call c = true.
Proof. by destruct c. Qed.

(** X24. What the five decorated methods send. Each one only makes the
    requests of its own kind (a person method never touches companies or
    field values, [find_or_create_list_entry] reads field values and never
    writes one, [update_fields] creates no entity), and then stores the
    entitlement: once, as the last request, whenever the method returns. *)
Theorem decorated_methods_footprint :
  (forall first_name last_name emails organization_ids cached_field_name
          cached_filed_value,
      decorated person_call
        (find_or_create_person first_name last_name emails organization_ids
           cached_field_name cached_filed_value)) /\
  (forall name domain take_best_match cached_field_name cached_filed_value,
      decorated company_call
        (find_or_create_company name domain take_best_match cached_field_name
           cached_filed_value)) /\
  (forall name list_id company_ids person_ids,
      decorated opportunity_call
        (find_or_create_opportunity name list_id company_ids person_ids)) /\
  (forall entity_id entity_type list_id qualifiers,
      decorated list_entry_call
        (find_or_create_list_entry entity_id entity_type list_id qualifiers)) /\
  (forall entity_id entity_type fields list_entry_id list_id overwrite,
      decorated field_update_call
        (update_fields entity_id entity_type fields list_entry_id list_id
           overwrite)).
Proof.
  split; [|split; [|split; [|split]]].
  - intros. unfold find_or_create_person.
    apply insert_entitlement_after_decorated.
    destruct (cache_args_mismatch _ _); [apply issues_raise|].
    apply issues_bind.
    { apply issues_cached_lookup.
      - intros name values. unfold get_people_ids_by_field, expect_ids.
        issues_auto.
      - intros id. unfold find_person_by_id, expect_person. issues_auto. }
    intros [p|]; [apply issues_ret|].
    apply issues_bind; [by apply issues_find_person_by_emails|].
    intros [p|]; [apply issues_ret|].
    apply issues_bind; [by apply issues_find_person_by_name|].
    intros [p|]; [apply issues_ret|].
    apply issues_bind; [apply issues_lift|]. intros new_person.
    by apply issues_create_person.
  - intros. unfold find_or_create_company.
    apply insert_entitlement_after_decorated.
    destruct (cache_args_mismatch _ _); [apply issues_raise|].
    apply issues_bind.
    { apply issues_cached_lookup.
      - intros field values. unfold get_company_ids_by_field, expect_ids.
        issues_auto.
      - intros id. unfold find_company_by_id, expect_company. issues_auto. }
    intros [c|]; [apply issues_ret|].
    apply issues_bind.
    { destruct (str_truthy domain); [|apply issues_ret].
      by apply issues_find_company_by_domain. }
    intros [c|]; [apply issues_ret|].
    apply issues_bind; [by apply issues_find_company_by_name|].
    intros [c|]; [apply issues_ret|].
    unfold create_company, expect_company. issues_auto.
  - intros. unfold find_or_create_opportunity.
    apply insert_entitlement_after_decorated.
    unfold find_opportunity_by_name, expect_opportunities, create_opportunity,
      expect_opportunity.
    issues_auto.
  - intros. unfold find_or_create_list_entry.
    apply insert_entitlement_after_decorated.
    apply issues_bind.
    { unfold fetch_all_list_entries, expect_list_entries. issues_auto. }
    intros entries. cbn zeta. apply issues_bind.
    { destruct (_ && _); [|apply issues_ret].
      apply issues_fold_m. intros still entry. unfold qualify_entry.
      apply issues_bind; [by apply issues_fetch_field_values|].
      intros rows. apply issues_bind; [|intros ?; apply issues_ret].
      apply issues_check_qualifiers. exact catalog_call_list_entry. }
    intros matching. destruct (_ <? _)%nat; [apply issues_raise|].
    destruct matching; [|apply issues_ret].
    unfold create_list_entry, expect_list_entry. issues_auto.
  - intros. unfold update_fields.
    apply insert_entitlement_after_decorated.
    destruct (_ && _); [apply issues_raise|].
    destruct (_ && _); [apply issues_raise|].
    destruct (_ && _); [apply issues_raise|].
    apply issues_bind; [by apply issues_fetch_field_values|].
    intros rows. apply issues_for_each. intros [field_name field_value].
    unfold update_field. apply issues_bind.
    { eapply issues_mono; [exact catalog_call_field_update|].
      apply issues_get_field. }
    intros [field v1_field].
    apply issues_bind; [apply issues_lift|]. intros _.
    apply issues_bind; [apply issues_lift|]. intros current.
    destruct (_ && _); [apply issues_ret|].
    destruct v1_field as [v1|]; [|apply issues_raise].
    destruct (_ && _); [apply issues_raise|].
    apply issues_bind; [apply issues_lift|]. intros desired.
    by apply issues_apply_diff_calls.
Qed.

End Properties.

(** * The statements on the scenarios *)

Import Scenario.

#[local] Existing Instance plain.




(** [update_field_keeps_existing_value] on the same entry. *)
Lemma update_field_keeps_existing_value_witness :
  (run (update_field 5 (Some 70) "stage" (VStr "Won") [row_lead; row_owner]
          false (Some 7)) w0).2 = w_stage.
Proof.
  refine (proj1 (update_field_keeps_existing_value w0 w_stage 5 (Some 70)
                   "stage" (VStr "Won") [row_lead; row_owner] (Some 7)
                   m_stage f_stage _ _)).
  - vm_compute. reflexivity.
  - discriminate.
Defined.

(** [find_company_by_domain_ambiguity] on a search that returns two
    companies with the domain, behind one without: the first of the two is
    the best match. *)
Lemma find_company_by_domain_ambiguity_witness :
  (run (find_company_by_domain "Acme.COM" false) w0).1 = Raise MultipleResults
  /\ exists before c after,
       [other_co; acme; acme_holding] = before ++ c :: after /\
       (run (find_company_by_domain "Acme.COM" true) w0).1 = Ok (Some c).
Proof.
  split.
  - refine (proj1 (proj2 (find_company_by_domain_ambiguity w0 "Acme.COM"
                            [other_co; acme; acme_holding] false _)) _ _).
    + reflexivity.
    + vm_compute. lia.
    + reflexivity.
  - destruct (proj1 (proj2 (proj2 (find_company_by_domain_ambiguity w0
                                     "Acme.COM" [other_co; acme; acme_holding]
                                     true eq_refl))))
      as (before & c & after & Horg & _ & _ & Hresult).
    + vm_compute. lia.
    + reflexivity.
    + exists before, c, after. split; [exact Horg|exact Hresult].
Defined.

(** * The further statements on the scenarios *)

Lemma find_person_by_emails_first_hit_witness :
  run (find_person_by_emails ["zed@example.com"; "alice@example.com"; "x@y.z"])
    (new_writer Cases.service_people)
  = (Ok (Some alice),
     add_calls (new_writer Cases.service_people)
       [GetPersons "zed@example.com"; GetPersons "alice@example.com"]).
Proof.
  refine (proj2 (find_person_by_emails_first_hit
                   (new_writer Cases.service_people)
                   ["zed@example.com"; "alice@example.com"; "x@y.z"]
                   Cases.people _)
            ["zed@example.com"] "alice@example.com" ["x@y.z"] alice [] _ _ _).
  - reflexivity.
  - reflexivity.
  - intros e [<-|[]]. reflexivity.
  - reflexivity.
Defined.

Lemma find_company_by_name_ambiguity_witness :
  (run (find_company_by_name "ACME" false) w0).1 = Ok (Some acme).
Proof.
  refine (proj1 (proj2 (proj2 (proj2 (find_company_by_name_ambiguity w0 "ACME"
                                        [other_co; acme; acme_holding] false _))))
            acme _).
  - reflexivity.
  - reflexivity.
Defined.

Lemma find_company_by_domains_first_match_witness :
  run (find_company_by_domains ["none.org"; "acme.com"; "other.com"]) w0
  = (Raise MultipleResults,
     add_calls w0 [GetOrganizations "none.org"; GetOrganizations "acme.com"]).
Proof.
  refine (proj2 (proj2 (find_company_by_domains_first_match w0
                          ["none.org"; "acme.com"; "other.com"]
                          (fun _ => [other_co; acme; acme_holding]) _)
                   ["none.org"] "acme.com" ["other.com"] _ _) _).
  - reflexivity.
  - reflexivity.
  - intros d [<-|[]]. reflexivity.
  - vm_compute. lia.
Defined.

Lemma find_opportunity_by_name_needs_list_entries_witness :
  run (find_opportunity_by_name 7 "Acme") (new_writer Cases.service_loose)
  = (Raise IndexError,
     add_call (new_writer Cases.service_loose) (GetOpportunities "Acme")).
Proof.
  apply (find_opportunity_by_name_needs_list_entries
           (new_writer Cases.service_loose) 7 "Acme"
           [acme_series_b; Cases.loose]).
  - reflexivity.
  - apply Exists_cons_tl, Exists_cons_hd. reflexivity.
Defined.

Lemma find_or_create_opportunity_outcomes_witness :
  (run (find_or_create_opportunity "Acme Series B" 7 [21] []) w0).1
  = Ok acme_series_b.
Proof.
  refine (proj2 (proj1 (find_or_create_opportunity_outcomes w0 "Acme Series B"
                          7 [21] [] [acme_series_b] _ _) acme_series_b _) _).
  - reflexivity.
  - repeat constructor. discriminate.
  - reflexivity.
  - reflexivity.
Defined.

Lemma update_field_multi_valued_type_raises_witness :
  run (update_field 5 None "tags" (VList [VStr "a"]) [] true None) w0
  = (Raise TypeError, (run (get_field "tags" None) w0).2).
Proof.
  apply (update_field_multi_valued_type_raises w0 _ 5 None "tags"
           (VList [VStr "a"]) [] true None m_tags (Some f_tags) TStr).
  - vm_compute. reflexivity.
  - reflexivity.
Defined.

Lemma update_field_without_legacy_field_witness :
  run (update_field 5 None "orphan" (VStr "x") [] true None)
    (new_writer Cases.service_fields)
  = (Raise AttributeError,
     (run (get_field "orphan" None) (new_writer Cases.service_fields)).2).
Proof.
  apply (update_field_without_legacy_field (new_writer Cases.service_fields) _
           5 None "orphan" (VStr "x") [] true None Cases.m_orphan).
  - vm_compute. reflexivity.
  - reflexivity.
Defined.

Lemma update_fields_stops_at_first_error_witness :
  (run (update_fields 5 company
          [("stage", VStr "Won"); ("tags", VNone); ("owner", VInt 32)]
          (Some 70) (Some 7) true) w0).1
  = Raise TypeError
  /\ calls (run (update_fields 5 company
                   [("stage", VStr "Won"); ("tags", VNone); ("owner", VInt 32)]
                   (Some 70) (Some 7) true) w0).2
     = [GetFieldValues None None None (Some 70); GetFields; GetPeopleFields;
        GetCompanyFields; GetListFields 7; DeleteFieldValue 1;
        PostFieldValue 11 5 (VStr "Won") (Some 70)].
Proof.
  set (w1 := add_call w0 (GetFieldValues None None None (Some 70))).
  set (update := fun '(name, value) =>
         update_field 5 (Some 70) name value [row_lead; row_owner] true
           (Some 7)).
  assert (run (update_fields 5 company
                 ([("stage", VStr "Won")]
                  ++ ("tags", VNone) :: [("owner", VInt 32)])
                 (Some 70) (Some 7) true) w0
          = (Raise TypeError,
             (run (update ("tags", VNone))
                (run (for_each [("stage", VStr "Won")] update) w1).2).2)) as H.
  { apply (update_fields_stops_at_first_error w0 5 company (Some 70) (Some 7)
             true [("stage", VStr "Won")] "tags" VNone [("owner", VInt 32)]
             [row_lead; row_owner] w1).
    - discriminate.
    - reflexivity.
    - vm_compute. reflexivity.
    - vm_compute. reflexivity.
    - vm_compute. reflexivity. }
  split.
  - exact (f_equal fst H).
  - transitivity
      (calls (run (update ("tags", VNone))
                (run (for_each [("stage", VStr "Won")] update) w1).2).2).
    + exact (f_equal (fun p => calls p.2) H).
    + vm_compute. reflexivity.
Defined.

Lemma global_catalog_last_field_wins_witness :
  match (run fields (new_writer Cases.service_fields)).1 with
  | Ok cat => cat !! "NOTES"
  | Raise _ => None
  end = Some (Cases.m_notes_companies, Some Cases.f_remarks).
Proof.
  set (w := new_writer Cases.service_fields).
  destruct (run fields w) as [[cat|e] w1] eqn:Hrun;
    [|vm_compute in Hrun; discriminate].
  cbn [fst].
  rewrite (global_catalog_last_field_wins w (run v1_fields w).2 w1
             [Cases.f_address; Cases.f_notes; Cases.f_remarks]
             [Cases.m_address; Cases.m_notes_people; Cases.m_orphan;
              Cases.m_enriched]
             [Cases.m_notes_companies] cat).
  - vm_compute. reflexivity.
  - reflexivity.
  - vm_compute. reflexivity.
  - reflexivity.
  - reflexivity.
  - exact Hrun.
Defined.

Lemma get_list_fields_caches_non_empty_witness :
  run (get_list_fields 7) (run (get_list_fields 7) w0).2
  = ((run (get_list_fields 7) w0).1, (run (get_list_fields 7) w0).2).
Proof.
  destruct (run (get_list_fields 7) w0) as [[cat|e] w1] eqn:Hrun;
    [|vm_compute in Hrun; discriminate].
  cbn [fst snd].
  apply (proj1 (get_list_fields_caches_non_empty 7 w0 cat w1 Hrun)).
  intros Hdom. apply dom_empty_inv_L in Hdom. subst cat.
  vm_compute in Hrun. discriminate.
Defined.

Lemma get_field_is_cached_witness :
  run (get_field "stage" (Some 7)) w_stage
  = (Ok (m_stage, Some f_stage), w_stage).
Proof.
  apply (get_field_is_cached "stage" (Some 7) w0).
  - vm_compute. reflexivity.
  - intros l cat [= <-] _ Hcache Hdom.
    apply dom_empty_inv_L in Hdom. subst cat.
    vm_compute in Hcache. discriminate.
Defined.

Lemma get_field_overlay_witness :
  (run (get_field "stage" (Some 7)) w0).1 = Ok (m_stage, Some f_stage)
  /\ run (get_field "TAGS" None) w0 = run (get_field "tags" None) w0.
Proof.
  destruct (run fields w0) as [[global|e] w1] eqn:Hglobal;
    [|vm_compute in Hglobal; discriminate].
  pose proof (get_field_overlay w0 w1 global "tags" Hglobal) as H.
  cbv zeta in H. destruct H as (_ & _ & _ & Hcase).
  split; [vm_compute; reflexivity|].
  apply Hcase. reflexivity.
Defined.

Lemma find_or_create_list_entry_without_qualifiers_witness :
  (run (find_or_create_list_entry 6 company 7 None) w0).2
  = add_calls w0 [GetListEntries 7; InsertCallEntitlement]
  /\ (run (find_or_create_list_entry 6 company 7 None) w0).1 = Ok entry_80.
Proof.
  pose proof (find_or_create_list_entry_without_qualifiers w0 6 company 7 None
                [entry_70; entry_80; entry_71] (or_introl eq_refl) eq_refl)
    as H.
  cbv zeta in H. destruct H as (_ & Hone & _).
  destruct (Hone entry_80 eq_refl) as [Hcalls Hresult].
  split; [exact Hcalls|]. apply Hresult. reflexivity.
Defined.

Lemma check_single_qualifier_witness :
  exists matched,
    run (check_qualifiers 7 [("stage", VList [VStr "Lead"; VStr "Lead"])]
           (List.map ORow [row_lead; row_owner])) w0
    = (Ok matched, w_stage) /\
    (matched = true <->
     (forall value,
         In value [VStr "Lead"; VStr "Lead"] ->
         py_in value [VStr "Lead"] = true) /\
     (forall value,
         In value [VStr "Lead"] ->
         py_in value [VStr "Lead"; VStr "Lead"] = true)).
Proof.
  apply (check_single_qualifier w0 w_stage 7 "stage"
           (VList [VStr "Lead"; VStr "Lead"]) [row_lead; row_owner]
           m_stage f_stage).
  vm_compute. reflexivity.
Defined.

Lemma diff_converges_witness :
  values_to_remove
    ([row_lead; Cases.row_kept] ++ [Cases.row_created])
    [VStr "Won"; VStr "Lead"; VInt 3] = []
  /\ values_to_add
       ([row_lead; Cases.row_kept] ++ [Cases.row_created])
       [VStr "Won"; VStr "Lead"; VInt 3] = [].
Proof.
  apply (diff_converges [row_lead; Cases.row_dropped; Cases.row_kept]
           [VStr "Won"; VStr "Lead"; VInt 3] [Cases.row_created]).
  - intros x [<-|[<-|[<-|[]]]]; reflexivity.
  - intros x row [<-|[<-|[<-|[]]]] [<-|[<-|[<-|[]]]]; reflexivity.
  - intros x [<-|[<-|[<-|[]]]]; reflexivity.
  - reflexivity.
Defined.

Lemma update_location_always_rewrites_witness :
  values_to_remove [Cases.row_address] [VLocation Cases.oslo]
  = [Cases.row_address]
  /\ values_to_add [Cases.row_address] [VLocation Cases.oslo]
     = [VLocation Cases.oslo]
  /\ exists first others,
       calls (run (update_field 5 None "address" (VLocation Cases.oslo)
                     [Cases.row_address] true None)
                (new_writer Cases.service_fields)).2
       = calls (run (get_field "address" None)
                  (new_writer Cases.service_fields)).2
         ++ first :: others
       /\ first = DeleteFieldValue 5.
Proof.
  apply (update_location_always_rewrites (new_writer Cases.service_fields) _
           5 None "address" Cases.oslo [Cases.row_address] None
           Cases.m_address Cases.f_address).
  - vm_compute. reflexivity.
  - reflexivity.
  - intros row l [<-|[]]. discriminate.
Defined.

Lemma find_or_create_person_found_by_email_witness :
  (run (find_or_create_person "Alice" "Smith"
          ["zed@example.com"; "alice@example.com"; "x@y.z"] None None VNone)
     (new_writer Cases.service_people)).2
  = add_calls (new_writer Cases.service_people)
      [GetPersons "zed@example.com"; GetPersons "alice@example.com";
       InsertCallEntitlement]
  /\ (run (find_or_create_person "Alice" "Smith"
             ["zed@example.com"; "alice@example.com"; "x@y.z"] None None VNone)
        (new_writer Cases.service_people)).1
     = Ok alice.
Proof.
  pose proof (find_or_create_person_found_by_email
                (new_writer Cases.service_people) "Alice" "Smith"
                ["zed@example.com"; "alice@example.com"; "x@y.z"] None
                Cases.people ["zed@example.com"] "alice@example.com" ["x@y.z"]
                alice []) as H.
  cbv zeta in H. destruct H as [Hcalls Hresult].
  - reflexivity.
  - reflexivity.
  - intros e [<-|[]]. reflexivity.
  - reflexivity.
  - split; [exact Hcalls|]. apply Hresult. reflexivity.
Defined.

Lemma find_or_create_company_order_witness :
  (run (find_or_create_company "Other Ltd" (Some "other.com") false None VNone)
     w0).2
  = add_calls w0 [GetOrganizations "other.com"; InsertCallEntitlement]
  /\ (run (find_or_create_company "Other Ltd" (Some "other.com") false None
             VNone) w0).1
     = Ok other_co.
Proof.
  pose proof (find_or_create_company_order w0 "Other Ltd" (Some "other.com")
                false (fun _ => [other_co; acme; acme_holding])
                (fun _ _ => eq_refl)) as H.
  cbv zeta in H. destruct H as (_ & Hdomain & _).
  destruct (Hdomain "other.com" other_co eq_refl) as [Hcalls Hresult].
  - discriminate.
  - reflexivity.
  - split; [exact Hcalls|]. apply Hresult. reflexivity.
Defined.

Lemma create_person_outcomes_witness :
  (run (create_person (NewPerson.mk "Ann" "Lee" ["ann@example.com"] []))
     (new_writer Cases.service_taken)).1
  = Raise AlreadyExists.
Proof.
  apply (proj1 (proj2 (proj2 create_person_outcomes))).
  reflexivity.
Defined.

Lemma check_field_value_type_accepts_witness :
  check_field_value_type (VStr "Lead") "dropdown" = Ok tt
  /\ check_field_value_type (VList [VStr "a"]) "dropdown-multi" = Raise TypeError.
Proof.
  split.
  - apply (proj1 check_field_value_type_accepts).
    exists TStr. split; [reflexivity|]. split; [reflexivity|].
    right. reflexivity.
  - apply (proj2 (proj2 check_field_value_type_accepts) _ _ TStr).
    reflexivity.
Defined.

Lemma update_fields_argument_checks_witness :
  run (update_fields 41 opportunity [("stage", VStr "Won")] None (Some 7) true)
    w0
  = (Raise CannotDetermineCorrectEntityError, w0).
Proof.
  apply (proj1 (update_fields_argument_checks 41 opportunity
                  [("stage", VStr "Won")] true w0)).
  reflexivity.
Defined.

Lemma new_person_validators_witness :
  exists p,
    NewPerson.make "Ann" "Lee"
      [" ann@example.com "; Cases.no_break_space; "ann@example.com"] [21]
    = Ok p
    /\ NewPerson.emails p = ["ann@example.com"; "ann@example.com"].
Proof.
  destruct (proj2 (new_person_validators "Ann" "Lee"
                     [" ann@example.com "; Cases.no_break_space;
                      "ann@example.com"] [21]))
    as (p & Hmake & _ & _ & _ & Hemails & _).
  - discriminate.
  - discriminate.
  - exists p. split; [exact Hmake|]. rewrite Hemails. reflexivity.
Defined.

Lemma list_catalog_last_field_wins_witness :
  match (run (get_list_fields 8) (new_writer service_dash_free)).1 with
  | Ok cat => cat !! "LEGACY"
  | Raise _ => None
  end = Some (m_legacy, None).
Proof.
  set (w := new_writer service_dash_free).
  destruct (run (get_list_fields 8) w) as [[cat|e] w1] eqn:Hrun;
    [|vm_compute in Hrun; discriminate].
  cbn [fst].
  destruct (list_catalog_last_field_wins w (run v1_fields w).2 w1 8
              [f_stage; f_tags; f_labels; f_owner] [m_legacy] cat)
    as (_ & Hlookup & _).
  - intros cached Hcached. discriminate Hcached.
  - reflexivity.
  - reflexivity.
  - exact Hrun.
  - rewrite Hlookup. reflexivity.
Defined.

Lemma find_or_create_person_creates_witness :
  run (find_or_create_person "" "Lee" ["zed@example.com"] None None VNone)
    (new_writer Cases.service_people)
  = (Raise ValidationError,
     add_calls (new_writer Cases.service_people)
       [GetPersons "zed@example.com"; GetPersons " Lee"]).
Proof.
  pose proof (find_or_create_person_creates (new_writer Cases.service_people)
                "" "Lee" ["zed@example.com"] None []) as H.
  cbv zeta in H. destruct H as [Hraise _].
  - intros history e [<-|[]]. reflexivity.
  - intros history. reflexivity.
  - reflexivity.
  - apply Hraise. reflexivity.
Defined.

Lemma update_field_list_value_is_refused_witness :
  exists e,
    run (update_field 5 (Some 70) "stage" (VList [VStr "Lead"])
           [row_lead; row_owner] true (Some 7)) w0
    = (Raise e, w_stage) /\
    (e = ValueError InvalidFieldValueType
     \/ e = ValueError FieldValueTypeMismatch
     \/ e = TypeError) /\
    (e = TypeError <->
     exists elt,
       dict_get (FieldMetadata.value_type m_stage) FieldTypeMap
       = Some (TListOf elt)).
Proof.
  apply (update_field_list_value_is_refused w0 w_stage 5 (Some 70) "stage"
           [VStr "Lead"] [row_lead; row_owner] true (Some 7) m_stage
           (Some f_stage)).
  vm_compute. reflexivity.
Defined.
